(** * The MOMO token indexing and aggregation pipeline

    A shallow embedding of the two backend workers of the repository
    (the analytics worker and the blockchain indexer, both under
    [backend/src/workers]) together with the in-memory cache of
    [backend/src/utils/redis.js], and the properties of the pipeline
    established on that embedding.

    Conventions of the embedding.
    - JavaScript numbers that hold block heights and millisecond time
      stamps, and BigInt values, are integers of [Z].
    - Decimal strings that carry on-chain uint256 amounts
      ([parsed.args.ethAmount.toString()], [BigInt(swap.ethAmount)]) are
      represented by the integer they spell.
    - The relational store reached through prisma is a record of tables;
      a table is the list of its rows in insertion order.
    - Everything the workers await that lies outside the repository
      (the RPC node, the store's availability, the wall clock) is an
      explicit input of the function that awaits it. *)

From Stdlib Require Import ZArith List String Ascii Bool Lia Permutation Sorted.
From Stdlib Require Import Floats.PrimFloat Floats.SpecFloat Floats.FloatOps.
From stdpp Require Import base strings gmap list pretty.

Local Open Scope string_scope.
Local Open Scope Z_scope.
Local Open Scope list_scope.

(* ===================================================================== *)
(** ** The JavaScript runtime pieces the workers rely on *)
(* ===================================================================== *)

Module JS.

(** Errors that travel through [throw]/[catch]. *)
Inductive Error : Type :=
| RpcError          (* the JSON-RPC provider rejected or timed out *)
| DecodeError       (* interface.parseLog threw *)
| DbError           (* a prisma call rejected *)
| RangeError        (* BigInt division by zero *)
| TypeError.        (* property of undefined, JSON.stringify of a BigInt *)

(** The settled state of an awaited promise, or of any expression that
    may throw. *)
Inductive Result (A : Type) : Type :=
| Ok (a : A)
| Throw (e : Error).
Arguments Ok {A} a.
Arguments Throw {A} e.

(** [String.prototype.toLowerCase] on the ASCII range. *)
Definition lower_ascii (c : ascii) : ascii :=
  let n := nat_of_ascii c in
  if ((65 <=? n)%nat && (n <=? 90)%nat)%bool then ascii_of_nat (n + 32) else c.

Fixpoint toLowerCase (s : string) : string :=
  match s with
  | EmptyString => EmptyString
  | String c r => String (lower_ascii c) (toLowerCase r)
  end.

(** [a / b] on BigInt: truncating division, [RangeError] on a zero
    divisor. *)
Definition BigInt_div (a b : Z) : Result Z :=
  if b =? 0 then Throw RangeError else Ok (Z.quot a b).

(** [parseFloat] of the decimal spelling of an integer: the nearest
    binary64 value, ties to even. *)
Definition parseFloat_int (n : Z) : float :=
  SF2Prim (binary_normalize 53 1024 n 0 false).

(** *** Dates

    A [Date] object is a mutable cell holding a time value in
    milliseconds since the epoch.  The host time zone is taken to be
    UTC, so local midnight is a multiple of [msPerDay]. *)

Definition msPerDay : Z := 86400000.

Definition Day (t : Z) : Z := t / msPerDay.
Definition TimeWithinDay (t : Z) : Z := t mod msPerDay.

(** Day of the week, 0 = Sunday; 1 January 1970 was a Thursday. *)
Definition WeekDay (t : Z) : Z := (Day t + 4) mod 7.

(** Proleptic Gregorian calendar: civil date of a day number. *)
Definition civil_from_days (z : Z) : Z * Z * Z :=
  let z := z + 719468 in
  let era := z / 146097 in
  let doe := z - era * 146097 in
  let yoe := (doe - doe / 1460 + doe / 36524 - doe / 146096) / 365 in
  let y := yoe + era * 400 in
  let doy := doe - (365 * yoe + yoe / 4 - yoe / 100) in
  let mp := (5 * doy + 2) / 153 in
  let d := doy - (153 * mp + 2) / 5 + 1 in
  let m := if mp <? 10 then mp + 3 else mp - 9 in
  ((if m <=? 2 then y + 1 else y), m, d).

(** Day number of a civil date; [m] is 1-based here. *)
Definition days_from_civil (y m d : Z) : Z :=
  let y := if m <=? 2 then y - 1 else y in
  let era := y / 400 in
  let yoe := y - era * 400 in
  let doy := (153 * (if 2 <? m then m - 3 else m + 9) + 2) / 5 + d - 1 in
  let doe := yoe * 365 + yoe / 4 - yoe / 100 + doy in
  era * 146097 + doe - 719468.

Definition YearFromTime (t : Z) : Z := fst (fst (civil_from_days (Day t))).
(** 0-based month, as [Date.prototype.getMonth] returns it. *)
Definition MonthFromTime (t : Z) : Z := snd (fst (civil_from_days (Day t))) - 1.
Definition DateFromTime (t : Z) : Z := snd (civil_from_days (Day t)).

(** [MakeDate(MakeDay(year, month, day), 0)] for an in-range 0-based
    month: midnight of that day. *)
Definition MakeDate (year month day : Z) : Z :=
  days_from_civil year (month + 1) day * msPerDay.

(** The time value of [new Date(year, month, day)]: the constructor
    reads a year from 0 to 99 as 1900 + year. *)
Definition Date_of_fields (year month day : Z) : Z :=
  MakeDate (if (0 <=? year) && (year <=? 99) then 1900 + year else year) month day.

(** The heap of [Date] objects of one function activation. *)
Definition DateRef : Type := nat.
Definition Heap : Type := list Z.
Definition HeapM (A : Type) : Type := Heap -> A * Heap.

Definition hret {A} (a : A) : HeapM A := fun h => (a, h).
Definition hbind {A B} (m : HeapM A) (k : A -> HeapM B) : HeapM B :=
  fun h => let (a, h') := m h in k a h'.

(** [new Date(t)]: a fresh object. *)
Definition new_Date (t : Z) : HeapM DateRef :=
  fun h => (length h, h ++ [t]).

Definition getTime (r : DateRef) : HeapM Z :=
  fun h => (default 0 (h !! r), h).

Definition setTime (r : DateRef) (t : Z) : HeapM Z :=
  fun h => (t, <[r := t]> h).

(** [d.setHours(0, 0, 0, 0)]: mutates [d], returns the new time value. *)
Definition setHours0 (r : DateRef) : HeapM Z :=
  hbind (getTime r) (fun t => setTime r (t - TimeWithinDay t)).

Definition getDay (r : DateRef) : HeapM Z :=
  hbind (getTime r) (fun t => hret (WeekDay t)).

Definition getDate (r : DateRef) : HeapM Z :=
  hbind (getTime r) (fun t => hret (DateFromTime t)).

Definition getFullYear (r : DateRef) : HeapM Z :=
  hbind (getTime r) (fun t => hret (YearFromTime t)).

Definition getMonth (r : DateRef) : HeapM Z :=
  hbind (getTime r) (fun t => hret (MonthFromTime t)).

(** [d.setDate(n)]: day [n] of the current month of [d] (days before 1
    or past the month's end roll over), time within the day kept;
    mutates [d], returns the new time value. *)
Definition setDate (r : DateRef) (n : Z) : HeapM Z :=
  hbind (getTime r) (fun t =>
    setTime r (MakeDate (YearFromTime t) (MonthFromTime t) n + TimeWithinDay t)).

(** *** [parseInt(s, 10)]

    Leading white space is skipped, one sign is read, then the
    longest run of decimal digits; [None] stands for [NaN] (no
    digit).  The value is exact, as every number of the embedding is
    (JavaScript rounds to binary64 above 2^53). *)

Definition is_white (c : ascii) : bool :=
  let n := nat_of_ascii c in
  ((n =? 32) || ((9 <=? n) && (n <=? 13)))%nat.

Definition digit_of (c : ascii) : option Z :=
  let n := nat_of_ascii c in
  if ((48 <=? n) && (n <=? 57))%nat then Some (Z.of_nat (n - 48)) else None.

Fixpoint trimStart (s : string) : string :=
  match s with
  | String c r => if is_white c then trimStart r else s
  | EmptyString => EmptyString
  end.

(** The digits read so far are worth [acc] ([None] when none was
    read). *)
Fixpoint parse_digits (acc : option Z) (s : string) : option Z :=
  match s with
  | String c r =>
      match digit_of c with
      | Some d => parse_digits (Some (default 0 acc * 10 + d)) r
      | None => acc
      end
  | EmptyString => acc
  end.

Definition parseInt10 (s : string) : option Z :=
  match trimStart s with
  | String "-" r => Z.opp <$> parse_digits None r
  | String "+" r => parse_digits None r
  | r => parse_digits None r
  end.

End JS.

Export JS.

Notation "'date' x <- m ; k" := (hbind m (fun x => k))
  (at level 10, x name, m at level 100, k at level 200, only parsing).

(* ===================================================================== *)
(** ** The persisted schema (the tables the workers read and write) *)
(* ===================================================================== *)

Inductive TxType : Type := SWAP_ETH_TO_TOKEN | OTHER_TYPE.
Inductive TxStatus : Type := PENDING | CONFIRMED | FAILED.
Inductive Period : Type := DAILY | WEEKLY | MONTHLY | ALL_TIME.

Record User : Type := mkUser {
  u_id : nat;
  u_walletAddress : string }.

Record Transaction : Type := mkTransaction {
  t_txHash : string;
  t_userId : option nat;
  t_fromAddress : string;
  t_toAddress : string;
  t_tokenAddress : string;
  t_amount : Z;
  t_amountInEth : Z;
  t_tokenAmount : Z;
  t_type : TxType;
  t_status : TxStatus;
  t_blockNumber : option Z;
  t_blockHash : option string;
  t_gasUsed : option Z;
  t_gasPrice : option Z;
  t_confirmations : Z }.

Record SwapEvent : Type := mkSwapEvent {
  s_txHash : string;
  s_blockNumber : Z;
  s_blockHash : string;
  s_buyer : string;
  s_ethAmount : Z;
  s_tokenAmount : Z;
  s_tokensPerEth : Z;
  s_logIndex : Z;
  s_createdAt : Z }.

Record RateUpdate : Type := mkRateUpdate {
  r_oldRate : Z;
  r_newRate : Z;
  r_updatedBy : string;
  r_blockNumber : Z;
  r_txHash : string }.

Record TokenMetrics : Type := mkTokenMetrics {
  m_timestamp : Z;
  m_totalSupply : Z;
  m_contractBalance : Z;
  m_totalSwaps : Z;
  m_totalVolumeEth : Z;
  m_totalVolumeTokens : Z;
  m_uniqueUsers : Z;
  m_tokensPerEth : Z;
  (** the double whose [toString()] is stored *)
  m_priceInEth : float }.

Record LeaderboardEntry : Type := mkLeaderboardEntry {
  l_period : Period;
  l_walletAddress : string;
  l_totalSwaps : Z;
  l_totalVolumeEth : Z;
  l_totalVolumeTokens : Z;
  l_rank : Z;
  l_periodStart : Z;
  l_periodEnd : Z }.

Record DB : Type := mkDB {
  users : list User;
  transactions : list Transaction;
  swapEvents : list SwapEvent;
  rateUpdates : list RateUpdate;
  tokenMetrics : list TokenMetrics;
  leaderboard : list LeaderboardEntry }.

Definition set_users (f : list User -> list User) (d : DB) : DB :=
  mkDB (f (users d)) (transactions d) (swapEvents d) (rateUpdates d)
       (tokenMetrics d) (leaderboard d).
Definition set_transactions (f : list Transaction -> list Transaction) (d : DB) : DB :=
  mkDB (users d) (f (transactions d)) (swapEvents d) (rateUpdates d)
       (tokenMetrics d) (leaderboard d).
Definition set_swapEvents (f : list SwapEvent -> list SwapEvent) (d : DB) : DB :=
  mkDB (users d) (transactions d) (f (swapEvents d)) (rateUpdates d)
       (tokenMetrics d) (leaderboard d).
Definition set_rateUpdates (f : list RateUpdate -> list RateUpdate) (d : DB) : DB :=
  mkDB (users d) (transactions d) (swapEvents d) (f (rateUpdates d))
       (tokenMetrics d) (leaderboard d).
Definition set_tokenMetrics (f : list TokenMetrics -> list TokenMetrics) (d : DB) : DB :=
  mkDB (users d) (transactions d) (swapEvents d) (rateUpdates d)
       (f (tokenMetrics d)) (leaderboard d).
Definition set_leaderboard (f : list LeaderboardEntry -> list LeaderboardEntry) (d : DB) : DB :=
  mkDB (users d) (transactions d) (swapEvents d) (rateUpdates d)
       (tokenMetrics d) (f (leaderboard d)).

Definition emptyDB : DB := mkDB [] [] [] [] [] [].

(** *** What the prisma client does to a table *)

Module Prisma.

(** [upsert({where, create, update})] on a table: the row selected by
    the unique key is updated in place, otherwise [create] is
    appended. *)
Fixpoint upsert {A : Type} (is_key : A -> bool) (create : A) (update : A -> A)
    (tbl : list A) : list A :=
  match tbl with
  | [] => [create]
  | r :: rest =>
      if is_key r then update r :: rest
      else r :: upsert is_key create update rest
  end.

(** [findUnique({where})]. *)
Definition findUnique {A : Type} (is_key : A -> bool) (tbl : list A) : option A :=
  List.find is_key tbl.

Definition user_key (walletAddress : string) (u : User) : bool :=
  String.eqb (u_walletAddress u) walletAddress.

Definition fresh_id (tbl : list User) : nat :=
  S (foldr Nat.max 0%nat (map u_id tbl)).

(** [user.create({data: {walletAddress}})]: the unique constraint on
    the address rejects a second row. *)
Definition user_create (walletAddress : string) (tbl : list User)
    : Result (User * list User) :=
  match findUnique (user_key walletAddress) tbl with
  | Some _ => Throw DbError
  | None => let u := mkUser (fresh_id tbl) walletAddress in Ok (u, tbl ++ [u])
  end.

Definition transaction_key (txHash : string) (t : Transaction) : bool :=
  String.eqb (t_txHash t) txHash.

(** The [update] object of [transaction.upsert]; a field given as
    [undefined] is left out of the statement. *)
Record TransactionUpdate : Type := mkTransactionUpdate {
  up_status : TxStatus;
  up_blockNumber : Z;
  up_blockHash : option string;
  up_gasUsed : option Z;
  up_gasPrice : option Z }.

Definition or_keep {A : Type} (new old : option A) : option A :=
  match new with Some v => Some v | None => old end.

Definition transaction_update (u : TransactionUpdate) (t : Transaction) : Transaction :=
  mkTransaction (t_txHash t) (t_userId t) (t_fromAddress t) (t_toAddress t)
    (t_tokenAddress t) (t_amount t) (t_amountInEth t) (t_tokenAmount t)
    (t_type t)
    (up_status u)
    (Some (up_blockNumber u))
    (or_keep (up_blockHash u) (t_blockHash t))
    (or_keep (up_gasUsed u) (t_gasUsed t))
    (or_keep (up_gasPrice u) (t_gasPrice t))
    (t_confirmations t).

Definition swapEvent_key (txHash : string) (logIndex : Z) (s : SwapEvent) : bool :=
  String.eqb (s_txHash s) txHash && (s_logIndex s =? logIndex).

Definition period_eqb (p q : Period) : bool :=
  match p, q with
  | DAILY, DAILY | WEEKLY, WEEKLY | MONTHLY, MONTHLY | ALL_TIME, ALL_TIME => true
  | _, _ => false
  end.

Definition leaderboard_key (period : Period) (walletAddress : string)
    (periodStart : Z) (l : LeaderboardEntry) : bool :=
  period_eqb (l_period l) period
  && String.eqb (l_walletAddress l) walletAddress
  && (l_periodStart l =? periodStart).

(** The [update] object of [leaderboard.upsert]: the totals and rank
    of the row being written, and [periodEnd: now]. *)
Definition leaderboard_update (n : LeaderboardEntry) (now : Z)
    (old : LeaderboardEntry) : LeaderboardEntry :=
  mkLeaderboardEntry (l_period old) (l_walletAddress old)
    (l_totalSwaps n) (l_totalVolumeEth n) (l_totalVolumeTokens n) (l_rank n)
    (l_periodStart old) now.

End Prisma.

(* ===================================================================== *)
(** ** utils/redis.js: the in-memory cache *)
(* ===================================================================== *)

(** An entry of [memoryCache].  The periodic sweep of the module only
    removes entries whose [expires] has passed, which [get] treats as
    absent anyway. *)

Record CacheEntry : Type := mkCacheEntry {
  value : string;
  expires : option Z }.

Module Cache.

(** [entry.expires && entry.expires < now]: a missing or zero
    [expires] is falsy. *)
Definition expired (entry : CacheEntry) (now : Z) : bool :=
  match expires entry with
  | Some e => negb (e =? 0) && (e <? now)
  | None => false
  end.

(** [cache.get(key)] at time [now]: an expired entry is deleted. *)
Definition get (key : string) (now : Z) (m : gmap string CacheEntry)
    : option string * gmap string CacheEntry :=
  match m !! key with
  | Some entry =>
      if expired entry now then (None, delete key m) else (Some (value entry), m)
  | None => (None, m)
  end.

(** [cache.set(key, value, ttl)]; a missing or zero [ttl] never
    expires. *)
Definition set (key val : string) (ttl : option Z) (now : Z)
    (m : gmap string CacheEntry) : gmap string CacheEntry :=
  let expires :=
    match ttl with
    | Some s => if s =? 0 then None else Some (now + s * 1000)
    | None => None
    end in
  <[key := mkCacheEntry val expires]> m.

Definition del (key : string) (m : gmap string CacheEntry) : gmap string CacheEntry :=
  delete key m.

(** [cache.exists(key)] at time [now]: an expired entry is deleted. *)
Definition exists_ (key : string) (now : Z) (m : gmap string CacheEntry)
    : bool * gmap string CacheEntry :=
  match m !! key with
  | Some entry => if expired entry now then (false, delete key m) else (true, m)
  | None => (false, m)
  end.

(** The map [cache.clear()] leaves. *)
Definition clear (m : gmap string CacheEntry) : gmap string CacheEntry := ∅.

(** The callback of the module's [setInterval], run at time [now]:
    every expired entry is deleted; the result is the number of
    entries cleaned (a debug line is logged when it is positive) and
    the map left. *)
Definition sweep (now : Z) (m : gmap string CacheEntry)
    : nat * gmap string CacheEntry :=
  let kept := filter (fun kv => expired (snd kv) now = false) m in
  ((size m - size kept)%nat, kept).

End Cache.

(* ===================================================================== *)
(** ** Worker state and the effects the workers perform *)
(* ===================================================================== *)

Inductive Level : Type := LInfo | LWarn | LError.

(** One call of [logger.info/warn/error(message, error?)]. *)
Record LogLine : Type := mkLogLine {
  lvl : Level;
  msg : string;
  err : option Error }.

(** The store, the cache, the logger output and the module-level
    variables of the indexer ([lastProcessedBlock], [isRunning]). *)
Record World : Type := mkWorld {
  db : DB;
  memoryCache : gmap string CacheEntry;
  logged : list LogLine;
  lastProcessedBlock : Z;
  isRunning : bool }.

Definition set_db (f : DB -> DB) (w : World) : World :=
  mkWorld (f (db w)) (memoryCache w) (logged w) (lastProcessedBlock w) (isRunning w).
Definition set_memoryCache (f : gmap string CacheEntry -> gmap string CacheEntry)
    (w : World) : World :=
  mkWorld (db w) (f (memoryCache w)) (logged w) (lastProcessedBlock w) (isRunning w).
Definition set_logged (f : list LogLine -> list LogLine) (w : World) : World :=
  mkWorld (db w) (memoryCache w) (f (logged w)) (lastProcessedBlock w) (isRunning w).
Definition set_lastProcessedBlock (b : Z) (w : World) : World :=
  mkWorld (db w) (memoryCache w) (logged w) b (isRunning w).
Definition set_isRunning (b : bool) (w : World) : World :=
  mkWorld (db w) (memoryCache w) (logged w) (lastProcessedBlock w) b.

(** Computations of the workers: they read and write the world and
    either return or throw. *)
Definition M (A : Type) : Type := World -> Result A * World.

Definition ret {A} (a : A) : M A := fun w => (Ok a, w).

Definition bind {A B} (m : M A) (k : A -> M B) : M B :=
  fun w =>
    match m w with
    | (Ok a, w') => k a w'
    | (Throw e, w') => (Throw e, w')
    end.

Definition throw {A} (e : Error) : M A := fun w => (Throw e, w).

(** [try { m } catch (error) { handler error }] *)
Definition try_catch {A} (m : M A) (handler : Error -> M A) : M A :=
  fun w =>
    match m w with
    | (Ok a, w') => (Ok a, w')
    | (Throw e, w') => handler e w'
    end.

(** [await p] for a promise of the outside world that settles as [r]. *)
Definition await {A} (r : Result A) : M A := fun w => (r, w).

Definition gets {A} (f : World -> A) : M A := fun w => (Ok (f w), w).
Definition modify (f : World -> World) : M unit := fun w => (Ok tt, f w).

Notation "'do' x <- m ; k" := (bind m (fun x => k))
  (at level 10, x name, m at level 100, k at level 200, only parsing).
Notation "m ;; k" := (bind m (fun _ => k))
  (at level 100, k at level 200, right associativity, only parsing).

(** [for (const x of l) { await body(x) }] *)
Fixpoint for_of {A} (l : list A) (body : A -> M unit) : M unit :=
  match l with
  | [] => ret tt
  | x :: rest => body x ;; for_of rest body
  end.

Definition logger_info (message : string) : M unit :=
  modify (set_logged (fun l => l ++ [mkLogLine LInfo message None])).
Definition logger_warn (message : string) : M unit :=
  modify (set_logged (fun l => l ++ [mkLogLine LWarn message None])).
Definition logger_error (message : string) (e : Error) : M unit :=
  modify (set_logged (fun l => l ++ [mkLogLine LError message (Some e)])).

Definition cache_set (key val : string) (ttl : option Z) (now : Z) : M unit :=
  modify (set_memoryCache (Cache.set key val ttl now)).
Definition cache_del (key : string) : M unit :=
  modify (set_memoryCache (Cache.del key)).
Definition cache_get (key : string) (now : Z) : M (option string) :=
  fun w =>
    let (v, m') := Cache.get key now (memoryCache w) in
    (Ok v, set_memoryCache (fun _ => m') w).

(** *** The store as the workers reach it *)

Inductive DbOp : Type :=
| OpUserFindUnique
| OpUserCreate
| OpTransactionUpsert
| OpSwapEventUpsert
| OpRateUpdateCreate.

(** The conditions under which one log is handled: the wall clock, which
    store calls reject (connectivity loss, a violated constraint), and
    what the contract's [tokensPerEth()] view answers. *)
Record Ambient : Type := mkAmbient {
  now : Z;
  prisma_rejects : DbOp -> bool;
  tokensPerEth_call : Result Z }.

(** One awaited prisma call. *)
Definition prisma {A} (amb : Ambient) (op : DbOp) (f : DB -> Result (A * DB)) : M A :=
  fun w =>
    if prisma_rejects amb op then (Throw DbError, w)
    else match f (db w) with
         | Ok (a, d') => (Ok a, set_db (fun _ => d') w)
         | Throw e => (Throw e, w)
         end.

(* ===================================================================== *)
(** ** The chain reader's objects (ethers) *)
(* ===================================================================== *)

(** What [interface.parseLog] yields for the three events of
    [MEMECOIN_ABI]. *)
Inductive LogDescription : Type :=
| TokensPurchased (buyer : string) (ethAmount tokenAmount : Z)
| TokensPerEthUpdated (newRate : Z)
| Transfer (from to : string) (val : Z).

Record Block : Type := mkBlock {
  number : Z;
  hash : option string }.

Record Receipt : Type := mkReceipt {
  rc_hash : string;
  rc_from : string;
  rc_status : option Z;
  rc_gasUsed : option Z;
  rc_gasPrice : option Z }.

(** An [EventLog] as [queryFilter] returns it: its topics and data are
    represented by what [parseLog] makes of them (a description, [null],
    or an exception); [getBlock] and [getTransactionReceipt] by what the
    node answers ([null] when it does not know the block or the
    transaction). *)
Record EventLog : Type := mkEventLog {
  parseLog : Result (option LogDescription);
  index : Z;
  getBlock : Result (option Block);
  getTransactionReceipt : Result (option Receipt) }.

Definition CONTRACT_ADDRESS : string := "0xA451b908c7AD183aBD55F8AD48C055Da8cb4264d".

(* ===================================================================== *)
(** ** The blockchain indexer worker *)
(* ===================================================================== *)

Module Indexer.

Import Prisma.

(** [x ? BigInt(x.toString()) : undefined] *)
Definition truthy_bigint (x : option Z) : option Z :=
  match x with
  | Some v => if v =? 0 then None else Some v
  | None => None
  end.

(** [s || undefined] *)
Definition truthy_string (s : option string) : option string :=
  match s with
  | Some EmptyString => None
  | other => other
  end.

(** [tx.status === 1 ? 'CONFIRMED' : 'FAILED'] *)
Definition status_of (tx : Receipt) : TxStatus :=
  match rc_status tx with
  | Some 1 => CONFIRMED
  | _ => FAILED
  end.

(** Dereferencing [tx] and [block] while the argument of a store call
    is built: [null] raises a [TypeError]. *)
Definition deref {A} (o : option A) : M A :=
  match o with
  | Some a => ret a
  | None => throw TypeError
  end.

Definition updateMetrics (ethAmount tokenAmount : Z) : M unit :=
  cache_del "token:metrics".

Definition transaction_create_data (tx : Receipt) (block : Block) (user : User)
    (buyer : string) (ethAmount tokenAmount : Z) : Transaction :=
  mkTransaction (rc_hash tx) (Some (u_id user))
    (toLowerCase buyer) (toLowerCase CONTRACT_ADDRESS) (toLowerCase CONTRACT_ADDRESS)
    ethAmount ethAmount tokenAmount
    SWAP_ETH_TO_TOKEN (status_of tx)
    (Some (number block)) (truthy_string (hash block))
    (truthy_bigint (rc_gasUsed tx)) (truthy_bigint (rc_gasPrice tx))
    0.

Definition transaction_update_data (tx : Receipt) (block : Block) : TransactionUpdate :=
  mkTransactionUpdate (status_of tx) (number block) (truthy_string (hash block))
    (truthy_bigint (rc_gasUsed tx)) (truthy_bigint (rc_gasPrice tx)).

Definition swapEvent_create_data (amb : Ambient) (event : EventLog) (tx : Receipt)
    (block : Block) (buyer : string) (ethAmount tokenAmount rate : Z) : SwapEvent :=
  mkSwapEvent (rc_hash tx) (number block) (default EmptyString (truthy_string (hash block)))
    (toLowerCase buyer) ethAmount tokenAmount rate (index event) (now amb).

(** The [try] block of [processSwapEvent]. *)
Definition processSwapEvent_try (amb : Ambient) (event : EventLog) : M unit :=
  do parsed <- await (parseLog event);
  match parsed with
  | None => ret tt
  | Some desc =>
    do args <- match desc with
               | TokensPurchased buyer ethAmount tokenAmount =>
                   ret (buyer, ethAmount, tokenAmount)
               | _ => throw TypeError
               end;
    let '(buyer, ethAmount, tokenAmount) := args in
    do block <- await (getBlock event);
    do tx <- await (getTransactionReceipt event);
    (* Find or create user *)
    do found <- prisma amb OpUserFindUnique (fun d =>
                  Ok (findUnique (user_key (toLowerCase buyer)) (users d), d));
    do user <- match found with
               | Some u => ret u
               | None =>
                   prisma amb OpUserCreate (fun d =>
                     match user_create (toLowerCase buyer) (users d) with
                     | Ok (u, tbl) => Ok (u, set_users (fun _ => tbl) d)
                     | Throw e => Throw e
                     end)
               end;
    (* Create or update transaction *)
    do tx <- deref tx;
    do block <- deref block;
    prisma amb OpTransactionUpsert (fun d =>
      Ok (tt, set_transactions
                (upsert (transaction_key (rc_hash tx))
                   (transaction_create_data tx block user buyer ethAmount tokenAmount)
                   (transaction_update (transaction_update_data tx block))) d)) ;;
    (* Create swap event record *)
    do rate <- await (BigInt_div tokenAmount ethAmount);
    prisma amb OpSwapEventUpsert (fun d =>
      Ok (tt, set_swapEvents
                (upsert (swapEvent_key (rc_hash tx) (index event))
                   (swapEvent_create_data amb event tx block buyer
                      ethAmount tokenAmount rate)
                   (fun row => row)) d)) ;;
    updateMetrics ethAmount tokenAmount ;;
    cache_del "tx:stats:summary" ;;
    cache_del ("tx:" +:+ rc_hash tx) ;;
    logger_info ("Processed swap event: " +:+ rc_hash tx)
  end.

Definition processSwapEvent (amb : Ambient) (event : EventLog) : M unit :=
  try_catch (processSwapEvent_try amb event)
    (fun error => logger_error "Error processing swap event:" error).

(** The [try] block of [processRateUpdateEvent]. *)
Definition processRateUpdateEvent_try (amb : Ambient) (event : EventLog) : M unit :=
  do parsed <- await (parseLog event);
  match parsed with
  | None => ret tt
  | Some desc =>
    do newRate <- match desc with
                  | TokensPerEthUpdated newRate => ret newRate
                  | _ => throw TypeError
                  end;
    do block <- await (getBlock event);
    do tx <- await (getTransactionReceipt event);
    (* Get previous rate *)
    do oldRate <- await (tokensPerEth_call amb);
    (* Create rate update record *)
    do tx <- deref tx;
    do block <- deref block;
    prisma amb OpRateUpdateCreate (fun d =>
      Ok (tt, set_rateUpdates (fun tbl =>
                tbl ++ [mkRateUpdate oldRate newRate (toLowerCase (rc_from tx))
                          (number block) (rc_hash tx)]) d)) ;;
    cache_del "token:metrics" ;;
    cache_del "token:rate" ;;
    logger_info ("Processed rate update: " +:+ pretty oldRate +:+ " -> " +:+ pretty newRate)
  end.

Definition processRateUpdateEvent (amb : Ambient) (event : EventLog) : M unit :=
  try_catch (processRateUpdateEvent_try amb event)
    (fun error => logger_error "Error processing rate update event:" error).

(** What the outside world does during one iteration of the index
    loop: the height the node reports, the logs it returns for each of
    the two filters over a block range, the conditions under which each
    returned log is handled, and whether [stop()] is called meanwhile. *)
Record CycleEnv : Type := mkCycleEnv {
  getBlockNumber : Result Z;
  queryFilter_TokensPurchased : Z -> Z -> Result (list EventLog);
  queryFilter_TokensPerEthUpdated : Z -> Z -> Result (list EventLog);
  ambient : EventLog -> Ambient;
  stop_called : bool }.

Definition processBlocks (env : CycleEnv) (fromBlock toBlock : Z) : M unit :=
  logger_info ("Processing blocks " +:+ pretty fromBlock +:+ " to " +:+ pretty toBlock) ;;
  try_catch
    (do swapEvents <- await (queryFilter_TokensPurchased env fromBlock toBlock);
     do rateEvents <- await (queryFilter_TokensPerEthUpdated env fromBlock toBlock);
     for_of swapEvents (fun event => processSwapEvent (ambient env event) event) ;;
     for_of rateEvents (fun event => processRateUpdateEvent (ambient env event) event) ;;
     logger_info ("Processed " +:+ pretty (length swapEvents) +:+ " swap events and "
                  +:+ pretty (length rateEvents) +:+ " rate updates"))
    (fun error => logger_error "Error processing blocks:" error ;; throw error).

(** What one iteration did, for statements about cycles to refer to
    (the source function returns nothing): the range whose
    [processBlocks] call returned, if any, and the delay of the timer
    the iteration ends with. *)
Record Cycle : Type := mkCycle {
  processed : option (Z * Z);
  delay : Z }.

(** The body of [while (isRunning) { ... }]. *)
Definition indexLoop_body (env : CycleEnv) : M Cycle :=
  try_catch
    (do currentBlock <- await (getBlockNumber env);
     do last <- gets lastProcessedBlock;
     do range <- (if last <? currentBlock then
                    processBlocks env (last + 1) currentBlock ;;
                    modify (set_lastProcessedBlock currentBlock) ;;
                    cache_set "indexer:lastBlock" (pretty currentBlock) None 0 ;;
                    ret (Some (last + 1, currentBlock))
                  else ret None);
     (* Wait before next check *)
     ret (mkCycle range 5000))
    (fun error =>
       logger_error "Error in index loop:" error ;;
       ret (mkCycle None 10000)).

(** The loop, along the sequence of what the outside world does in its
    successive iterations. *)
Fixpoint indexLoop (envs : list CycleEnv) : M (list Cycle) :=
  match envs with
  | [] => ret []
  | env :: rest =>
      do running <- gets isRunning;
      if running : bool then
        do c <- indexLoop_body env;
        (if stop_called env then modify (set_isRunning false) else ret tt) ;;
        do cs <- indexLoop rest;
        ret (c :: cs)
      else ret []
  end.

(** [start()] up to the call that launches [indexLoop()], at clock
    reading [clock]; the value tells whether the loop is launched.
    When the cached value does not parse, JavaScript stores [NaN] in
    [lastProcessedBlock]; the cursor of [World] is an integer, so that
    case lies outside the embedding and yields [None]. *)
Definition start (clock : Z) (w : World) : option (Result bool * World) :=
  if isRunning w then
    Some ((logger_warn "Indexer is already running" ;; ret false) w)
  else
    let run_up_to_cache :=
      (modify (set_isRunning true) ;;
       logger_info "Starting blockchain indexer..." ;;
       (* Load last processed block from cache *)
       cache_get "indexer:lastBlock" clock) w in
    match run_up_to_cache with
    | (Ok (Some (String c r)), w1) =>
        match parseInt10 (String c r) with
        | Some n => Some (Ok true, set_lastProcessedBlock n w1)
        | None => None
        end
    | (Ok _, w1) => Some (Ok true, w1)
    | (Throw e, w1) => Some (Throw e, w1)
    end.

Definition stop : M unit :=
  modify (set_isRunning false) ;;
  logger_info "Stopping blockchain indexer...".

End Indexer.

(* ===================================================================== *)
(** ** The analytics worker *)
(* ===================================================================== *)

(** The store calls of the worker are taken to answer: what is stated
    of a tick is stated of a tick during which the store is up.  (A
    rejected call would throw into the [catch] of the tick, or out of
    [calculateLeaderboardForPeriod].) *)

Module Analytics.

Import Prisma.

(** [swapEvent.findFirst({orderBy: {createdAt: 'desc'}})]: a row of
    greatest [createdAt] (the earliest inserted one among equals),
    [null] on an empty table. *)
Definition findFirst_latest (tbl : list SwapEvent) : option SwapEvent :=
  foldl (fun acc s =>
           match acc with
           | None => Some s
           | Some a => if s_createdAt a <? s_createdAt s then Some s else Some a
           end) None tbl.

Definition sum (f : SwapEvent -> Z) (tbl : list SwapEvent) : Z :=
  foldr Z.add 0 (map f tbl).

(** [swapEvent.groupBy({by: ['buyer']})]: one group per distinct
    value of the column. *)
Definition groupBy_buyer (tbl : list SwapEvent) : list string :=
  remove_dups (map s_buyer tbl).

Definition getContractBalance : Z := 0.

(** [(1 / parseFloat(tokensPerEth) * 1e18)] in binary64. *)
Definition priceInEth (tokensPerEth : Z) : float :=
  PrimFloat.mul (PrimFloat.div 1%float (parseFloat_int tokensPerEth)) 1e18%float.

(** [JSON.stringify(metrics)]: the object carries BigInt members
    ([totalSwaps], [uniqueUsers]), which JSON.stringify refuses. *)
Definition JSON_stringify_metrics (metrics : TokenMetrics) : Result string :=
  Throw TypeError.

Definition calculateMetrics (clock : Z) : M unit :=
  try_catch
    (logger_info "Calculating token metrics..." ;;
     do latestSwap <- gets (fun w => findFirst_latest (swapEvents (db w)));
     match latestSwap with
     | None => logger_info "No swap events found, skipping metrics calculation"
     | Some latestSwap =>
       do tbl <- gets (fun w => swapEvents (db w));
       let totalSwaps := Z.of_nat (length tbl) in
       let totalVolumeEth := sum s_ethAmount tbl in
       let totalVolumeTokens := sum s_tokenAmount tbl in
       let uniqueUsers := groupBy_buyer tbl in
       let metrics :=
         mkTokenMetrics clock 1000000000000000000000000000 getContractBalance
           totalSwaps totalVolumeEth totalVolumeTokens
           (Z.of_nat (length uniqueUsers))
           (s_tokensPerEth latestSwap)
           (priceInEth (s_tokensPerEth latestSwap)) in
       (* Save to database *)
       modify (set_db (set_tokenMetrics (fun t => t ++ [metrics]))) ;;
       (* Cache metrics *)
       do json <- await (JSON_stringify_metrics metrics);
       cache_set "token:metrics" json (Some 300) clock ;;
       logger_info "Token metrics calculated successfully"
     end)
    (fun error => logger_error "Error calculating metrics:" error).

(** *** Leaderboards *)

(** The [Date] objects of [calculateLeaderboardForPeriod] after its
    [switch]: [now], [periodStart] and [periodEnd], the last being the
    very object [now] ([let periodEnd = now]). *)
Definition periodDates (period : Period) (clock : Z)
    : HeapM (DateRef * DateRef * DateRef) :=
  date now <- new_Date clock;
  let periodEnd := now in
  date periodStart <-
    match period with
    | DAILY =>
        date v <- setHours0 now;
        new_Date v
    | WEEKLY =>
        date dayOfWeek <- getDay now;
        date d <- getDate now;
        date v <- setDate now (d - dayOfWeek);
        date periodStart <- new_Date v;
        date _ <- setHours0 periodStart;
        hret periodStart
    | MONTHLY =>
        date y <- getFullYear now;
        date m <- getMonth now;
        new_Date (Date_of_fields y m 1)
    | ALL_TIME => new_Date 0
    end;
  hret (now, periodStart, periodEnd).

(** The time values the store calls see: those of [periodStart],
    [periodEnd] and [now] once the [switch] has run. *)
Definition periodBounds (period : Period) (clock : Z) : Z * Z * Z :=
  let '((now, periodStart, periodEnd), h) := periodDates period clock [] in
  (fst (getTime periodStart h), fst (getTime periodEnd h), fst (getTime now h)).

Record Stats : Type := mkStats {
  totalSwaps : Z;
  totalVolumeEth : Z;
  totalVolumeTokens : Z }.

(** A JavaScript [Map] with string keys: entries in insertion order,
    [set] on a present key keeps its position. *)
Fixpoint Map_get (k : string) (m : list (string * Stats)) : option Stats :=
  match m with
  | [] => None
  | (k', v) :: rest => if String.eqb k' k then Some v else Map_get k rest
  end.

Fixpoint Map_set (k : string) (v : Stats) (m : list (string * Stats))
    : list (string * Stats) :=
  match m with
  | [] => [(k, v)]
  | (k', v') :: rest =>
      if String.eqb k' k then (k', v) :: rest else (k', v') :: Map_set k v rest
  end.

(** One turn of [for (const swap of swaps)]. *)
Definition aggregate_step (userStats : list (string * Stats)) (swap : SwapEvent)
    : list (string * Stats) :=
  let buyer := toLowerCase (s_buyer swap) in
  let stats := default (mkStats 0 0 0) (Map_get buyer userStats) in
  let stats := mkStats (totalSwaps stats + 1)
                       (totalVolumeEth stats + s_ethAmount swap)
                       (totalVolumeTokens stats + s_tokenAmount swap) in
  Map_set buyer stats userStats.

Definition aggregate (swaps : list SwapEvent) : list (string * Stats) :=
  foldl aggregate_step [] swaps.

(** The comparator handed to [sort]. *)
Definition compareVolume (a b : string * Stats) : Z :=
  let aVol := totalVolumeEth (snd a) in
  let bVol := totalVolumeEth (snd b) in
  if bVol <? aVol then -1 else if aVol <? bVol then 1 else 0.

(** [Array.prototype.sort] is stable: insertion sort that keeps
    entries the comparator does not order in their original order. *)
Fixpoint sort_insert (x : string * Stats) (l : list (string * Stats))
    : list (string * Stats) :=
  match l with
  | [] => [x]
  | y :: rest =>
      if compareVolume x y <=? 0 then x :: y :: rest
      else y :: sort_insert x rest
  end.

Definition sort (l : list (string * Stats)) : list (string * Stats) :=
  foldr sort_insert [] l.

(** [findMany({where: {createdAt: {gte, lte}}})] *)
Definition findMany_createdAt (gte lte : Z) (tbl : list SwapEvent) : list SwapEvent :=
  List.filter (fun s => (gte <=? s_createdAt s) && (s_createdAt s <=? lte)) tbl.

(** The row the [i]-th turn of the saving loop hands to
    [leaderboard.upsert]. *)
Definition entry_of (period : Period) (periodStart periodEnd : Z)
    (i : nat) (e : string * Stats) : LeaderboardEntry :=
  mkLeaderboardEntry period (fst e)
    (totalSwaps (snd e)) (totalVolumeEth (snd e)) (totalVolumeTokens (snd e))
    (Z.of_nat i + 1) periodStart periodEnd.

Definition leaderboard_upsert (now : Z) (e : LeaderboardEntry) : M unit :=
  modify (set_db (set_leaderboard
    (upsert (leaderboard_key (l_period e) (l_walletAddress e) (l_periodStart e))
            e (leaderboard_update e now)))).

Definition period_name (period : Period) : string :=
  match period with
  | DAILY => "DAILY"
  | WEEKLY => "WEEKLY"
  | MONTHLY => "MONTHLY"
  | ALL_TIME => "ALL_TIME"
  end.

(** [JSON.stringify(sorted.slice(0, 100))]: every entry carries BigInt
    members, which JSON.stringify refuses; only the empty array
    serialises. *)
Definition JSON_stringify_sorted (sorted : list (string * Stats)) : Result string :=
  match sorted with
  | [] => Ok "[]"
  | _ :: _ => Throw TypeError
  end.

Definition calculateLeaderboardForPeriod (period : Period) (clock : Z) : M unit :=
  let '(periodStart, periodEnd, now) := periodBounds period clock in
  (* Get swap events for period *)
  do swaps <- gets (fun w => findMany_createdAt periodStart periodEnd (swapEvents (db w)));
  (* Aggregate by buyer *)
  let userStats := aggregate swaps in
  (* Sort by volume *)
  let sorted := sort userStats in
  (* Save leaderboard entries *)
  for_of (imap (entry_of period periodStart periodEnd) sorted) (leaderboard_upsert now) ;;
  (* Cache leaderboard *)
  do json <- await (JSON_stringify_sorted (take 100 sorted));
  cache_set ("leaderboard:" +:+ period_name period) json (Some 300) clock.

Definition calculateLeaderboards (clock : Period -> Z) : M unit :=
  try_catch
    (logger_info "Calculating leaderboards..." ;;
     for_of [DAILY; WEEKLY; MONTHLY; ALL_TIME]
       (fun period => calculateLeaderboardForPeriod period (clock period)) ;;
     logger_info "Leaderboards calculated successfully")
    (fun error => logger_error "Error calculating leaderboards:" error).

End Analytics.


(* ===================================================================== *)
(** ** Vocabulary of the statements *)
(* ===================================================================== *)

Module Spec.

Import Indexer Analytics Prisma.

(** The store answers every call made while a log is handled. *)
Definition store_up (amb : Ambient) : Prop :=
  forall op, prisma_rejects amb op = false.

(** A [TokensPurchased] log that decodes and whose block and receipt
    the node returns. *)
Record readable (e : EventLog) (buyer : string) (ethAmount tokenAmount : Z)
    (block : Block) (tx : Receipt) : Prop := mkReadable {
  rd_parse : parseLog e = Ok (Some (TokensPurchased buyer ethAmount tokenAmount));
  rd_block : getBlock e = Ok (Some block);
  rd_receipt : getTransactionReceipt e = Ok (Some tx) }.

(** A [TokensPerEthUpdated] log that decodes and whose block and
    receipt the node returns. *)
Record readable_rate (e : EventLog) (newRate : Z) (block : Block) (tx : Receipt)
    : Prop := mkReadableRate {
  rr_parse : parseLog e = Ok (Some (TokensPerEthUpdated newRate));
  rr_block : getBlock e = Ok (Some block);
  rr_receipt : getTransactionReceipt e = Ok (Some tx) }.

(** The table holds a row under the key (txHash, logIndex). *)
Definition has_swapEvent (txHash : string) (logIndex : Z) (tbl : list SwapEvent) : Prop :=
  existsb (swapEvent_key txHash logIndex) tbl = true.

(** Number of rows under the key (txHash, logIndex). *)
Definition count_swapEvent (txHash : string) (logIndex : Z) (tbl : list SwapEvent) : nat :=
  length (List.filter (swapEvent_key txHash logIndex) tbl).

Definition has_transaction (txHash : string) (tbl : list Transaction) : Prop :=
  existsb (transaction_key txHash) tbl = true.

(** A decoded [uint256]. *)
Definition uint256 (x : Z) : Prop := 0 <= x < 2 ^ 256.

(** Everything of a [Transaction] row except its status, block number,
    block hash, gas used and gas price. *)
Record keeps_owner_and_amounts (t t' : Transaction) : Prop := mkKeeps {
  keep_txHash : t_txHash t' = t_txHash t;
  keep_userId : t_userId t' = t_userId t;
  keep_fromAddress : t_fromAddress t' = t_fromAddress t;
  keep_toAddress : t_toAddress t' = t_toAddress t;
  keep_tokenAddress : t_tokenAddress t' = t_tokenAddress t;
  keep_amount : t_amount t' = t_amount t;
  keep_amountInEth : t_amountInEth t' = t_amountInEth t;
  keep_tokenAmount : t_tokenAmount t' = t_tokenAmount t;
  keep_type : t_type t' = t_type t;
  keep_confirmations : t_confirmations t' = t_confirmations t }.

(** The rate property as an invariant of the table. *)
Definition rate_is_quotient (row : SwapEvent) : Prop :=
  s_ethAmount row <> 0
  /\ s_tokensPerEth row = Z.quot (s_tokenAmount row) (s_ethAmount row).

(** The world after the swap handlers, then the rate handlers, have
    run over a batch, one log after the other. *)
Definition after_swaps (env : CycleEnv) (batch : list EventLog) (w : World) : World :=
  foldl (fun w e => snd (processSwapEvent (ambient env e) e w)) w batch.

Definition after_rates (env : CycleEnv) (batch : list EventLog) (w : World) : World :=
  foldl (fun w e => snd (processRateUpdateEvent (ambient env e) e w)) w batch.

(** One handler call: the log and the conditions it is handled
    under. *)
Inductive Job : Type :=
| SwapJob (amb : Ambient) (e : EventLog)
| RateJob (amb : Ambient) (e : EventLog).

(** The handler calls of one batch, in the order [processBlocks]
    makes them: the swap logs, then the rate logs. *)
Definition jobs (env : CycleEnv) (swaps rates : list EventLog) : list Job :=
  map (fun e => SwapJob (ambient env e) e) swaps
  ++ map (fun e => RateJob (ambient env e) e) rates.

Definition handle (j : Job) : M unit :=
  match j with
  | SwapJob amb e => processSwapEvent amb e
  | RateJob amb e => processRateUpdateEvent amb e
  end.

(** The [try] block of the handler. *)
Definition handle_try (j : Job) : M unit :=
  match j with
  | SwapJob amb e => processSwapEvent_try amb e
  | RateJob amb e => processRateUpdateEvent_try amb e
  end.

(** The message of the handler's [catch]. *)
Definition error_message (j : Job) : string :=
  match j with
  | SwapJob _ _ => "Error processing swap event:"
  | RateJob _ _ => "Error processing rate update event:"
  end.

(** The world after a sequence of handler calls. *)
Definition after_jobs (batch : list Job) (w : World) : World :=
  foldl (fun w j => snd (handle j w)) w batch.

(** The node reports one receipt and one block per transaction hash:
    a swap log handled under the hash of [tx] carries [tx] and
    [block]. *)
Definition same_chain_view (tx : Receipt) (block : Block) (j : Job) : Prop :=
  match j with
  | SwapJob _ e' =>
      forall tx' block',
        getTransactionReceipt e' = Ok (Some tx') ->
        getBlock e' = Ok (Some block') ->
        rc_hash tx' = rc_hash tx ->
        tx' = tx /\ block' = block
  | RateJob _ _ => True
  end.

(** The state in which a log is reflected: one [SwapEvent] row under its
    key, and the [Transaction] row found under its hash already carries
    what the update path writes. *)
Definition reflected (tx : Receipt) (block : Block) (logIndex : Z) (w : World) : Prop :=
  count_swapEvent (rc_hash tx) logIndex (swapEvents (db w)) = 1%nat
  /\ exists t,
       findUnique (transaction_key (rc_hash tx)) (transactions (db w)) = Some t
       /\ transaction_update (transaction_update_data tx block) t = t.

Definition log_line (level : Level) (message : string) (e : option Error) (w : World)
    : World :=
  set_logged (fun l => l ++ [mkLogLine level message e]) w.

Definition Processing_blocks (fromBlock toBlock : Z) : string :=
  "Processing blocks " +:+ pretty fromBlock +:+ " to " +:+ pretty toBlock.

Definition Processed_events (swaps rates : list EventLog) : string :=
  "Processed " +:+ pretty (length swaps) +:+ " swap events and "
  +:+ pretty (length rates) +:+ " rate updates".

(** Reading the height fails, or the height is above the cursor and
    one of the two log queries over (cursor, height] fails. *)
Definition fetch_fails (env : CycleEnv) (w : World) (error : Error) : Prop :=
  getBlockNumber env = Throw error
  \/ exists height,
       getBlockNumber env = Ok height
       /\ lastProcessedBlock w < height
       /\ (queryFilter_TokensPurchased env (lastProcessedBlock w + 1) height = Throw error
           \/ (exists swaps,
                 queryFilter_TokensPurchased env (lastProcessedBlock w + 1) height = Ok swaps
                 /\ queryFilter_TokensPerEthUpdated env (lastProcessedBlock w + 1) height
                    = Throw error)).

(** Both log queries over the range answer. *)
Definition fetched (env : CycleEnv) (fromBlock toBlock : Z)
    (swaps rates : list EventLog) : Prop :=
  queryFilter_TokensPurchased env fromBlock toBlock = Ok swaps
  /\ queryFilter_TokensPerEthUpdated env fromBlock toBlock = Ok rates.

(** A log of the range fails: its decoding throws, or it is readable
    and the store rejects the upsert that persists it. *)
Inductive log_failure (env : CycleEnv) (e : EventLog) : Prop :=
| decoding_fails (error : Error) :
    parseLog e = Throw error -> log_failure env e
| persisting_fails buyer ethAmount tokenAmount block tx :
    readable e buyer ethAmount tokenAmount block tx ->
    prisma_rejects (ambient env e) OpSwapEventUpsert = true ->
    log_failure env e.

(** The cursor, in process and in the cache, is what it was, and the
    iteration ends on the backoff delay. *)
Definition cycle_aborted (env : CycleEnv) (w : World) : Prop :=
  let w' := snd (indexLoop_body env w) in
  lastProcessedBlock w' = lastProcessedBlock w
  /\ memoryCache w' !! "indexer:lastBlock" = memoryCache w !! "indexer:lastBlock"
  /\ exists c, fst (indexLoop_body env w) = Ok c /\ processed c = None /\ delay c = 10000.

(** C1 as the specification words it: any failure while fetching,
    decoding or persisting a log of the range aborts the cycle with
    the cursor kept. *)
Definition cursor_kept_on_any_failure : Prop :=
  forall env w,
    ((exists error, fetch_fails env w error)
     \/ (exists height swaps rates e,
           getBlockNumber env = Ok height
           /\ lastProcessedBlock w < height
           /\ fetched env (lastProcessedBlock w + 1) height swaps rates
           /\ In e swaps
           /\ log_failure env e)) ->
    cycle_aborted env w.

(** Ranges handed over one after the other, each starting right above
    the cursor the previous one left. *)
Fixpoint contiguous (cursor : Z) (cycles : list Cycle) (final : Z) : Prop :=
  match cycles with
  | [] => final = cursor
  | c :: rest =>
      match processed c with
      | Some (a, b) => a = cursor + 1 /\ a <= b /\ contiguous b rest final
      | None => contiguous cursor rest final
      end
  end.

(** The first range lies wholly below the second. *)
Definition range_before (r1 r2 : Z * Z) : Prop := snd r1 < fst r2.

(** The world after the saving loop of a period's calculation has run
    over the rows [es]. *)
Definition saved (now : Z) (es : list LeaderboardEntry) (w : World) : World :=
  foldl (fun w e => snd (leaderboard_upsert now e w)) w es.

Definition same_period (period : Period) (periodStart : Z) (e : LeaderboardEntry)
    : Prop :=
  l_period e = period /\ l_periodStart e = periodStart.

(** C3 as the specification words it: whenever a readable log is
    processed twice while the store answers, one [SwapEvent] row
    exists under its key afterwards and the second processing changes
    neither table. *)
Definition reprocessing_always_idempotent : Prop :=
  forall amb1 amb2 e w buyer ethAmount tokenAmount block tx,
    readable e buyer ethAmount tokenAmount block tx ->
    store_up amb1 ->
    store_up amb2 ->
    (count_swapEvent (rc_hash tx) (index e) (swapEvents (db w)) <= 1)%nat ->
    let w1 := snd (processSwapEvent amb1 e w) in
    let w2 := snd (processSwapEvent amb2 e w1) in
    count_swapEvent (rc_hash tx) (index e) (swapEvents (db w2)) = 1%nat
    /\ transactions (db w2) = transactions (db w1)
    /\ swapEvents (db w2) = swapEvents (db w1).

(** The rows stored for a (period, periodStart), in table order. *)
Definition board (period : Period) (periodStart : Z) (tbl : list LeaderboardEntry)
    : list LeaderboardEntry :=
  List.filter (fun l => period_eqb (l_period l) period && (l_periodStart l =? periodStart))
    tbl.

(** Wallet and rank of each row. *)
Definition ranks (rows : list LeaderboardEntry) : list (string * Z) :=
  map (fun l => (l_walletAddress l, l_rank l)) rows.

End Spec.

(** ** Concrete logs, conditions and worlds used as instances *)

Module Sample.

Import Indexer.

(** 2024-01-01T10:00:00Z, store up, contract rate 1000. *)
Definition calm : Ambient := mkAmbient 1704103200000 (fun _ => false) (Ok 1000).

(** The same moment with the store rejecting the swap-event upsert. *)
Definition store_rejects_swapEvent : Ambient :=
  mkAmbient 1704103200000
    (fun op => match op with OpSwapEventUpsert => true | _ => false end) (Ok 1000).

Definition swap_log (txHash buyer : string) (logIndex blockNumber ethAmount tokenAmount : Z)
    : EventLog :=
  mkEventLog (Ok (Some (TokensPurchased buyer ethAmount tokenAmount))) logIndex
    (Ok (Some (mkBlock blockNumber (Some "0xb10c"))))
    (Ok (Some (mkReceipt txHash buyer (Some 1) (Some 21000) (Some 5)))).

(** A log whose data does not decode. *)
Definition garbled : EventLog :=
  mkEventLog (Throw DecodeError) 0
    (Ok (Some (mkBlock 11 (Some "0xb10c"))))
    (Ok (Some (mkReceipt "0x7a" "0xAb" (Some 1) (Some 21000) (Some 5)))).

Definition W1 : string := "0xAAaa000000000000000000000000000000000001".
Definition W2 : string := "0xBBbb000000000000000000000000000000000002".

Definition ETH : Z := 1000000000000000000.

Definition swap_w1 : EventLog := swap_log "0x01" W1 0 11 (2 * ETH) (2000 * ETH).
Definition swap_w2 : EventLog := swap_log "0x02" W2 0 12 (5 * ETH) (5000 * ETH).
Definition swap_zero : EventLog := swap_log "0x03" W1 0 12 0 (7 * ETH).

(** Cursor at block 10, empty store, empty cache. *)
Definition world0 : World := mkWorld emptyDB ∅ [] 10 true.

(** The node is at height 12 and returns exactly [swaps] and
    [rates] for the two filters; every log is handled under [amb]. *)
Definition node (swaps rates : list EventLog) (amb : Ambient) : CycleEnv :=
  mkCycleEnv (Ok 12) (fun _ _ => Ok swaps) (fun _ _ => Ok rates) (fun _ => amb) false.

(** The node is at height 12 and the log query times out. *)
Definition node_times_out : CycleEnv :=
  mkCycleEnv (Ok 12) (fun _ _ => Throw RpcError) (fun _ _ => Ok []) (fun _ => calm) false.

(** 2024-01-01T12:00:00Z. *)
Definition noon : Z := 1704110400000.

(** The [SwapEvent] row the indexer creates for [swap_w1]. *)
Definition row_w1 : SwapEvent :=
  mkSwapEvent "0x01" 11 "0xb10c" (toLowerCase W1) (2 * ETH) (2000 * ETH) 1000 0
    1704103200000.

(** A transaction already tracked for user 99, still pending, under
    the hash of [swap_w1]. *)
Definition tracked : Transaction :=
  mkTransaction "0x01" (Some 99%nat) "0xfeed" "0xf00d" "0xf00d" 1 1 1
    OTHER_TYPE PENDING None None None None 3.

Definition world_tracked : World :=
  mkWorld (mkDB [mkUser 99 "0xfeed"] [tracked] [] [] [] []) ∅ [] 10 true.

(** The store after one cycle has indexed a 2 ETH swap of [W1] and a
    5 ETH swap of [W2], both recorded at 10:00 of that day. *)
Definition indexed_today : World :=
  snd (indexLoop_body (node [swap_w1; swap_w2] [] calm) world0).

(** Sunday 2023-12-31 at 00:00Z; Monday 2024-01-01 at 10:00Z and
    Tuesday 2024-01-02 at 08:00Z. *)
Definition sunday_0 : Z := 1703980800000.
Definition monday_10 : Z := 1704103200000.
Definition tuesday_8 : Z := 1704182400000.

(** Sunday 07:00Z and 09:00Z, store up. *)
Definition sunday_7 : Ambient := mkAmbient 1704006000000 (fun _ => false) (Ok 1000).
Definition sunday_9 : Ambient := mkAmbient 1704013200000 (fun _ => false) (Ok 1000).

(** The store after the 2 ETH swap of [W1] was recorded on that
    Sunday at 07:00 and the 5 ETH swap of [W2] at 09:00. *)
Definition indexed_sunday : World :=
  snd (processSwapEvent sunday_9 swap_w2
         (snd (processSwapEvent sunday_7 swap_w1 world0))).

End Sample.

(* ===================================================================== *)
(** ** Vocabulary of the further statements *)
(* ===================================================================== *)

Module More.

Import Indexer Analytics Prisma Spec.

(** An entry written at [now] with time to live [ttl] (seconds) is
    still served at [later]. *)
Definition lives (ttl : option Z) (now later : Z) : bool :=
  match ttl with
  | None => true
  | Some s => (s =? 0) || (now + s * 1000 =? 0) || (later <=? now + s * 1000)
  end.

(** The uniqueness constraints of the store: one user per wallet
    address and per id, one transaction per hash, one swap event per
    (hash, log index). *)
Record store_wf (d : DB) : Prop := mkStoreWf {
  wf_wallets : NoDup (map u_walletAddress (users d));
  wf_ids : NoDup (map u_id (users d));
  wf_hashes : NoDup (map t_txHash (transactions d));
  wf_swaps : NoDup (map (fun s => (s_txHash s, s_logIndex s)) (swapEvents d)) }.

(** Wallet addresses are stored in lower case. *)
Definition lower_cased (a : string) : Prop := toLowerCase a = a.

Record normalized (d : DB) : Prop := mkNormalized {
  nz_users : Forall (fun u => lower_cased (u_walletAddress u)) (users d);
  nz_buyers : Forall (fun s => lower_cased (s_buyer s)) (swapEvents d) }.

(** [d'] extends [d] the way the indexer writes: users, swap events
    and rate updates are appended to, never changed; transactions
    keep their place, owner and amounts, and new ones are appended;
    the derived tables are not touched. *)
Record grows (d d' : DB) : Prop := mkGrows {
  gr_users : exists added, users d' = users d ++ added;
  gr_swapEvents : exists added, swapEvents d' = swapEvents d ++ added;
  gr_rateUpdates : exists added, rateUpdates d' = rateUpdates d ++ added;
  gr_transactions :
    exists kept added,
      transactions d' = kept ++ added
      /\ Forall2 keeps_owner_and_amounts (transactions d) kept;
  gr_tokenMetrics : tokenMetrics d' = tokenMetrics d;
  gr_leaderboard : leaderboard d' = leaderboard d }.

(** The cache entry of the cursor spells the in-process cursor and
    never expires. *)
Definition synced (w : World) : Prop :=
  memoryCache w !! "indexer:lastBlock"
  = Some (mkCacheEntry (pretty (lastProcessedBlock w)) None).

(** The swap events a period's calculation selects at clock reading
    [clock]. *)
Definition window (period : Period) (clock : Z) (tbl : list SwapEvent)
    : list SwapEvent :=
  let '(periodStart, periodEnd, _) := periodBounds period clock in
  findMany_createdAt periodStart periodEnd tbl.

(** The swaps of a wallet, addresses compared in lower case. *)
Definition swaps_of (a : string) (swaps : list SwapEvent) : list SwapEvent :=
  List.filter (fun s => String.eqb (toLowerCase (s_buyer s)) a) swaps.

(** Number of swaps, ETH paid and tokens bought by a wallet. *)
Definition stats_of (a : string) (swaps : list SwapEvent) : Stats :=
  mkStats (Z.of_nat (length (swaps_of a swaps)))
    (sum s_ethAmount (swaps_of a swaps))
    (sum s_tokenAmount (swaps_of a swaps)).

Definition of_period (q : Period) (l : LeaderboardEntry) : bool :=
  period_eqb (l_period l) q.

(** What the analytics worker has no business writing: the tables
    the indexer fills, its cursor and running flag, and the cursor's
    cache entry. *)
Record same_ledger (w w' : World) : Prop := mkSameLedger {
  sl_users : users (db w') = users (db w);
  sl_transactions : transactions (db w') = transactions (db w);
  sl_swapEvents : swapEvents (db w') = swapEvents (db w);
  sl_rateUpdates : rateUpdates (db w') = rateUpdates (db w);
  sl_cursor : lastProcessedBlock w' = lastProcessedBlock w;
  sl_running : isRunning w' = isRunning w;
  sl_cached_cursor :
    memoryCache w' !! "indexer:lastBlock" = memoryCache w !! "indexer:lastBlock" }.

Definition success_line (l : LogLine) : Prop :=
  msg l = "Token metrics calculated successfully"
  \/ msg l = "Leaderboards calculated successfully".

End More.

(** Further concrete data for the instances. *)
Module Scenario.

Import Indexer.

(** A stopped indexer whose cache remembers block 12. *)
Definition stopped_at_12 : World :=
  mkWorld emptyDB
    ({["indexer:lastBlock" := mkCacheEntry "12" None]} : gmap string CacheEntry)
    [] 0 false.

(** A running indexer at block 10 with the cache in step. *)
Definition in_step : World :=
  mkWorld emptyDB
    ({["indexer:lastBlock" := mkCacheEntry "10" None]} : gmap string CacheEntry)
    [] 10 true.

(** A rate update to 1200 in block 12. *)
Definition rate_log : EventLog :=
  mkEventLog (Ok (Some (TokensPerEthUpdated 1200))) 1
    (Ok (Some (mkBlock 12 (Some "0xb10c"))))
    (Ok (Some (mkReceipt "0x0a" "0xC0ffee" (Some 1) (Some 30000) (Some 5)))).

(** A log of an event the ABI does not list. *)
Definition unknown_log : EventLog :=
  mkEventLog (Ok None) 2
    (Ok (Some (mkBlock 12 (Some "0xb10c"))))
    (Ok (Some (mkReceipt "0x0b" "0xC0ffee" (Some 1) (Some 30000) (Some 5)))).

(** A cache that holds 'b' with no expiry. *)
Definition holds_b : gmap string CacheEntry :=
  {["b" := mkCacheEntry "old" None]}.

(** The node is at height 13 and returns a 1 ETH swap of a third
    wallet; the store is up. *)
Definition node_13 : CycleEnv :=
  mkCycleEnv (Ok 13)
    (fun _ _ =>
       Ok [Sample.swap_log "0x04" "0xCCcc000000000000000000000000000000000003" 0 13
             Sample.ETH (1000 * Sample.ETH)])
    (fun _ _ => Ok []) (fun _ => Sample.calm) false.


End Scenario.

(* ===================================================================== *)
(** * Properties *)
(* ===================================================================== *)

(** Calendar sanity: 2024-01-01T12:00:00Z is a Monday. *)
Example calendar_2024_01_01 :
  let t := 1704110400000 in
  (YearFromTime t, MonthFromTime t, DateFromTime t, WeekDay t) = (2024, 0, 1, 1)
  /\ MakeDate 2024 0 1 = 1704067200000
  /\ MakeDate 2024 0 (1 - 1) = 1703980800000.
Proof. vm_compute. auto. Qed.

(* ===================================================================== *)
(** ** Facts about the store operations *)
(* ===================================================================== *)

Section Upsert.

Context {A : Type}.
Variable is_key : A -> bool.
Variable update : A -> A.
Hypothesis update_key : forall r, is_key (update r) = is_key r.

Lemma upsert_fresh create tbl :
  existsb is_key tbl = false ->
  Prisma.upsert is_key create update tbl = tbl ++ [create].
Proof.
  induction tbl as [|r tbl IH]; simpl; [reflexivity|].
  intros H. apply orb_false_iff in H as [Hr Ht].
  rewrite Hr. f_equal. auto.
Qed.

Lemma upsert_present_create create create' tbl :
  existsb is_key tbl = true ->
  Prisma.upsert is_key create update tbl = Prisma.upsert is_key create' update tbl.
Proof.
  induction tbl as [|r tbl IH]; simpl; [discriminate|].
  intros H. destruct (is_key r); [reflexivity|]. f_equal. auto.
Qed.

Lemma upsert_existsb create tbl :
  is_key create = true ->
  existsb is_key (Prisma.upsert is_key create update tbl) = true.
Proof.
  intros Hc. induction tbl as [|r tbl IH]; simpl.
  - rewrite Hc. reflexivity.
  - destruct (is_key r) eqn:Hr; simpl.
    + rewrite update_key, Hr. reflexivity.
    + rewrite Hr. exact IH.
Qed.

(** Applying the same upsert again changes nothing when the update is
    idempotent and fixes the created row. *)
Lemma upsert_upsert create tbl :
  is_key create = true ->
  update create = create ->
  (forall r, update (update r) = update r) ->
  Prisma.upsert is_key create update (Prisma.upsert is_key create update tbl)
  = Prisma.upsert is_key create update tbl.
Proof.
  intros Hc Hfix Hidem. induction tbl as [|r tbl IH]; simpl.
  - rewrite Hc, Hfix. reflexivity.
  - destruct (is_key r) eqn:Hr; simpl.
    + rewrite update_key, Hr, Hidem. reflexivity.
    + rewrite Hr. f_equal. exact IH.
Qed.

Lemma upsert_noop create tbl :
  (forall r, update r = r) ->
  existsb is_key tbl = true ->
  Prisma.upsert is_key create update tbl = tbl.
Proof.
  intros Hid. induction tbl as [|r tbl IH]; simpl; [discriminate|].
  intros H. destruct (is_key r); [by rewrite Hid|]. f_equal. auto.
Qed.

(** The number of rows under the key: an upsert makes it one when no
    row was there and leaves it as it was otherwise. *)
Lemma upsert_count create tbl :
  is_key create = true ->
  length (List.filter is_key (Prisma.upsert is_key create update tbl))
  = if existsb is_key tbl then length (List.filter is_key tbl) else 1%nat.
Proof.
  intros Hc. induction tbl as [|r tbl IH]; simpl.
  - rewrite Hc. reflexivity.
  - destruct (is_key r) eqn:Hr; simpl.
    + rewrite update_key, Hr. reflexivity.
    + rewrite Hr. exact IH.
Qed.

(** Rows keep their position; a row is either untouched or is the
    selected row, updated. *)
Lemma upsert_lookup create tbl i r :
  tbl !! i = Some r ->
  Prisma.upsert is_key create update tbl !! i = Some r
  \/ (is_key r = true /\ Prisma.upsert is_key create update tbl !! i = Some (update r)).
Proof.
  revert i. induction tbl as [|r0 tbl IH]; intros i Hi; [discriminate|].
  simpl. destruct (is_key r0) eqn:Hr0.
  - destruct i as [|i]; simpl in *.
    + inversion Hi; subst. right. auto.
    + left. exact Hi.
  - destruct i as [|i]; simpl in *; [left; exact Hi|]. apply IH, Hi.
Qed.

(** A property of rows that the update and the created row respect
    survives the upsert. *)
Lemma upsert_Forall (P : A -> Prop) create tbl :
  P create -> (forall r, P r -> P (update r)) ->
  Forall P tbl -> Forall P (Prisma.upsert is_key create update tbl).
Proof.
  intros Hc Hu. induction 1 as [|r tbl Hr Ht IH]; simpl.
  - repeat constructor. exact Hc.
  - destruct (is_key r); constructor; auto.
Qed.

(** Rows found under another predicate stay found. *)
Lemma upsert_existsb_other (p : A -> bool) create tbl :
  (forall r, p r = true -> p (update r) = true) ->
  existsb p tbl = true ->
  existsb p (Prisma.upsert is_key create update tbl) = true.
Proof.
  intros Hp. induction tbl as [|r tbl IH]; simpl; [discriminate|].
  intros H. apply orb_true_iff in H. destruct (is_key r) eqn:Hr; simpl.
  - destruct H as [H|H]; [rewrite (Hp _ H)|rewrite H, orb_true_r]; reflexivity.
  - destruct H as [H|H]; [rewrite H|rewrite (IH H), orb_true_r]; reflexivity.
Qed.

(** Looking rows up under a predicate that excludes the upsert's key
    gives what it gave before. *)
Lemma find_upsert_other (p : A -> bool) create tbl :
  (forall r, is_key r = true -> p r = false) ->
  (forall r, p (update r) = p r) ->
  p create = false ->
  List.find p (Prisma.upsert is_key create update tbl) = List.find p tbl.
Proof.
  intros Hex Hup Hc. induction tbl as [|r tbl IH]; simpl.
  - rewrite Hc. reflexivity.
  - destruct (is_key r) eqn:Hr; simpl.
    + rewrite Hup, (Hex _ Hr). reflexivity.
    + destruct (p r); [reflexivity|exact IH].
Qed.

(** Looking the upsert's key up afterwards gives the created row or an
    updated one. *)
Lemma find_upsert_same create tbl :
  is_key create = true ->
  List.find is_key (Prisma.upsert is_key create update tbl) = Some create
  \/ exists r, List.find is_key (Prisma.upsert is_key create update tbl)
               = Some (update r).
Proof.
  intros Hc. induction tbl as [|r tbl IH]; simpl.
  - rewrite Hc. left. reflexivity.
  - destruct (is_key r) eqn:Hr; simpl.
    + rewrite update_key, Hr. right. eauto.
    + rewrite Hr. exact IH.
Qed.

(** An upsert whose selected row the update leaves as it is changes
    nothing. *)
Lemma upsert_fixed create tbl t :
  List.find is_key tbl = Some t -> update t = t ->
  Prisma.upsert is_key create update tbl = tbl.
Proof.
  induction tbl as [|r tbl IH]; simpl; [discriminate|].
  destruct (is_key r).
  - intros [= ->] ->. reflexivity.
  - intros Hf Hu. f_equal. auto.
Qed.

End Upsert.

Lemma existsb_filter_length {A} (p : A -> bool) (l : list A) :
  existsb p l = true <-> (1 <= length (List.filter p l))%nat.
Proof.
  induction l as [|x l IH]; simpl; [split; [discriminate|lia]|].
  destruct (p x); simpl; [split; [lia|reflexivity]|exact IH].
Qed.

(* ===================================================================== *)
(** ** The per-log handlers *)
(* ===================================================================== *)

Import Indexer Prisma Spec.

Ltac unfold_M :=
  unfold deref, updateMetrics, prisma, logger_info, logger_error, logger_warn,
    cache_del, cache_set, try_catch, bind, await, ret, throw, gets, modify.

Ltac handler_cases :=
  unfold_M; repeat (case_match; simplify_eq/=).

Lemma BigInt_div_Ok a b q : BigInt_div a b = Ok q -> b <> 0 /\ q = Z.quot a b.
Proof.
  unfold BigInt_div. destruct (Z.eqb_spec b 0); [discriminate|].
  intros [= <-]. auto.
Qed.

Lemma findUnique_app_miss {A} (p : A -> bool) (l l' : list A) :
  findUnique p l = None -> findUnique p (l ++ l') = findUnique p l'.
Proof.
  unfold findUnique. induction l as [|x l IH]; simpl; [reflexivity|].
  destruct (p x); [discriminate|exact IH].
Qed.

Lemma user_create_after_miss addr tbl :
  findUnique (user_key addr) tbl = None ->
  user_create addr tbl = Ok (mkUser (fresh_id tbl) addr, tbl ++ [mkUser (fresh_id tbl) addr]).
Proof. unfold user_create. intros ->. reflexivity. Qed.

(** Everything a swap handler can do, whatever the log and the
    conditions: it returns normally; it leaves the cursor, the running
    flag, the cursor's cache entry and the other tables alone; its only
    write to [Transaction] and its only write to [SwapEvent] are the two
    upserts of the source; users are only added; it logs at most one
    line. *)
Lemma processSwapEvent_effect amb e w :
  let w' := snd (processSwapEvent amb e w) in
  fst (processSwapEvent amb e w) = Ok tt
  /\ (lastProcessedBlock w' = lastProcessedBlock w
      /\ isRunning w' = isRunning w
      /\ rateUpdates (db w') = rateUpdates (db w)
      /\ tokenMetrics (db w') = tokenMetrics (db w)
      /\ leaderboard (db w') = leaderboard (db w)
      /\ memoryCache w' !! "indexer:lastBlock" = memoryCache w !! "indexer:lastBlock")
  /\ (transactions (db w') = transactions (db w)
      \/ exists tx block user buyer ethAmount tokenAmount,
           getTransactionReceipt e = Ok (Some tx)
           /\ getBlock e = Ok (Some block)
           /\ transactions (db w')
              = upsert (transaction_key (rc_hash tx))
                  (transaction_create_data tx block user buyer ethAmount tokenAmount)
                  (transaction_update (transaction_update_data tx block))
                  (transactions (db w)))
  /\ (swapEvents (db w') = swapEvents (db w)
      \/ exists buyer ethAmount tokenAmount tx block,
           parseLog e = Ok (Some (TokensPurchased buyer ethAmount tokenAmount))
           /\ getTransactionReceipt e = Ok (Some tx)
           /\ getBlock e = Ok (Some block)
           /\ ethAmount <> 0
           /\ swapEvents (db w')
              = upsert (swapEvent_key (rc_hash tx) (index e))
                  (swapEvent_create_data amb e tx block buyer ethAmount tokenAmount
                     (Z.quot tokenAmount ethAmount))
                  (fun row => row)
                  (swapEvents (db w)))
  /\ (exists added, users (db w') = users (db w) ++ added)
  /\ (exists lines, logged w' = logged w ++ lines).
Proof.
  unfold processSwapEvent, processSwapEvent_try. handler_cases.
  all: split; [reflexivity|].
  all: split;
    [ repeat split; try reflexivity;
      unfold Cache.del; rewrite !lookup_delete_ne by discriminate; reflexivity |].
  all: split;
    [ first [ left; reflexivity
            | right; eexists _, _, _, _, _, _; repeat split; try eassumption;
              reflexivity ] |].
  all: split;
    [ first [ left; reflexivity
            | right;
              match goal with H : BigInt_div _ _ = Ok _ |- _ =>
                apply BigInt_div_Ok in H as [? ->] end;
              eexists _, _, _, _, _; repeat split; try eassumption; reflexivity ] |].
  all: split;
    [ first [ exists []; rewrite app_nil_r; reflexivity
            | unfold user_create in *; case_match; simplify_eq/=;
              eexists [_]; reflexivity ] |].
  all: first [ exists []; rewrite app_nil_r; reflexivity | eexists [_]; reflexivity ].
Qed.

Lemma processSwapEvent_returns amb e w :
  fst (processSwapEvent amb e w) = Ok tt.
Proof. apply processSwapEvent_effect. Qed.

Lemma processSwapEvent_swapEvents amb e w :
  let w' := snd (processSwapEvent amb e w) in
  swapEvents (db w') = swapEvents (db w)
  \/ exists buyer ethAmount tokenAmount tx block,
       parseLog e = Ok (Some (TokensPurchased buyer ethAmount tokenAmount))
       /\ getTransactionReceipt e = Ok (Some tx)
       /\ getBlock e = Ok (Some block)
       /\ ethAmount <> 0
       /\ swapEvents (db w')
          = upsert (swapEvent_key (rc_hash tx) (index e))
              (swapEvent_create_data amb e tx block buyer ethAmount tokenAmount
                 (Z.quot tokenAmount ethAmount))
              (fun row => row)
              (swapEvents (db w)).
Proof. apply processSwapEvent_effect. Qed.

Lemma processSwapEvent_transactions amb e w :
  let w' := snd (processSwapEvent amb e w) in
  transactions (db w') = transactions (db w)
  \/ exists tx block user buyer ethAmount tokenAmount,
       getTransactionReceipt e = Ok (Some tx)
       /\ getBlock e = Ok (Some block)
       /\ transactions (db w')
          = upsert (transaction_key (rc_hash tx))
              (transaction_create_data tx block user buyer ethAmount tokenAmount)
              (transaction_update (transaction_update_data tx block))
              (transactions (db w)).
Proof. apply processSwapEvent_effect. Qed.

(** The same for a rate handler, which writes [RateUpdate] only. *)
Lemma processRateUpdateEvent_effect amb e w :
  let w' := snd (processRateUpdateEvent amb e w) in
  fst (processRateUpdateEvent amb e w) = Ok tt
  /\ (lastProcessedBlock w' = lastProcessedBlock w
      /\ isRunning w' = isRunning w
      /\ users (db w') = users (db w)
      /\ transactions (db w') = transactions (db w)
      /\ swapEvents (db w') = swapEvents (db w)
      /\ tokenMetrics (db w') = tokenMetrics (db w)
      /\ leaderboard (db w') = leaderboard (db w)
      /\ memoryCache w' !! "indexer:lastBlock" = memoryCache w !! "indexer:lastBlock")
  /\ (exists added, rateUpdates (db w') = rateUpdates (db w) ++ added)
  /\ (exists lines, logged w' = logged w ++ lines).
Proof.
  unfold processRateUpdateEvent, processRateUpdateEvent_try. handler_cases.
  all: split; [reflexivity|].
  all: split;
    [ repeat split; try reflexivity;
      unfold Cache.del; rewrite !lookup_delete_ne by discriminate; reflexivity |].
  all: split;
    [ first [ exists []; rewrite app_nil_r; reflexivity | eexists [_]; reflexivity ] |].
  all: first [ exists []; rewrite app_nil_r; reflexivity | eexists [_]; reflexivity ].
Qed.

Lemma processRateUpdateEvent_returns amb e w :
  fst (processRateUpdateEvent amb e w) = Ok tt.
Proof. apply processRateUpdateEvent_effect. Qed.

(** An error raised in the [try] block is caught and logged. *)
Lemma processSwapEvent_caught amb e w error :
  fst (processSwapEvent_try amb e w) = Throw error ->
  processSwapEvent amb e w
  = (Ok tt,
     set_logged (fun l => l ++ [mkLogLine LError "Error processing swap event:" (Some error)])
       (snd (processSwapEvent_try amb e w))).
Proof.
  unfold processSwapEvent, try_catch.
  destruct (processSwapEvent_try amb e w) as [[a|err] w']; simpl; [discriminate|].
  intros [= ->]. reflexivity.
Qed.

Lemma processRateUpdateEvent_caught amb e w error :
  fst (processRateUpdateEvent_try amb e w) = Throw error ->
  processRateUpdateEvent amb e w
  = (Ok tt,
     set_logged (fun l => l ++ [mkLogLine LError "Error processing rate update event:"
                                  (Some error)])
       (snd (processRateUpdateEvent_try amb e w))).
Proof.
  unfold processRateUpdateEvent, try_catch.
  destruct (processRateUpdateEvent_try amb e w) as [[a|err] w']; simpl; [discriminate|].
  intros [= ->]. reflexivity.
Qed.

(** A readable log with a non-zero ETH amount, handled while the store
    answers: the user is found or created, both upserts run, and the
    success line is logged. *)
Lemma processSwapEvent_committed amb e w buyer ethAmount tokenAmount block tx :
  readable e buyer ethAmount tokenAmount block tx ->
  store_up amb ->
  ethAmount <> 0 ->
  let w' := snd (processSwapEvent amb e w) in
  (exists user,
      findUnique (user_key (toLowerCase buyer)) (users (db w')) = Some user
      /\ transactions (db w')
         = upsert (transaction_key (rc_hash tx))
             (transaction_create_data tx block user buyer ethAmount tokenAmount)
             (transaction_update (transaction_update_data tx block))
             (transactions (db w)))
  /\ swapEvents (db w')
     = upsert (swapEvent_key (rc_hash tx) (index e))
         (swapEvent_create_data amb e tx block buyer ethAmount tokenAmount
            (Z.quot tokenAmount ethAmount))
         (fun row => row)
         (swapEvents (db w))
  /\ logged w' = logged w
       ++ [mkLogLine LInfo ("Processed swap event: " +:+ rc_hash tx) None].
Proof.
  intros [Hp Hb Hr] Hup Hne. unfold store_up in Hup.
  unfold processSwapEvent, processSwapEvent_try. unfold_M.
  rewrite Hp, Hb, Hr, ?Hup. simpl.
  assert (BigInt_div tokenAmount ethAmount = Ok (Z.quot tokenAmount ethAmount)) as Hdiv.
  { unfold BigInt_div. destruct (Z.eqb_spec ethAmount 0); [contradiction|reflexivity]. }
  destruct (findUnique (user_key (toLowerCase buyer)) (users (db w))) as [u|] eqn:Hfind.
  - repeat (first [rewrite Hup | rewrite Hdiv | progress simpl]).
    repeat split. exists u. split; [exact Hfind|reflexivity].
  - rewrite ?Hup. cbn [db set_db]. rewrite (user_create_after_miss _ _ Hfind).
    repeat (first [rewrite Hup | rewrite Hdiv | progress simpl]).
    repeat split. eexists. split; [|reflexivity].
    rewrite (findUnique_app_miss _ _ _ Hfind). unfold findUnique, user_key. simpl.
    rewrite String.eqb_refl. reflexivity.
Qed.

(** A log whose decoding throws is skipped: one error line, nothing
    else touched. *)
Lemma processSwapEvent_undecodable amb e w error :
  parseLog e = Throw error ->
  processSwapEvent amb e w
  = (Ok tt, set_logged (fun l => l ++ [mkLogLine LError "Error processing swap event:"
                                         (Some error)]) w).
Proof. intros H. unfold processSwapEvent, processSwapEvent_try. unfold_M. rewrite H. reflexivity. Qed.

(** Zero ETH amount: the division throws after the transaction upsert
    and before the swap-event upsert. *)
Lemma processSwapEvent_zero_division amb e w buyer tokenAmount block tx :
  readable e buyer 0 tokenAmount block tx ->
  store_up amb ->
  let w' := snd (processSwapEvent amb e w) in
  (exists user,
      findUnique (user_key (toLowerCase buyer)) (users (db w')) = Some user
      /\ transactions (db w')
         = upsert (transaction_key (rc_hash tx))
             (transaction_create_data tx block user buyer 0 tokenAmount)
             (transaction_update (transaction_update_data tx block))
             (transactions (db w)))
  /\ swapEvents (db w') = swapEvents (db w)
  /\ logged w' = logged w
       ++ [mkLogLine LError "Error processing swap event:" (Some RangeError)].
Proof.
  intros [Hp Hb Hr] Hup. unfold store_up in Hup.
  unfold processSwapEvent, processSwapEvent_try. unfold_M.
  rewrite Hp, Hb, Hr, ?Hup. simpl.
  destruct (findUnique (user_key (toLowerCase buyer)) (users (db w))) as [u|] eqn:Hfind.
  - repeat (first [rewrite Hup | progress simpl]).
    repeat split. exists u. split; [exact Hfind|reflexivity].
  - rewrite ?Hup. cbn [db set_db]. rewrite (user_create_after_miss _ _ Hfind).
    repeat (first [rewrite Hup | progress simpl]).
    repeat split. eexists. split; [|reflexivity].
    rewrite (findUnique_app_miss _ _ _ Hfind). unfold findUnique, user_key. simpl.
    rewrite String.eqb_refl. reflexivity.
Qed.

(** A readable log whose [try] block runs to its end: the ETH amount
    was not zero and both upserts ran. *)
Lemma processSwapEvent_completed amb e w buyer ethAmount tokenAmount block tx :
  readable e buyer ethAmount tokenAmount block tx ->
  fst (processSwapEvent_try amb e w) = Ok tt ->
  let w' := snd (processSwapEvent amb e w) in
  ethAmount <> 0
  /\ (exists user,
        findUnique (user_key (toLowerCase buyer)) (users (db w')) = Some user
        /\ transactions (db w')
           = upsert (transaction_key (rc_hash tx))
               (transaction_create_data tx block user buyer ethAmount tokenAmount)
               (transaction_update (transaction_update_data tx block))
               (transactions (db w)))
  /\ swapEvents (db w')
     = upsert (swapEvent_key (rc_hash tx) (index e))
         (swapEvent_create_data amb e tx block buyer ethAmount tokenAmount
            (Z.quot tokenAmount ethAmount))
         (fun row => row)
         (swapEvents (db w)).
Proof.
  intros [Hp Hb Hr].
  unfold processSwapEvent, processSwapEvent_try. unfold_M.
  rewrite Hp, Hb, Hr. simpl.
  unfold BigInt_div, user_create.
  repeat (case_match; simplify_eq/=); try discriminate; intros _.
  all: split; [lia|].
  all: split; [|reflexivity].
  all: eexists; split; [|reflexivity].
  all: try eassumption.
  all: rewrite findUnique_app_miss by assumption; unfold findUnique, user_key; simpl;
    rewrite String.eqb_refl; reflexivity.
Qed.

(** The same path with the [User] table spelled out: the buyer's user
    is the one found, or the one appended when none was found. *)
Lemma processSwapEvent_zero_division_users amb e w buyer tokenAmount block tx :
  readable e buyer 0 tokenAmount block tx ->
  store_up amb ->
  let w' := snd (processSwapEvent amb e w) in
  exists user,
    findUnique (user_key (toLowerCase buyer)) (users (db w')) = Some user
    /\ users (db w')
       = match findUnique (user_key (toLowerCase buyer)) (users (db w)) with
         | Some _ => users (db w)
         | None => users (db w) ++ [user]
         end
    /\ u_walletAddress user = toLowerCase buyer
    /\ transactions (db w')
       = upsert (transaction_key (rc_hash tx))
           (transaction_create_data tx block user buyer 0 tokenAmount)
           (transaction_update (transaction_update_data tx block))
           (transactions (db w)).
Proof.
  intros [Hp Hb Hr] Hup. unfold store_up in Hup.
  unfold processSwapEvent, processSwapEvent_try. unfold_M.
  rewrite Hp, Hb, Hr, ?Hup. simpl.
  destruct (findUnique (user_key (toLowerCase buyer)) (users (db w))) as [u|] eqn:Hfind.
  - repeat (first [rewrite Hup | progress simpl]).
    exists u. split; [exact Hfind|]. split; [reflexivity|]. split; [|reflexivity].
    unfold findUnique in Hfind. apply find_some in Hfind as [_ Hk].
    apply String.eqb_eq in Hk. exact Hk.
  - rewrite ?Hup. cbn [db set_db]. rewrite (user_create_after_miss _ _ Hfind).
    repeat (first [rewrite Hup | progress simpl]).
    eexists. split; [|split; [reflexivity|split; reflexivity]].
    rewrite (findUnique_app_miss _ _ _ Hfind). unfold findUnique, user_key. simpl.
    rewrite String.eqb_refl. reflexivity.
Qed.

(** Whatever else happens, a zero ETH amount never reaches the
    swap-event upsert. *)
Lemma processSwapEvent_zero_no_swapEvent amb e w buyer tokenAmount :
  parseLog e = Ok (Some (TokensPurchased buyer 0 tokenAmount)) ->
  swapEvents (db (snd (processSwapEvent amb e w))) = swapEvents (db w).
Proof.
  intros Hp.
  destruct (processSwapEvent_swapEvents amb e w) as [H|H]; [exact H|].
  destruct H as (b & eth & tok & tx & blk & Hp' & _ & _ & Hne & _).
  rewrite Hp in Hp'. inversion Hp'; subst. contradiction.
Qed.

(* ===================================================================== *)
(** ** Properties of [processSwapEvent] *)
(* ===================================================================== *)

Lemma swapEvent_key_create amb e tx block buyer ethAmount tokenAmount rate :
  swapEvent_key (rc_hash tx) (index e)
    (swapEvent_create_data amb e tx block buyer ethAmount tokenAmount rate) = true.
Proof.
  unfold swapEvent_key, swapEvent_create_data. simpl.
  rewrite String.eqb_refl, Z.eqb_refl. reflexivity.
Qed.

Lemma transaction_key_create tx block user buyer ethAmount tokenAmount :
  transaction_key (rc_hash tx)
    (transaction_create_data tx block user buyer ethAmount tokenAmount) = true.
Proof. unfold transaction_key. simpl. apply String.eqb_refl. Qed.

Lemma transaction_update_key h u t :
  transaction_key h (transaction_update u t) = transaction_key h t.
Proof. reflexivity. Qed.

Lemma or_keep_idem {A} (n o : option A) : or_keep n (or_keep n o) = or_keep n o.
Proof. destruct n; reflexivity. Qed.

Lemma or_keep_self {A} (n : option A) : or_keep n n = n.
Proof. destruct n; reflexivity. Qed.

Lemma transaction_update_idem u t :
  transaction_update u (transaction_update u t) = transaction_update u t.
Proof. unfold transaction_update. simpl. rewrite !or_keep_idem. reflexivity. Qed.

Lemma transaction_update_create tx block user buyer ethAmount tokenAmount :
  transaction_update (transaction_update_data tx block)
    (transaction_create_data tx block user buyer ethAmount tokenAmount)
  = transaction_create_data tx block user buyer ethAmount tokenAmount.
Proof.
  unfold transaction_update, transaction_create_data, transaction_update_data. simpl.
  rewrite !or_keep_self. reflexivity.
Qed.

Lemma transaction_update_keeps u t : keeps_owner_and_amounts t (transaction_update u t).
Proof. constructor; reflexivity. Qed.

Lemma keeps_refl t : keeps_owner_and_amounts t t.
Proof. constructor; reflexivity. Qed.

(** C8. Whatever log a swap handler processes, every row already in
    [Transaction] stays where it is and keeps its txHash, its owning
    userId, its from/to/token addresses, its amounts, its type and its
    confirmations: the update path of the upsert writes only status,
    block number, block hash, gas used and gas price.  When the
    receipt's hash already has a row, no row is added either. *)
Theorem transaction_update_path_keeps_owner amb e w i t :
  transactions (db w) !! i = Some t ->
  let w' := snd (processSwapEvent amb e w) in
  (exists t', transactions (db w') !! i = Some t' /\ keeps_owner_and_amounts t t')
  /\ (forall tx, getTransactionReceipt e = Ok (Some tx) ->
        has_transaction (rc_hash tx) (transactions (db w)) ->
        length (transactions (db w')) = length (transactions (db w))).
Proof.
  intros Hi w'. subst w'.
  destruct (processSwapEvent_transactions amb e w) as [Heq|H].
  - rewrite Heq. split; [|reflexivity].
    exists t. split; [exact Hi|apply keeps_refl].
  - destruct H as (tx & block & user & buyer & eth & tok & Hr & Hb & Heq).
    rewrite Heq. split.
    + destruct (upsert_lookup (transaction_key (rc_hash tx))
                  (transaction_update (transaction_update_data tx block))
                  (transaction_create_data tx block user buyer eth tok) _ _ _ Hi)
        as [H|[_ H]].
      * exists t. split; [exact H|apply keeps_refl].
      * eexists. split; [exact H|apply transaction_update_keeps].
    + intros tx' Hr' Hhas. rewrite Hr in Hr'. inversion Hr'; subst tx'.
      clear -Hhas. unfold has_transaction in Hhas.
      induction (transactions (db w)) as [|r tbl IH]; simpl in *; [discriminate|].
      destruct (transaction_key (rc_hash tx) r); simpl in *; [reflexivity|].
      f_equal. apply IH, Hhas.
Qed.

(** C6. A [SwapEvent] row that a swap handler creates for a log whose
    decoded uint256 amounts are [ethAmount] and [tokenAmount] stores
    exactly these amounts, [ethAmount] is not zero, and the stored rate
    is the integer quotient tokenAmount / ethAmount. *)
Theorem created_swapEvent_rate amb e w buyer ethAmount tokenAmount row :
  parseLog e = Ok (Some (TokensPurchased buyer ethAmount tokenAmount)) ->
  uint256 ethAmount -> uint256 tokenAmount ->
  let w' := snd (processSwapEvent amb e w) in
  In row (swapEvents (db w')) -> ~ In row (swapEvents (db w)) ->
  s_ethAmount row = ethAmount
  /\ s_tokenAmount row = tokenAmount
  /\ ethAmount <> 0
  /\ s_tokensPerEth row = tokenAmount / ethAmount
  /\ s_tokensPerEth row * ethAmount <= tokenAmount < (s_tokensPerEth row + 1) * ethAmount.
Proof.
  intros Hp [He _] [Ht _] w' Hin Hnew. subst w'.
  destruct (processSwapEvent_swapEvents amb e w) as [Heq|H].
  - rewrite Heq in Hin. contradiction.
  - destruct H as (b & eth & tok & tx & blk & Hp' & _ & _ & Hne & Heq).
    rewrite Hp in Hp'. inversion Hp'; subst b eth tok. clear Hp'.
    rewrite Heq in Hin.
    destruct (existsb (swapEvent_key (rc_hash tx) (index e)) (swapEvents (db w))) eqn:Hex.
    + rewrite upsert_noop in Hin by auto. contradiction.
    + rewrite upsert_fresh in Hin by exact Hex.
      apply in_app_or in Hin as [Hin|[<-|[]]]; [contradiction|]. simpl.
      assert (0 < ethAmount) as Hpos by lia.
      rewrite Z.quot_div_nonneg by lia.
      repeat split; try assumption.
      * rewrite Z.mul_comm. apply Z.mul_div_le. exact Hpos.
      * pose proof (Z.mod_pos_bound tokenAmount ethAmount Hpos).
        pose proof (Z.div_mod tokenAmount ethAmount). nia.
Qed.

Lemma processSwapEvent_rate_invariant amb e w :
  Forall rate_is_quotient (swapEvents (db w)) ->
  Forall rate_is_quotient (swapEvents (db (snd (processSwapEvent amb e w)))).
Proof.
  intros Hall.
  destruct (processSwapEvent_swapEvents amb e w) as [Heq|H]; [rewrite Heq; exact Hall|].
  destruct H as (b & eth & tok & tx & blk & _ & _ & _ & Hne & Heq).
  rewrite Heq. apply upsert_Forall; auto. split; simpl; auto.
Qed.

Lemma swapEvent_key_eq h i h' i' row :
  swapEvent_key h i row = true -> swapEvent_key h' i' row = true -> h = h' /\ i = i'.
Proof.
  unfold swapEvent_key. intros H H'.
  apply andb_true_iff in H as [H1 H2]. apply andb_true_iff in H' as [H1' H2'].
  apply String.eqb_eq in H1, H1'. apply Z.eqb_eq in H2, H2'. split; congruence.
Qed.

(** An upsert of the swap handler, under whatever key, leaves the
    number of rows under a key that is already there. *)
Lemma count_swapEvent_upsert h i h' i' create tbl :
  swapEvent_key h' i' create = true ->
  count_swapEvent h i tbl = 1%nat ->
  count_swapEvent h i (upsert (swapEvent_key h' i') create (fun row => row) tbl) = 1%nat.
Proof.
  intros Hc Hcount.
  destruct (existsb (swapEvent_key h' i') tbl) eqn:Hex.
  - rewrite upsert_noop by auto. exact Hcount.
  - rewrite upsert_fresh by exact Hex.
    unfold count_swapEvent in *. rewrite List.filter_app, length_app, Hcount. simpl.
    destruct (swapEvent_key h i create) eqn:Hk; [|reflexivity].
    destruct (swapEvent_key_eq _ _ _ _ _ Hk Hc) as [-> ->].
    assert (existsb (swapEvent_key h' i') tbl = true) as Hex'
      by (apply existsb_filter_length; lia).
    congruence.
Qed.

Lemma reflected_after_commit amb e w buyer ethAmount tokenAmount block tx :
  readable e buyer ethAmount tokenAmount block tx ->
  store_up amb ->
  ethAmount <> 0 ->
  (count_swapEvent (rc_hash tx) (index e) (swapEvents (db w)) <= 1)%nat ->
  reflected tx block (index e) (snd (processSwapEvent amb e w)).
Proof.
  intros Hrd Hup Hne Huniq.
  destruct (processSwapEvent_committed amb e w _ _ _ _ _ Hrd Hup Hne)
    as ((user & _ & Htx) & Hsw & _).
  split.
  - rewrite Hsw. unfold count_swapEvent in *.
    rewrite upsert_count by (reflexivity || apply swapEvent_key_create).
    destruct (existsb _ _) eqn:Hex; [|reflexivity].
    apply existsb_filter_length in Hex. lia.
  - rewrite Htx. unfold findUnique.
    destruct (find_upsert_same (transaction_key (rc_hash tx))
                (transaction_update (transaction_update_data tx block))
                (transaction_update_key _ _)
                (transaction_create_data tx block user buyer ethAmount tokenAmount)
                (transactions (db w)) (transaction_key_create _ _ _ _ _ _))
      as [H|[r H]]; rewrite H; eexists; (split; [reflexivity|]).
    + apply transaction_update_create.
    + apply transaction_update_idem.
Qed.

Lemma transaction_key_other h h' t :
  h' <> h -> transaction_key h' t = true -> transaction_key h t = false.
Proof.
  unfold transaction_key. intros Hne H. apply String.eqb_eq in H.
  apply String.eqb_neq. congruence.
Qed.

(** Handling any other log that agrees with the node's view of the
    transaction keeps the log reflected. *)
Lemma reflected_kept tx block logIndex j w :
  same_chain_view tx block j ->
  reflected tx block logIndex w ->
  reflected tx block logIndex (snd (handle j w)).
Proof.
  intros Hview [Hcount (t & Hfind & Hfix)].
  destruct j as [amb e|amb e]; simpl in *.
  - split.
    + destruct (processSwapEvent_swapEvents amb e w) as [Heq|H]; [rewrite Heq; exact Hcount|].
      destruct H as (b' & eth' & tok' & tx' & blk' & _ & _ & _ & _ & Heq).
      rewrite Heq. apply count_swapEvent_upsert; [apply swapEvent_key_create|exact Hcount].
    + destruct (processSwapEvent_transactions amb e w) as [Heq|H];
        [rewrite Heq; eauto|].
      destruct H as (tx' & blk' & user & buyer & eth & tok & Hr & Hb & Heq).
      rewrite Heq. exists t. split; [|exact Hfix].
      destruct (String.eqb_spec (rc_hash tx') (rc_hash tx)) as [Hh|Hh].
      * destruct (Hview _ _ Hr Hb Hh) as [-> ->].
        rewrite (upsert_fixed _ _ _ _ _ Hfind Hfix).
        exact Hfind.
      * unfold findUnique in *. rewrite find_upsert_other; [exact Hfind|..].
        -- intros r. apply transaction_key_other. exact Hh.
        -- reflexivity.
        -- apply (transaction_key_other _ _ _ Hh), transaction_key_create.
  - destruct (processRateUpdateEvent_effect amb e w)
      as (_ & (_ & _ & _ & Ht & Hs & _) & _).
    split; [rewrite Hs; exact Hcount|]. rewrite Ht. eauto.
Qed.

(** Processing a log in a state where it is reflected changes neither
    table, under any conditions. *)
Lemma reflected_noop amb e w buyer ethAmount tokenAmount block tx :
  readable e buyer ethAmount tokenAmount block tx ->
  reflected tx block (index e) w ->
  transactions (db (snd (processSwapEvent amb e w))) = transactions (db w)
  /\ swapEvents (db (snd (processSwapEvent amb e w))) = swapEvents (db w).
Proof.
  intros [Hp Hb Hr] [Hcount (t & Hfind & Hfix)]. split.
  - destruct (processSwapEvent_transactions amb e w) as [Heq|H]; [exact Heq|].
    destruct H as (tx' & blk' & user & b & eth & tok & Hr' & Hb' & Heq).
    rewrite Hr in Hr'. rewrite Hb in Hb'. inversion Hr'; inversion Hb'; subst tx' blk'.
    rewrite Heq.
    apply (upsert_fixed _ _ _ _ _ Hfind Hfix).
  - destruct (processSwapEvent_swapEvents amb e w) as [Heq|H]; [exact Heq|].
    destruct H as (b' & eth' & tok' & tx' & blk' & _ & Hr' & _ & _ & Heq).
    rewrite Hr in Hr'. inversion Hr'; subst tx'. rewrite Heq.
    apply upsert_noop; [reflexivity|].
    apply existsb_filter_length. unfold count_swapEvent in Hcount. lia.
Qed.

Lemma reflected_after_completed amb e w buyer ethAmount tokenAmount block tx :
  readable e buyer ethAmount tokenAmount block tx ->
  fst (processSwapEvent_try amb e w) = Ok tt ->
  (count_swapEvent (rc_hash tx) (index e) (swapEvents (db w)) <= 1)%nat ->
  reflected tx block (index e) (snd (processSwapEvent amb e w)).
Proof.
  intros Hrd Hok Huniq.
  destruct (processSwapEvent_completed amb e w _ _ _ _ _ Hrd Hok)
    as (_ & (user & _ & Htx) & Hsw).
  split.
  - rewrite Hsw. unfold count_swapEvent in *.
    rewrite upsert_count by (reflexivity || apply swapEvent_key_create).
    destruct (existsb _ _) eqn:Hex; [|reflexivity].
    apply existsb_filter_length in Hex. lia.
  - rewrite Htx. unfold findUnique.
    destruct (find_upsert_same (transaction_key (rc_hash tx))
                (transaction_update (transaction_update_data tx block))
                (transaction_update_key _ _)
                (transaction_create_data tx block user buyer ethAmount tokenAmount)
                (transactions (db w)) (transaction_key_create _ _ _ _ _ _))
      as [H|[r H]]; rewrite H; eexists; (split; [reflexivity|]).
    + apply transaction_update_create.
    + apply transaction_update_idem.
Qed.

(** C3. A readable log is processed and its handler runs to the end
    without an error; any number of other logs are then handled, in the
    same or in later cycles and under any conditions, as long as the
    node reports one receipt and one block per transaction hash; then
    the same log is processed a second time, under any conditions.
    After the second processing exactly one [SwapEvent] row exists under
    (txHash, logIndex), and [Transaction] and [SwapEvent] are what they
    were before it.  The store's unique constraint on (txHash, logIndex)
    is assumed of the initial table. *)
Theorem reprocessing_is_idempotent amb1 amb2 e w between
    buyer ethAmount tokenAmount block tx :
  readable e buyer ethAmount tokenAmount block tx ->
  fst (processSwapEvent_try amb1 e w) = Ok tt ->
  (count_swapEvent (rc_hash tx) (index e) (swapEvents (db w)) <= 1)%nat ->
  Forall (same_chain_view tx block) between ->
  let w1 := snd (processSwapEvent amb1 e w) in
  let w2 := after_jobs between w1 in
  let w3 := snd (processSwapEvent amb2 e w2) in
  count_swapEvent (rc_hash tx) (index e) (swapEvents (db w3)) = 1%nat
  /\ transactions (db w3) = transactions (db w2)
  /\ swapEvents (db w3) = swapEvents (db w2).
Proof.
  intros Hrd Hok Huniq Hview w1 w2 w3.
  assert (reflected tx block (index e) w2) as Hrefl.
  { subst w2 w1. unfold after_jobs.
    pose proof (reflected_after_completed amb1 e w _ _ _ _ _ Hrd Hok Huniq) as H0.
    revert H0. generalize (snd (processSwapEvent amb1 e w)).
    induction Hview as [|j l Hj Hl IH]; intros w0 H0; simpl; [exact H0|].
    apply IH, reflected_kept; assumption. }
  destruct (reflected_noop amb2 e w2 _ _ _ _ _ Hrd Hrefl) as [Htx Hsw].
  fold w3 in Htx, Hsw.
  split; [|split; assumption].
  rewrite Hsw. apply Hrefl.
Qed.

(** C3 as worded does not hold: the log with a zero ETH amount is
    readable and the store answers, yet its handler throws at the rate
    division before the [SwapEvent] upsert on every run, so after two
    processings no row exists under its key. *)
Lemma zero_eth_log_gets_no_row : ~ reprocessing_always_idempotent.
Proof.
  intros Hclaim.
  destruct (Hclaim Sample.calm Sample.calm Sample.swap_zero Sample.world0
              _ _ _ _ _ (mkReadable Sample.swap_zero Sample.W1 0 (7 * Sample.ETH)
                           (mkBlock 12 (Some "0xb10c"))
                           (mkReceipt "0x03" Sample.W1 (Some 1) (Some 21000) (Some 5))
                           eq_refl eq_refl eq_refl))
    as (Hcount & _).
  - intros op. reflexivity.
  - intros op. reflexivity.
  - vm_compute. repeat constructor.
  - vm_compute in Hcount. discriminate.
Qed.

(** C10. A [TokensPurchased] log whose decoded ETH amount is zero never
    gets a [SwapEvent] row, whatever the conditions; when its block and
    receipt are returned and the store answers, the buyer's user is
    found, or created and appended when absent, the [Transaction]
    upsert is carried out in full (the row is created, or the row
    under the hash gets the status, block and gas fields of the update
    object), the division's [RangeError] is caught and logged, and the
    handler returns. *)
Theorem zero_ethAmount_leaves_partial_write amb e w buyer tokenAmount :
  parseLog e = Ok (Some (TokensPurchased buyer 0 tokenAmount)) ->
  let w' := snd (processSwapEvent amb e w) in
  swapEvents (db w') = swapEvents (db w)
  /\ forall block tx,
       getBlock e = Ok (Some block) ->
       getTransactionReceipt e = Ok (Some tx) ->
       store_up amb ->
       (exists user,
           findUnique (user_key (toLowerCase buyer)) (users (db w')) = Some user
           /\ users (db w')
              = match findUnique (user_key (toLowerCase buyer)) (users (db w)) with
                | Some _ => users (db w)
                | None => users (db w) ++ [user]
                end
           /\ u_walletAddress user = toLowerCase buyer
           /\ transactions (db w')
              = upsert (transaction_key (rc_hash tx))
                  (transaction_create_data tx block user buyer 0 tokenAmount)
                  (transaction_update (transaction_update_data tx block))
                  (transactions (db w)))
       /\ has_transaction (rc_hash tx) (transactions (db w'))
       /\ logged w' = logged w
            ++ [mkLogLine LError "Error processing swap event:" (Some RangeError)]
       /\ fst (processSwapEvent amb e w) = Ok tt.
Proof.
  intros Hp w'. split.
  - apply (processSwapEvent_zero_no_swapEvent amb e w buyer tokenAmount Hp).
  - intros block tx Hb Hr Hup.
    pose proof (mkReadable _ _ _ _ _ _ Hp Hb Hr) as Hrd.
    destruct (processSwapEvent_zero_division amb e w buyer tokenAmount block tx Hrd Hup)
      as (_ & _ & Hlog).
    destruct (processSwapEvent_zero_division_users amb e w buyer tokenAmount block tx
                Hrd Hup) as (user & Hu & Husers & Haddr & Htx).
    fold w' in Hu, Husers, Htx, Hlog.
    split; [|split; [|split]].
    + exists user. repeat split; assumption.
    + unfold has_transaction. rewrite Htx.
      apply upsert_existsb; [apply transaction_update_key|apply transaction_key_create].
    + exact Hlog.
    + apply processSwapEvent_returns.
Qed.

(* ===================================================================== *)
(** ** Block ranges and the index loop *)
(* ===================================================================== *)

Lemma for_of_handlers {A} (body : A -> M unit) (l : list A) (w : World) :
  (forall x w, fst (body x w) = Ok tt) ->
  for_of l body w = (Ok tt, foldl (fun w x => snd (body x w)) w l).
Proof.
  intros Hret. revert w. induction l as [|x l IH]; intros w; simpl; [reflexivity|].
  unfold bind. specialize (Hret x w).
  destruct (body x w) as [[[]|err] w']; simpl in *; [apply IH|discriminate].
Qed.

(** When both queries answer, [processBlocks] hands every log to its
    handler and returns. *)
Lemma processBlocks_fetched env a b w swaps rates :
  fetched env a b swaps rates ->
  processBlocks env a b w
  = (Ok tt,
     log_line LInfo (Processed_events swaps rates) None
       (after_rates env rates
          (after_swaps env swaps
             (log_line LInfo (Processing_blocks a b) None w)))).
Proof.
  intros [Hs Hr]. unfold processBlocks.
  unfold bind at 1. unfold logger_info at 1, modify at 1.
  unfold try_catch, bind at 1. rewrite Hs. unfold await at 1.
  unfold bind at 1. rewrite Hr. unfold await at 1.
  unfold bind at 1.
  rewrite (for_of_handlers (fun e => processSwapEvent (ambient env e) e))
    by (intros; apply processSwapEvent_returns).
  unfold bind at 1.
  rewrite (for_of_handlers (fun e => processRateUpdateEvent (ambient env e) e))
    by (intros; apply processRateUpdateEvent_returns).
  reflexivity.
Qed.

(** When a query fails, nothing is handled and the error is rethrown. *)
Lemma processBlocks_fetch_failed env a b w error :
  (queryFilter_TokensPurchased env a b = Throw error
   \/ exists swaps, queryFilter_TokensPurchased env a b = Ok swaps
                    /\ queryFilter_TokensPerEthUpdated env a b = Throw error) ->
  processBlocks env a b w
  = (Throw error,
     log_line LError "Error processing blocks:" (Some error)
       (log_line LInfo (Processing_blocks a b) None w)).
Proof.
  intros [Hs|(swaps & Hs & Hr)]; unfold processBlocks; unfold_M; rewrite Hs;
    [|rewrite Hr]; reflexivity.
Qed.

Section Folds.

Variable env : CycleEnv.

(** A property of worlds that every handler run preserves holds after
    a batch. *)
Lemma after_swaps_ind (P : World -> Prop) batch w :
  (forall e w, P w -> P (snd (processSwapEvent (ambient env e) e w))) ->
  P w -> P (after_swaps env batch w).
Proof.
  intros Hstep. unfold after_swaps. revert w.
  induction batch as [|e l IH]; intros w Hw; simpl; auto.
Qed.

Lemma after_rates_ind (P : World -> Prop) batch w :
  (forall e w, P w -> P (snd (processRateUpdateEvent (ambient env e) e w))) ->
  P w -> P (after_rates env batch w).
Proof.
  intros Hstep. unfold after_rates. revert w.
  induction batch as [|e l IH]; intros w Hw; simpl; auto.
Qed.

Lemma after_swaps_cursor batch w :
  lastProcessedBlock (after_swaps env batch w) = lastProcessedBlock w
  /\ isRunning (after_swaps env batch w) = isRunning w
  /\ memoryCache (after_swaps env batch w) !! "indexer:lastBlock"
     = memoryCache w !! "indexer:lastBlock".
Proof.
  apply (after_swaps_ind (fun w' =>
    lastProcessedBlock w' = lastProcessedBlock w
    /\ isRunning w' = isRunning w
    /\ memoryCache w' !! "indexer:lastBlock" = memoryCache w !! "indexer:lastBlock"));
    [|auto].
  intros e w0 (H1 & H2 & H3).
  destruct (processSwapEvent_effect (ambient env e) e w0)
    as (_ & (F1 & F2 & _ & _ & _ & F3) & _).
  rewrite F1, F2, F3. auto.
Qed.

Lemma after_rates_cursor batch w :
  lastProcessedBlock (after_rates env batch w) = lastProcessedBlock w
  /\ isRunning (after_rates env batch w) = isRunning w
  /\ memoryCache (after_rates env batch w) !! "indexer:lastBlock"
     = memoryCache w !! "indexer:lastBlock".
Proof.
  apply (after_rates_ind (fun w' =>
    lastProcessedBlock w' = lastProcessedBlock w
    /\ isRunning w' = isRunning w
    /\ memoryCache w' !! "indexer:lastBlock" = memoryCache w !! "indexer:lastBlock"));
    [|auto].
  intros e w0 (H1 & H2 & H3).
  destruct (processRateUpdateEvent_effect (ambient env e) e w0)
    as (_ & (F1 & F2 & _ & _ & _ & _ & _ & F3) & _).
  rewrite F1, F2, F3. auto.
Qed.

(** A [SwapEvent] row once written stays in the table. *)
Lemma processSwapEvent_keeps_swapEvent amb e w h i :
  has_swapEvent h i (swapEvents (db w)) ->
  has_swapEvent h i (swapEvents (db (snd (processSwapEvent amb e w)))).
Proof.
  intros Hhas.
  destruct (processSwapEvent_swapEvents amb e w) as [Heq|H]; [rewrite Heq; exact Hhas|].
  destruct H as (b' & eth' & tok' & tx' & blk' & _ & _ & _ & _ & Heq).
  rewrite Heq. apply upsert_existsb_other; auto.
Qed.

End Folds.

(** The four ways an iteration of the loop can go. *)
Lemma indexLoop_body_height_failed env w error :
  getBlockNumber env = Throw error ->
  indexLoop_body env w
  = (Ok (mkCycle None 10000), log_line LError "Error in index loop:" (Some error) w).
Proof. intros H. unfold indexLoop_body. unfold_M. rewrite H. reflexivity. Qed.

Lemma indexLoop_body_no_new_block env w height :
  getBlockNumber env = Ok height ->
  height <= lastProcessedBlock w ->
  indexLoop_body env w = (Ok (mkCycle None 5000), w).
Proof.
  intros H Hle. unfold indexLoop_body. unfold_M. rewrite H.
  destruct (Z.ltb_spec (lastProcessedBlock w) height); [lia|reflexivity].
Qed.

Lemma indexLoop_body_fetch_failed env w height error :
  getBlockNumber env = Ok height ->
  lastProcessedBlock w < height ->
  (queryFilter_TokensPurchased env (lastProcessedBlock w + 1) height = Throw error
   \/ exists swaps,
        queryFilter_TokensPurchased env (lastProcessedBlock w + 1) height = Ok swaps
        /\ queryFilter_TokensPerEthUpdated env (lastProcessedBlock w + 1) height
           = Throw error) ->
  indexLoop_body env w
  = (Ok (mkCycle None 10000),
     log_line LError "Error in index loop:" (Some error)
       (log_line LError "Error processing blocks:" (Some error)
          (log_line LInfo (Processing_blocks (lastProcessedBlock w + 1) height) None w))).
Proof.
  intros H Hlt Hf. unfold indexLoop_body.
  unfold try_catch, bind at 1. rewrite H. unfold await at 1.
  unfold bind at 1, gets at 1.
  destruct (Z.ltb_spec (lastProcessedBlock w) height); [|lia].
  unfold bind at 1. unfold bind at 1.
  rewrite (processBlocks_fetch_failed _ _ _ _ _ Hf). reflexivity.
Qed.

Lemma indexLoop_body_processed env w height swaps rates :
  getBlockNumber env = Ok height ->
  lastProcessedBlock w < height ->
  fetched env (lastProcessedBlock w + 1) height swaps rates ->
  indexLoop_body env w
  = (Ok (mkCycle (Some (lastProcessedBlock w + 1, height)) 5000),
     set_memoryCache (Cache.set "indexer:lastBlock" (pretty height) None 0)
       (set_lastProcessedBlock height
          (log_line LInfo (Processed_events swaps rates) None
             (after_rates env rates
                (after_swaps env swaps
                   (log_line LInfo
                      (Processing_blocks (lastProcessedBlock w + 1) height) None w)))))).
Proof.
  intros H Hlt Hf. unfold indexLoop_body.
  unfold try_catch, bind at 1. rewrite H. unfold await at 1.
  unfold bind at 1, gets at 1.
  destruct (Z.ltb_spec (lastProcessedBlock w) height); [|lia].
  unfold bind at 1. unfold bind at 1.
  rewrite (processBlocks_fetched _ _ _ _ _ _ Hf). reflexivity.
Qed.

Lemma indexLoop_body_cursor env w :
  exists c,
    fst (indexLoop_body env w) = Ok c
    /\ isRunning (snd (indexLoop_body env w)) = isRunning w
    /\ match processed c with
       | Some (a, b) =>
           a = lastProcessedBlock w + 1 /\ a <= b
           /\ lastProcessedBlock (snd (indexLoop_body env w)) = b
       | None => lastProcessedBlock (snd (indexLoop_body env w)) = lastProcessedBlock w
       end.
Proof.
  destruct (getBlockNumber env) as [height|error] eqn:Hh.
  2: { rewrite (indexLoop_body_height_failed _ _ _ Hh). eexists. split; [reflexivity|simpl; auto]. }
  destruct (Z.lt_ge_cases (lastProcessedBlock w) height) as [Hlt|Hge].
  2: { rewrite (indexLoop_body_no_new_block _ _ _ Hh Hge). eexists. split; [reflexivity|simpl; auto]. }
  destruct (queryFilter_TokensPurchased env (lastProcessedBlock w + 1) height)
    as [swaps|error] eqn:Hs.
  2: { rewrite (indexLoop_body_fetch_failed _ _ _ error Hh Hlt) by auto.
       eexists. split; [reflexivity|simpl; auto]. }
  destruct (queryFilter_TokensPerEthUpdated env (lastProcessedBlock w + 1) height)
    as [rates|error] eqn:Hr.
  2: { rewrite (indexLoop_body_fetch_failed _ _ _ error Hh Hlt) by eauto.
       eexists. split; [reflexivity|simpl; auto]. }
  rewrite (indexLoop_body_processed _ _ _ swaps rates Hh Hlt) by (split; assumption).
  eexists. simpl. split; [reflexivity|]. split; [|split; [reflexivity|split; [lia|reflexivity]]].
  destruct (after_rates_cursor env rates
              (after_swaps env swaps
                 (log_line LInfo (Processing_blocks (lastProcessedBlock w + 1) height) None w)))
    as (_ & -> & _).
  destruct (after_swaps_cursor env swaps
              (log_line LInfo (Processing_blocks (lastProcessedBlock w + 1) height) None w))
    as (_ & -> & _).
  reflexivity.
Qed.

Lemma indexLoop_stopped envs w :
  isRunning w = false -> indexLoop envs w = (Ok [], w).
Proof. intros H. destruct envs; simpl; [reflexivity|]. unfold bind, gets. rewrite H. reflexivity. Qed.

(** One unfolding of the loop. *)
Lemma indexLoop_cons env envs w :
  isRunning w = true ->
  exists c,
    fst (indexLoop_body env w) = Ok c
    /\ let w1 := snd (indexLoop_body env w) in
       let w2 := if stop_called env then set_isRunning false w1 else w1 in
       exists cs,
         fst (indexLoop envs w2) = Ok cs
         /\ indexLoop (env :: envs) w = (Ok (c :: cs), snd (indexLoop envs w2)).
Proof.
  intros Hrun.
  assert (forall l w0, exists cs, fst (indexLoop l w0) = Ok cs) as Htotal.
  { induction l as [|e l IH]; intros w0; simpl; [eexists; reflexivity|].
    unfold bind at 1, gets. destruct (isRunning w0); [|eexists; reflexivity].
    destruct (indexLoop_body_cursor e w0) as (c & Hc & _).
    unfold bind at 1. destruct (indexLoop_body e w0) as [r w1]. simpl in Hc. subst r.
    unfold bind at 1.
    destruct (stop_called e); unfold modify, ret.
    - unfold bind. destruct (IH (set_isRunning false w1)) as [cs Hcs].
      destruct (indexLoop l (set_isRunning false w1)) as [r w2]. simpl in Hcs. subst r.
      eexists. reflexivity.
    - unfold bind. destruct (IH w1) as [cs Hcs].
      destruct (indexLoop l w1) as [r w2]. simpl in Hcs. subst r.
      eexists. reflexivity. }
  destruct (indexLoop_body_cursor env w) as (c & Hc & _).
  exists c. split; [exact Hc|]. simpl.
  destruct (Htotal envs (if stop_called env
                         then set_isRunning false (snd (indexLoop_body env w))
                         else snd (indexLoop_body env w))) as [cs Hcs].
  exists cs. split; [exact Hcs|].
  unfold bind at 1, gets. rewrite Hrun.
  unfold bind at 1. destruct (indexLoop_body env w) as [r w1]. simpl in *. subst r.
  unfold bind at 1.
  destruct (stop_called env); unfold modify, ret, bind;
    match goal with |- context [indexLoop envs ?x] =>
      destruct (indexLoop envs x) as [r w2] end; simpl in *; subst r; reflexivity.
Qed.

Lemma indexLoop_contiguous envs w :
  exists cycles,
    fst (indexLoop envs w) = Ok cycles
    /\ contiguous (lastProcessedBlock w) cycles (lastProcessedBlock (snd (indexLoop envs w))).
Proof.
  revert w. induction envs as [|env envs IH]; intros w.
  - exists []. simpl. auto.
  - destruct (isRunning w) eqn:Hrun.
    2: { rewrite (indexLoop_stopped _ _ Hrun). exists []. simpl. auto. }
    destruct (indexLoop_cons env envs w Hrun) as (c & Hc & cs & Hcs & Heq).
    rewrite Heq. exists (c :: cs). split; [reflexivity|]. simpl.
    destruct (indexLoop_body_cursor env w) as (c' & Hc' & _ & Hcur).
    rewrite Hc in Hc'. inversion Hc'; subst c'. clear Hc'.
    set (w1 := snd (indexLoop_body env w)) in *.
    set (w2 := if stop_called env then set_isRunning false w1 else w1) in *.
    assert (lastProcessedBlock w2 = lastProcessedBlock w1) as Hw2
      by (subst w2; destruct (stop_called env); reflexivity).
    destruct (IH w2) as (cs' & Hcs' & Hcont).
    rewrite Hcs in Hcs'. inversion Hcs'; subst cs'. clear Hcs'.
    rewrite Hw2 in Hcont.
    destruct (processed c) as [[a b]|].
    + destruct Hcur as (Ha & Hab & Hb). rewrite Hb in Hcont. auto.
    + rewrite Hcur in Hcont. exact Hcont.
Qed.

Lemma contiguous_ranges cursor cycles final :
  contiguous cursor cycles final ->
  cursor <= final
  /\ Forall (fun r => cursor < fst r /\ fst r <= snd r /\ snd r <= final)
       (omap processed cycles)
  /\ StronglySorted range_before (omap processed cycles).
Proof.
  revert cursor. induction cycles as [|c cs IH]; intros cursor H; simpl in *.
  - subst. repeat split; [lia|constructor|constructor].
  - destruct (processed c) as [[a b]|]; simpl.
    + destruct H as (Ha & Hab & H). destruct (IH _ H) as (Hle & Hall & Hsorted).
      repeat split.
      * lia.
      * constructor; [simpl; lia|].
        eapply Forall_impl; [exact Hall|]. simpl. intros r ?. lia.
      * constructor; [exact Hsorted|].
        eapply Forall_impl; [exact Hall|]. unfold range_before. simpl. intros r ?. lia.
    + apply IH, H.
Qed.

Lemma indexLoop_app pre post w :
  snd (indexLoop (pre ++ post) w) = snd (indexLoop post (snd (indexLoop pre w))).
Proof.
  revert w. induction pre as [|env pre IH]; intros w; [reflexivity|].
  destruct (isRunning w) eqn:Hrun.
  - simpl app.
    destruct (indexLoop_cons env (pre ++ post) w Hrun) as (c & Hc & cs & Hcs & Heq).
    destruct (indexLoop_cons env pre w Hrun) as (c' & Hc' & cs' & Hcs' & Heq').
    rewrite Heq, Heq'. simpl. apply IH.
  - rewrite !(indexLoop_stopped _ _ Hrun). simpl.
    rewrite ?(indexLoop_stopped _ _ Hrun). reflexivity.
Qed.

(** C9. Along any sequence of iterations, whatever the node and the
    store do in each: the loop never throws; the cursor after any prefix
    of the iterations is at least the initial cursor and at most the
    cursor after the whole sequence; every processed range lies above
    the initial cursor and ends at or below the final one; and each
    processed range lies wholly below the ranges processed after it. *)
Theorem cursor_never_regresses envs w :
  exists cycles,
    fst (indexLoop envs w) = Ok cycles
    /\ (forall pre post, envs = pre ++ post ->
          lastProcessedBlock w <= lastProcessedBlock (snd (indexLoop pre w))
          /\ lastProcessedBlock (snd (indexLoop pre w))
             <= lastProcessedBlock (snd (indexLoop envs w)))
    /\ Forall (fun r => lastProcessedBlock w < fst r /\ fst r <= snd r
                        /\ snd r <= lastProcessedBlock (snd (indexLoop envs w)))
         (omap processed cycles)
    /\ StronglySorted range_before (omap processed cycles).
Proof.
  destruct (indexLoop_contiguous envs w) as (cycles & Hc & Hcont).
  exists cycles. split; [exact Hc|].
  destruct (contiguous_ranges _ _ _ Hcont) as (_ & Hall & Hsorted).
  split; [|split; assumption].
  intros pre post ->. rewrite indexLoop_app. split.
  - destruct (indexLoop_contiguous pre w) as (c1 & _ & H1).
    apply (contiguous_ranges _ _ _ H1).
  - destruct (indexLoop_contiguous post (snd (indexLoop pre w))) as (c2 & _ & H2).
    apply (contiguous_ranges _ _ _ H2).
Qed.

(** A swap handler whose [try] block throws has not written the
    [SwapEvent] table. *)
Lemma processSwapEvent_thrown_no_swapEvent amb e w error :
  fst (processSwapEvent_try amb e w) = Throw error ->
  swapEvents (db (snd (processSwapEvent amb e w))) = swapEvents (db w).
Proof.
  intros H. rewrite (processSwapEvent_caught _ _ _ _ H). simpl.
  revert H. unfold processSwapEvent_try. handler_cases; intros; simplify_eq/=; reflexivity.
Qed.

Lemma processRateUpdateEvent_thrown_no_rateUpdate amb e w error :
  fst (processRateUpdateEvent_try amb e w) = Throw error ->
  rateUpdates (db (snd (processRateUpdateEvent amb e w))) = rateUpdates (db w).
Proof.
  intros H. rewrite (processRateUpdateEvent_caught _ _ _ _ H). simpl.
  revert H. unfold processRateUpdateEvent_try. handler_cases; intros; simplify_eq/=;
    reflexivity.
Qed.

(** A readable rate log handled while the store and the contract
    answer appends its [RateUpdate] row. *)
Lemma processRateUpdateEvent_committed amb e w newRate block tx oldRate :
  readable_rate e newRate block tx ->
  store_up amb ->
  tokensPerEth_call amb = Ok oldRate ->
  rateUpdates (db (snd (processRateUpdateEvent amb e w)))
  = rateUpdates (db w)
      ++ [mkRateUpdate oldRate newRate (toLowerCase (rc_from tx)) (number block) (rc_hash tx)].
Proof.
  intros [Hp Hb Hr] Hup Hcall. unfold store_up in Hup.
  unfold processRateUpdateEvent, processRateUpdateEvent_try. unfold_M.
  rewrite Hp, Hb, Hr, Hcall, Hup. reflexivity.
Qed.

Lemma handle_returns j w : fst (handle j w) = Ok tt.
Proof.
  destruct j; [apply processSwapEvent_returns|apply processRateUpdateEvent_returns].
Qed.

Lemma handle_caught j w error :
  fst (handle_try j w) = Throw error ->
  handle j w
  = (Ok tt, log_line LError (error_message j) (Some error) (snd (handle_try j w))).
Proof.
  destruct j; [apply processSwapEvent_caught|apply processRateUpdateEvent_caught].
Qed.

Lemma after_jobs_app l1 l2 w :
  after_jobs (l1 ++ l2) w = after_jobs l2 (after_jobs l1 w).
Proof. unfold after_jobs. apply foldl_app. Qed.

Lemma after_jobs_batch env swaps rates w :
  after_jobs (jobs env swaps rates) w = after_rates env rates (after_swaps env swaps w).
Proof.
  unfold jobs. rewrite after_jobs_app.
  assert (forall l w0, after_jobs (map (fun e => SwapJob (ambient env e) e) l) w0
                       = after_swaps env l w0) as Hs
    by (induction l as [|e l IH]; intros w0; [reflexivity|apply IH]).
  assert (forall l w0, after_jobs (map (fun e => RateJob (ambient env e) e) l) w0
                       = after_rates env l w0) as Hr
    by (induction l as [|e l IH]; intros w0; [reflexivity|apply IH]).
  rewrite Hs, Hr. reflexivity.
Qed.

Lemma after_jobs_ind (P : World -> Prop) batch w :
  (forall j w, In j batch -> P w -> P (snd (handle j w))) ->
  P w -> P (after_jobs batch w).
Proof.
  unfold after_jobs. revert w.
  induction batch as [|j l IH]; intros w Hstep Hw; simpl; [exact Hw|].
  apply IH.
  - intros j' w' Hin. apply Hstep. right. exact Hin.
  - apply Hstep; [left; reflexivity|exact Hw].
Qed.

(** What a handler of either kind has written stays: logger lines,
    [SwapEvent] rows under their key, [RateUpdate] rows. *)
Lemma handle_keeps j w :
  (exists lines, logged (snd (handle j w)) = logged w ++ lines)
  /\ (forall h i, has_swapEvent h i (swapEvents (db w)) ->
                  has_swapEvent h i (swapEvents (db (snd (handle j w)))))
  /\ (exists added, rateUpdates (db (snd (handle j w))) = rateUpdates (db w) ++ added).
Proof.
  destruct j as [amb e|amb e]; simpl.
  - destruct (processSwapEvent_effect amb e w)
      as (_ & (_ & _ & Hr & _) & _ & _ & _ & Hl).
    split; [exact Hl|]. split.
    + intros h i. apply processSwapEvent_keeps_swapEvent.
    + exists []. rewrite app_nil_r. exact Hr.
  - destruct (processRateUpdateEvent_effect amb e w)
      as (_ & (_ & _ & _ & _ & Hs & _) & Hr & Hl).
    split; [exact Hl|]. split; [|exact Hr].
    intros h i. rewrite Hs. auto.
Qed.

Lemma after_jobs_logged batch w line :
  In line (logged w) -> In line (logged (after_jobs batch w)).
Proof.
  intros H. apply (after_jobs_ind (fun w' => In line (logged w'))); [|exact H].
  intros j w0 _ H0. destruct (handle_keeps j w0) as ([lines ->] & _).
  apply in_or_app. left. exact H0.
Qed.

Lemma after_jobs_keeps_swapEvent batch w h i :
  has_swapEvent h i (swapEvents (db w)) ->
  has_swapEvent h i (swapEvents (db (after_jobs batch w))).
Proof.
  intros H. apply (after_jobs_ind (fun w' => has_swapEvent h i (swapEvents (db w')))); auto.
  intros j w0 _ H0. apply (handle_keeps j w0). exact H0.
Qed.

Lemma after_jobs_keeps_rateUpdate batch w row :
  In row (rateUpdates (db w)) -> In row (rateUpdates (db (after_jobs batch w))).
Proof.
  intros H. apply (after_jobs_ind (fun w' => In row (rateUpdates (db w')))); auto.
  intros j w0 _ H0. destruct (handle_keeps j w0) as (_ & _ & [added ->]).
  apply in_or_app. left. exact H0.
Qed.

(** A readable swap log that comes up in a sequence of handler calls
    while the store answers has its [SwapEvent] row at the end, whatever
    happened to the logs before and after it. *)
Lemma after_jobs_commits_swap batch w amb e buyer ethAmount tokenAmount block tx :
  In (SwapJob amb e) batch ->
  readable e buyer ethAmount tokenAmount block tx ->
  store_up amb ->
  ethAmount <> 0 ->
  has_swapEvent (rc_hash tx) (index e) (swapEvents (db (after_jobs batch w))).
Proof.
  intros Hin Hrd Hup Hne.
  apply in_split in Hin as (l1 & l2 & ->).
  rewrite after_jobs_app.
  change (after_jobs (SwapJob amb e :: l2) ?x)
    with (after_jobs l2 (snd (processSwapEvent amb e x))).
  apply after_jobs_keeps_swapEvent.
  destruct (processSwapEvent_committed amb e (after_jobs l1 w)
              _ _ _ _ _ Hrd Hup Hne) as (_ & Hsw & _).
  unfold has_swapEvent. rewrite Hsw.
  apply upsert_existsb; [reflexivity|apply swapEvent_key_create].
Qed.

Lemma after_jobs_commits_rate batch w amb e newRate block tx oldRate :
  In (RateJob amb e) batch ->
  readable_rate e newRate block tx ->
  store_up amb ->
  tokensPerEth_call amb = Ok oldRate ->
  In (mkRateUpdate oldRate newRate (toLowerCase (rc_from tx)) (number block) (rc_hash tx))
     (rateUpdates (db (after_jobs batch w))).
Proof.
  intros Hin Hrd Hup Hcall.
  apply in_split in Hin as (l1 & l2 & ->).
  rewrite after_jobs_app.
  change (after_jobs (RateJob amb e :: l2) ?x)
    with (after_jobs l2 (snd (processRateUpdateEvent amb e x))).
  apply after_jobs_keeps_rateUpdate.
  rewrite (processRateUpdateEvent_committed _ _ _ _ _ _ _ Hrd Hup Hcall).
  apply in_or_app. right. left. reflexivity.
Qed.

(** C4. In a batch whose two queries answered, let the [try] block of
    the handler of one log (a swap log or a rate log) throw.  Then: the
    handler catches and logs the error, returns, and has written no
    [SwapEvent] or [RateUpdate] row; [processBlocks] returns normally;
    the world it leaves is the one obtained by handling every later log
    of the batch, in order, from the world the failing handler left; the
    error line is in the final logger output; and every later readable
    log handled while the store answers has its row in the end. *)
Theorem failing_log_does_not_abort_batch env fromBlock toBlock w
    swaps rates earlier j later error :
  fetched env fromBlock toBlock swaps rates ->
  jobs env swaps rates = earlier ++ j :: later ->
  let w1 := after_jobs earlier
              (log_line LInfo (Processing_blocks fromBlock toBlock) None w) in
  fst (handle_try j w1) = Throw error ->
  let w2 := snd (handle j w1) in
  let w' := snd (processBlocks env fromBlock toBlock w) in
  fst (handle j w1) = Ok tt
  /\ logged w2 = logged (snd (handle_try j w1))
       ++ [mkLogLine LError (error_message j) (Some error)]
  /\ swapEvents (db w2) = swapEvents (db w1)
  /\ rateUpdates (db w2) = rateUpdates (db w1)
  /\ fst (processBlocks env fromBlock toBlock w) = Ok tt
  /\ w' = log_line LInfo (Processed_events swaps rates) None (after_jobs later w2)
  /\ In (mkLogLine LError (error_message j) (Some error)) (logged w')
  /\ (forall amb' e' buyer ethAmount tokenAmount block tx,
        In (SwapJob amb' e') later ->
        readable e' buyer ethAmount tokenAmount block tx ->
        store_up amb' ->
        ethAmount <> 0 ->
        has_swapEvent (rc_hash tx) (index e') (swapEvents (db w')))
  /\ (forall amb' e' newRate block tx oldRate,
        In (RateJob amb' e') later ->
        readable_rate e' newRate block tx ->
        store_up amb' ->
        tokensPerEth_call amb' = Ok oldRate ->
        In (mkRateUpdate oldRate newRate (toLowerCase (rc_from tx)) (number block)
              (rc_hash tx))
           (rateUpdates (db w'))).
Proof.
  intros Hf Hjobs w1 Hthrow w2 w'.
  assert (w' = log_line LInfo (Processed_events swaps rates) None
                 (after_jobs later w2)) as Hw'.
  { subst w'. rewrite (processBlocks_fetched _ _ _ _ _ _ Hf). simpl.
    rewrite <- after_jobs_batch, Hjobs, after_jobs_app. reflexivity. }
  assert (logged w2 = logged (snd (handle_try j w1))
            ++ [mkLogLine LError (error_message j) (Some error)]) as Hlog.
  { subst w2. rewrite (handle_caught _ _ _ Hthrow). reflexivity. }
  split; [apply handle_returns|].
  split; [exact Hlog|].
  split.
  { subst w2. destruct j as [amb e|amb e]; simpl in *.
    - apply (processSwapEvent_thrown_no_swapEvent _ _ _ _ Hthrow).
    - apply (processRateUpdateEvent_effect amb e w1). }
  split.
  { subst w2. destruct j as [amb e|amb e]; simpl in *.
    - apply (processSwapEvent_effect amb e w1).
    - apply (processRateUpdateEvent_thrown_no_rateUpdate _ _ _ _ Hthrow). }
  split; [rewrite (processBlocks_fetched _ _ _ _ _ _ Hf); reflexivity|].
  split; [exact Hw'|].
  split; [|split].
  - rewrite Hw'. simpl. apply in_or_app. left. apply after_jobs_logged.
    rewrite Hlog. apply in_or_app. right. left. reflexivity.
  - intros amb' e' buyer ethAmount tokenAmount block tx Hin Hrd Hup Hne.
    rewrite Hw'. simpl.
    apply (after_jobs_commits_swap later w2 amb' e' _ _ _ _ _ Hin Hrd Hup Hne).
  - intros amb' e' newRate block tx oldRate Hin Hrd Hup Hcall.
    rewrite Hw'. simpl.
    apply (after_jobs_commits_rate later w2 amb' e' _ _ _ _ Hin Hrd Hup Hcall).
Qed.

(** C1, amended. When reading the height fails, or a log query over
    (cursor, height] fails, the iteration is aborted: nothing is
    processed, the store, the cache and the cursor are what they were,
    the error is logged and the iteration ends on the 10 s backoff; and
    the next iteration that finds the node at a height above the cursor
    with both queries answering processes the range that starts at
    cursor + 1 again. *)
Theorem fetch_failure_keeps_cursor env w error :
  fetch_fails env w error ->
  let w' := snd (indexLoop_body env w) in
  fst (indexLoop_body env w) = Ok (mkCycle None 10000)
  /\ lastProcessedBlock w' = lastProcessedBlock w
  /\ memoryCache w' = memoryCache w
  /\ db w' = db w
  /\ In (mkLogLine LError "Error in index loop:" (Some error)) (logged w')
  /\ (forall env' height' swaps rates,
        getBlockNumber env' = Ok height' ->
        lastProcessedBlock w < height' ->
        fetched env' (lastProcessedBlock w + 1) height' swaps rates ->
        fst (indexLoop_body env' w')
        = Ok (mkCycle (Some (lastProcessedBlock w + 1, height')) 5000)).
Proof.
  intros Hfail w'.
  assert (fst (indexLoop_body env w) = Ok (mkCycle None 10000)
          /\ lastProcessedBlock w' = lastProcessedBlock w
          /\ memoryCache w' = memoryCache w
          /\ db w' = db w
          /\ In (mkLogLine LError "Error in index loop:" (Some error)) (logged w'))
    as (H1 & H2 & H3 & H4 & H5).
  { subst w'. destruct Hfail as [Hh|(height & Hh & Hlt & Hq)].
    - rewrite (indexLoop_body_height_failed _ _ _ Hh). simpl.
      repeat split. apply in_or_app. right. left. reflexivity.
    - rewrite (indexLoop_body_fetch_failed _ _ _ _ Hh Hlt Hq). simpl.
      repeat split. apply in_or_app. right. left. reflexivity. }
  repeat (split; [assumption|]).
  intros env' height' swaps rates Hh' Hlt' Hf'.
  rewrite <- H2 in Hlt', Hf'.
  rewrite (indexLoop_body_processed _ _ _ _ _ Hh' Hlt' Hf'). simpl.
  rewrite H2. reflexivity.
Qed.

(** C1 as worded does not hold: a log that fails to decode is caught in
    its handler, the cycle completes and the cursor advances to the
    height (here from 10 to 12). *)
Lemma decode_failure_advances_cursor : ~ cursor_kept_on_any_failure.
Proof.
  intros Hclaim.
  destruct (Hclaim (Sample.node [Sample.garbled] [] Sample.calm) Sample.world0)
    as (Hcursor & _).
  - right. exists 12, [Sample.garbled], [], Sample.garbled.
    repeat split; try reflexivity.
    + left. reflexivity.
    + apply (decoding_fails _ _ DecodeError). reflexivity.
  - vm_compute in Hcursor. discriminate.
Qed.

(** The same happens when the store rejects the upsert of a readable
    log: the cursor advances past a log that was not persisted. *)
Example persist_failure_advances_cursor :
  let env := Sample.node [Sample.swap_w1] [] Sample.store_rejects_swapEvent in
  let w' := snd (indexLoop_body env Sample.world0) in
  lastProcessedBlock w' = 12
  /\ swapEvents (db w') = []
  /\ fst (indexLoop_body env Sample.world0) = Ok (mkCycle (Some (11, 12)) 5000).
Proof. vm_compute. auto. Qed.

(* ===================================================================== *)
(** ** The analytics worker *)
(* ===================================================================== *)

Import Analytics.

(** C7. A metrics tick that finds no [SwapEvent] row logs its two lines
    and returns: no [TokenMetrics] row is written, the store and the
    cache are what they were, so no price (the one division of the tick)
    is computed at all. *)
Theorem metrics_tick_without_swaps_is_noop clock w :
  swapEvents (db w) = [] ->
  calculateMetrics clock w
  = (Ok tt,
     log_line LInfo "No swap events found, skipping metrics calculation" None
       (log_line LInfo "Calculating token metrics..." None w))
  /\ tokenMetrics (db (snd (calculateMetrics clock w))) = tokenMetrics (db w)
  /\ db (snd (calculateMetrics clock w)) = db w
  /\ memoryCache (snd (calculateMetrics clock w)) = memoryCache w.
Proof.
  intros Hempty.
  assert (calculateMetrics clock w
          = (Ok tt,
             log_line LInfo "No swap events found, skipping metrics calculation" None
               (log_line LInfo "Calculating token metrics..." None w))) as Heq.
  { unfold calculateMetrics. unfold_M. simpl. rewrite Hempty. reflexivity. }
  rewrite Heq. repeat split.
Qed.

(** With at least one row the tick does write a snapshot (and then
    fails to serialise it for the cache, which the [catch] logs). *)
Lemma metrics_tick_with_swaps clock w s tbl :
  swapEvents (db w) = s :: tbl ->
  let w' := snd (calculateMetrics clock w) in
  length (tokenMetrics (db w')) = S (length (tokenMetrics (db w)))
  /\ memoryCache w' = memoryCache w
  /\ In (mkLogLine LError "Error calculating metrics:" (Some TypeError)) (logged w').
Proof.
  intros Hs. unfold calculateMetrics. unfold_M. simpl.
  assert (exists latest, findFirst_latest (swapEvents (db w)) = Some latest) as [latest Hl].
  { rewrite Hs. unfold findFirst_latest. simpl.
    generalize s. clear. induction tbl as [|x tbl IH]; intros s0; simpl; [eauto|].
    destruct (s_createdAt s0 <? s_createdAt x); apply IH. }
  rewrite Hl. simpl. repeat split.
  - rewrite length_app. simpl. lia.
  - apply in_or_app. right. left. reflexivity.
Qed.

(** *** The period window *)

Lemma periodBounds_DAILY clock :
  periodBounds DAILY clock
  = (clock - TimeWithinDay clock, clock - TimeWithinDay clock, clock - TimeWithinDay clock).
Proof. reflexivity. Qed.

Lemma periodBounds_ALL_TIME clock : periodBounds ALL_TIME clock = (0, clock, clock).
Proof. reflexivity. Qed.

Lemma periodBounds_MONTHLY clock :
  periodBounds MONTHLY clock
  = (Date_of_fields (YearFromTime clock) (MonthFromTime clock) 1, clock, clock).
Proof. reflexivity. Qed.

(** C2 (the code departs from it). For DAILY, [now.setHours(0,0,0,0)]
    moves the very object that [periodEnd] names, so the window handed
    to [findMany] is [midnight, midnight] at every clock reading.  With
    a 2 ETH swap of W1 and a 5 ETH swap of W2 recorded at 10:00 and the
    tick running at 12:00 of the same day, the DAILY calculation selects
    no row and writes no leaderboard entry; the MONTHLY calculation,
    whose [switch] arm does not touch [now], ranks W2 first and W1
    second on the same store. *)
Theorem daily_window_collapses_to_midnight :
  (forall clock,
      periodBounds DAILY clock
      = (clock - TimeWithinDay clock, clock - TimeWithinDay clock,
         clock - TimeWithinDay clock))
  /\ map (fun s => (s_buyer s, s_ethAmount s, s_createdAt s))
         (swapEvents (db Sample.indexed_today))
     = [(toLowerCase Sample.W1, 2 * Sample.ETH, 1704103200000);
        (toLowerCase Sample.W2, 5 * Sample.ETH, 1704103200000)]
  /\ periodBounds DAILY Sample.noon = (1704067200000, 1704067200000, 1704067200000)
  /\ leaderboard (db (snd (calculateLeaderboardForPeriod DAILY Sample.noon
                             Sample.indexed_today))) = []
  /\ map (fun l => (l_walletAddress l, l_rank l))
         (leaderboard (db (snd (calculateLeaderboardForPeriod MONTHLY Sample.noon
                                  Sample.indexed_today))))
     = [(toLowerCase Sample.W2, 1); (toLowerCase Sample.W1, 2)].
Proof.
  split; [intros clock; reflexivity|].
  vm_compute. repeat split.
Qed.

(** *** Aggregation, sorting and ranking *)

Lemma Map_set_keys k v m :
  map fst (Map_set k v m)
  = if existsb (fun k' => String.eqb k' k) (map fst m) then map fst m
    else map fst m ++ [k].
Proof.
  induction m as [|[k' v'] m IH]; simpl; [reflexivity|].
  destruct (String.eqb k' k) eqn:Hk; simpl; [reflexivity|].
  rewrite IH. destruct (existsb _ _); reflexivity.
Qed.

Lemma existsb_eqb_In k l :
  existsb (fun k' => String.eqb k' k) l = true <-> In k l.
Proof.
  rewrite existsb_exists. split.
  - intros (x & Hin & Heq). apply String.eqb_eq in Heq. subst. exact Hin.
  - intros Hin. exists k. split; [exact Hin|apply String.eqb_refl].
Qed.

Lemma aggregate_step_keys m s :
  NoDup (map fst m) ->
  NoDup (map fst (aggregate_step m s))
  /\ (forall a, In a (map fst (aggregate_step m s))
                <-> In a (map fst m) \/ toLowerCase (s_buyer s) = a).
Proof.
  intros Hnd. unfold aggregate_step. rewrite Map_set_keys.
  destruct (existsb _ _) eqn:Hex.
  - apply existsb_eqb_In in Hex. split; [exact Hnd|].
    intros a. split; [auto|]. intros [H|<-]; assumption.
  - assert (~ In (toLowerCase (s_buyer s)) (map fst m)) as Hnin.
    { intros Hin. apply existsb_eqb_In in Hin. congruence. }
    split.
    + apply NoDup_app. repeat split; [exact Hnd| |apply NoDup_singleton].
      intros x Hx Hx'. apply list_elem_of_In in Hx, Hx'.
      destruct Hx' as [<-|[]]. contradiction.
    + intros a. rewrite in_app_iff. simpl. tauto.
Qed.

Lemma aggregate_keys swaps :
  NoDup (map fst (aggregate swaps))
  /\ (forall a, In a (map fst (aggregate swaps))
                <-> exists s, In s swaps /\ toLowerCase (s_buyer s) = a).
Proof.
  unfold aggregate.
  assert (forall m, NoDup (map fst m) ->
            NoDup (map fst (foldl aggregate_step m swaps))
            /\ (forall a, In a (map fst (foldl aggregate_step m swaps))
                          <-> In a (map fst m)
                              \/ exists s, In s swaps /\ toLowerCase (s_buyer s) = a))
    as Hgen.
  { induction swaps as [|s swaps IH]; intros m Hnd; simpl.
    - split; [exact Hnd|]. intros a. split; [auto|]. intros [H|(s & [] & _)]. exact H.
    - destruct (aggregate_step_keys m s Hnd) as [Hnd' Hin'].
      destruct (IH _ Hnd') as [Hnd'' Hin'']. split; [exact Hnd''|].
      intros a. rewrite Hin'', Hin'. split.
      + intros [[H|H]|(s' & Hs' & H)]; eauto.
      + intros [H|(s' & [<-|Hs'] & H)]; eauto. }
  assert (NoDup (map fst (@nil (string * Stats)))) as Hnil by constructor.
  destruct (Hgen [] Hnil) as [Hnd Hin]. split; [exact Hnd|].
  intros a. rewrite Hin. simpl. tauto.
Qed.

Lemma sort_insert_perm x l : Permutation (sort_insert x l) (x :: l).
Proof.
  induction l as [|y l IH]; simpl; [reflexivity|].
  destruct (compareVolume x y <=? 0); [reflexivity|].
  rewrite IH. apply perm_swap.
Qed.

Lemma sort_perm l : Permutation (sort l) l.
Proof.
  unfold sort. induction l as [|x l IH]; simpl; [reflexivity|].
  rewrite sort_insert_perm. constructor. exact IH.
Qed.

(** The wallets of the sorted entries: the distinct normalised buyers. *)
Lemma sorted_wallets swaps :
  let wallets := map fst (sort (aggregate swaps)) in
  NoDup wallets
  /\ (forall a, In a wallets <-> exists s, In s swaps /\ toLowerCase (s_buyer s) = a)
  /\ length wallets = length (remove_dups (map (fun s => toLowerCase (s_buyer s)) swaps)).
Proof.
  intros wallets.
  destruct (aggregate_keys swaps) as [Hnd Hin].
  assert (Permutation wallets (map fst (aggregate swaps))) as Hperm
    by (apply Permutation_map, sort_perm).
  assert (NoDup wallets) as Hnd' by (rewrite Hperm; exact Hnd).
  assert (forall a, In a wallets <-> exists s, In s swaps /\ toLowerCase (s_buyer s) = a)
    as Hin'.
  { intros a. rewrite <- Hin. split; apply Permutation_in; [|symmetry]; exact Hperm. }
  split; [exact Hnd'|]. split; [exact Hin'|].
  apply Permutation_length, NoDup_Permutation; [exact Hnd'|apply NoDup_remove_dups|].
  intros a. rewrite elem_of_remove_dups, !list_elem_of_In, Hin', in_map_iff.
  split; intros (s & H1 & H2); exists s; auto.
Qed.

Lemma leaderboard_key_refl e :
  leaderboard_key (l_period e) (l_walletAddress e) (l_periodStart e) e = true.
Proof.
  unfold leaderboard_key. rewrite String.eqb_refl, Z.eqb_refl.
  destruct (l_period e); reflexivity.
Qed.

Lemma leaderboard_key_other_wallet p a ps p' a' ps' r :
  a <> a' ->
  leaderboard_key p' a' ps' r = true -> leaderboard_key p a ps r = false.
Proof.
  unfold leaderboard_key. intros Hne H.
  apply andb_true_iff in H as [H _]. apply andb_true_iff in H as [_ H].
  apply String.eqb_eq in H. rewrite H.
  assert (String.eqb a' a = false) as -> by (apply String.eqb_neq; congruence).
  rewrite andb_false_r. reflexivity.
Qed.

Section Ranking.

Variables (period : Period) (periodStart now : Z).

Lemma saved_other_wallet es w a :
  ~ In a (map l_walletAddress es) ->
  findUnique (leaderboard_key period a periodStart) (leaderboard (db (saved now es w)))
  = findUnique (leaderboard_key period a periodStart) (leaderboard (db w)).
Proof.
  unfold saved. revert w. induction es as [|e es IH]; intros w Hnin; [reflexivity|].
  simpl in *. rewrite IH by tauto. simpl. unfold findUnique.
  apply find_upsert_other.
  - intros r. apply leaderboard_key_other_wallet.
    intros Heq. apply Hnin. left. congruence.
  - reflexivity.
  - apply (leaderboard_key_other_wallet _ _ _ _ _ _ e) with (2 := leaderboard_key_refl e).
    intros Heq. apply Hnin. left. congruence.
Qed.

(** Every row handed to the saving loop is found afterwards under its
    key, with the rank it was handed over with. *)
Lemma saved_rank es w e :
  NoDup (map l_walletAddress es) ->
  Forall (same_period period periodStart) es ->
  In e es ->
  exists row,
    findUnique (leaderboard_key period (l_walletAddress e) periodStart)
      (leaderboard (db (saved now es w))) = Some row
    /\ l_rank row = l_rank e.
Proof.
  revert w. induction es as [|e0 es IH]; intros w Hnd Hall Hin; [destruct Hin|].
  simpl in Hnd. apply NoDup_cons in Hnd as [Hnin Hnd'].
  apply Forall_cons in Hall as [[Hp Hs] Hall'].
  destruct Hin as [->|Hin].
  - change (saved now (e :: es) w) with (saved now es (snd (leaderboard_upsert now e w))).
    rewrite list_elem_of_In in Hnin.
    rewrite (saved_other_wallet es _ _ Hnin). simpl. unfold findUnique.
    rewrite <- Hp, <- Hs.
    destruct (find_upsert_same
                (leaderboard_key (l_period e) (l_walletAddress e) (l_periodStart e))
                (leaderboard_update e now) (fun r => eq_refl) e (leaderboard (db w))
                (leaderboard_key_refl e)) as [H|[r H]];
      rewrite H; eexists; split; reflexivity.
  - apply (IH (snd (leaderboard_upsert now e0 w)) Hnd' Hall' Hin).
Qed.

End Ranking.

Lemma entries_wallets period periodStart periodEnd (sorted : list (string * Stats)) :
  map l_walletAddress (imap (entry_of period periodStart periodEnd) sorted)
  = map fst sorted.
Proof.
  apply list_eq. intros i.
  rewrite !list_lookup_fmap, list_lookup_imap.
  destruct (sorted !! i); reflexivity.
Qed.

Lemma entries_same_period period periodStart periodEnd (sorted : list (string * Stats)) :
  Forall (same_period period periodStart)
    (imap (entry_of period periodStart periodEnd) sorted).
Proof.
  apply Forall_lookup. intros i e He.
  rewrite list_lookup_imap in He. destruct (sorted !! i); inversion He; subst.
  split; reflexivity.
Qed.

(** The store a period's calculation leaves is the one the saving loop
    leaves: serialising and caching do not touch it. *)
Lemma calculateLeaderboardForPeriod_db period clock w :
  db (snd (calculateLeaderboardForPeriod period clock w))
  = let '(periodStart, periodEnd, now) := periodBounds period clock in
    db (saved now
          (imap (entry_of period periodStart periodEnd)
             (sort (aggregate (findMany_createdAt periodStart periodEnd
                                 (swapEvents (db w))))))
          w).
Proof.
  unfold calculateLeaderboardForPeriod.
  destruct (periodBounds period clock) as [[periodStart periodEnd] now].
  unfold bind at 1, gets at 1. unfold bind at 1.
  rewrite for_of_handlers by reflexivity.
  unfold bind, await, cache_set, modify.
  destruct (JSON_stringify_sorted _); reflexivity.
Qed.

(** The ranks one calculation writes.  Let N be the number of
    distinct buyer addresses among the selected swaps.  There are N
    distinct wallets, exactly the buyers of the selected swaps, such
    that the row stored under (period, wallet, periodStart) of the i-th
    of them (counting from 0) carries rank i + 1: the ranks written are
    1, 2, ..., N, each to one wallet.  Rows of other wallets under the
    same (period, periodStart) are not written. *)
Lemma leaderboard_ranks_are_1_to_N period clock w :
  let periodStart := fst (fst (periodBounds period clock)) in
  let periodEnd := snd (fst (periodBounds period clock)) in
  let swaps := findMany_createdAt periodStart periodEnd (swapEvents (db w)) in
  let N := length (remove_dups (map (fun s => toLowerCase (s_buyer s)) swaps)) in
  let w' := snd (calculateLeaderboardForPeriod period clock w) in
  exists wallets : list string,
    length wallets = N
    /\ NoDup wallets
    /\ (forall a, In a wallets <-> exists s, In s swaps /\ toLowerCase (s_buyer s) = a)
    /\ (forall i a, wallets !! i = Some a ->
          exists row,
            findUnique (leaderboard_key period a periodStart) (leaderboard (db w'))
            = Some row
            /\ l_rank row = Z.of_nat i + 1).
Proof.
  intros periodStart periodEnd swaps N w'.
  destruct (sorted_wallets swaps) as (Hnd & Hin & Hlen).
  exists (map fst (sort (aggregate swaps))).
  split; [exact Hlen|]. split; [exact Hnd|]. split; [exact Hin|].
  intros i a Hi.
  rewrite list_lookup_fmap in Hi.
  destruct (sort (aggregate swaps) !! i) as [x|] eqn:Hx; [|discriminate].
  inversion Hi; subst a. clear Hi.
  subst w'. rewrite calculateLeaderboardForPeriod_db.
  subst swaps periodStart periodEnd.
  destruct (periodBounds period clock) as [[ps pe] nw]. simpl in *.
  set (es := imap (entry_of period ps pe)
               (sort (aggregate (findMany_createdAt ps pe (swapEvents (db w)))))).
  assert (In (entry_of period ps pe i x) es) as Hin_es.
  { apply list_elem_of_In, list_elem_of_lookup. exists i.
    subst es. rewrite list_lookup_imap, Hx. reflexivity. }
  destruct (saved_rank period ps nw es w _
              ltac:(subst es; rewrite entries_wallets; exact Hnd)
              ltac:(subst es; apply entries_same_period)
              Hin_es) as (row & Hrow & Hrank).
  exists row. split; [exact Hrow|]. rewrite Hrank. reflexivity.
Qed.

(** C5. Two weekly calculations, on Monday 2024-01-01 at 10:00Z and on
    Tuesday at 08:00Z, over a store where W1 swapped 2 ETH on Sunday at
    07:00Z and W2 5 ETH at 09:00Z.  [now.setDate(...)] moves [now], and
    with it [periodEnd], back to Sunday at the time of day of the
    calculation, so both calculations have [periodStart] Sunday 00:00Z
    and the second window, ending at 08:00Z, is the shorter one.  The
    first calculation ranks W2 1 and W1 2.  The second selects the swap
    of W1 alone, N = 1, and writes rank 1 to W1; the row of W2 keeps
    rank 1: the ranks stored under (WEEKLY, periodStart) are 1 and 1.
    The ALL_TIME arm, whose window ends at the clock, leaves ranks 1
    and 2 after the same two calculations. *)
Theorem weekly_recalculation_leaves_duplicate_ranks :
  let w1 := snd (calculateLeaderboardForPeriod WEEKLY Sample.monday_10
                   Sample.indexed_sunday) in
  let w2 := snd (calculateLeaderboardForPeriod WEEKLY Sample.tuesday_8 w1) in
  let a1 := snd (calculateLeaderboardForPeriod ALL_TIME Sample.monday_10
                   Sample.indexed_sunday) in
  let a2 := snd (calculateLeaderboardForPeriod ALL_TIME Sample.tuesday_8 a1) in
  map (fun s => (s_buyer s, s_ethAmount s, s_createdAt s))
      (swapEvents (db Sample.indexed_sunday))
  = [(toLowerCase Sample.W1, 2 * Sample.ETH, Sample.sunday_0 + 7 * 3600000);
     (toLowerCase Sample.W2, 5 * Sample.ETH, Sample.sunday_0 + 9 * 3600000)]
  /\ periodBounds WEEKLY Sample.monday_10
     = (Sample.sunday_0, Sample.sunday_0 + 10 * 3600000, Sample.sunday_0 + 10 * 3600000)
  /\ periodBounds WEEKLY Sample.tuesday_8
     = (Sample.sunday_0, Sample.sunday_0 + 8 * 3600000, Sample.sunday_0 + 8 * 3600000)
  /\ ranks (board WEEKLY Sample.sunday_0 (leaderboard (db w1)))
     = [(toLowerCase Sample.W2, 1); (toLowerCase Sample.W1, 2)]
  /\ remove_dups
       (map (fun s => toLowerCase (s_buyer s))
          (findMany_createdAt Sample.sunday_0 (Sample.sunday_0 + 8 * 3600000)
             (swapEvents (db w1))))
     = [toLowerCase Sample.W1]
  /\ ranks (board WEEKLY Sample.sunday_0 (leaderboard (db w2)))
     = [(toLowerCase Sample.W2, 1); (toLowerCase Sample.W1, 1)]
  /\ ranks (board ALL_TIME 0 (leaderboard (db a2)))
     = [(toLowerCase Sample.W2, 1); (toLowerCase Sample.W1, 2)].
Proof. vm_compute. repeat split. Qed.

(* ===================================================================== *)
(** ** Instances *)
(* ===================================================================== *)

Lemma store_up_calm : store_up Sample.calm.
Proof. intros op. reflexivity. Defined.

Lemma readable_swap_log txHash buyer logIndex blockNumber ethAmount tokenAmount :
  readable (Sample.swap_log txHash buyer logIndex blockNumber ethAmount tokenAmount)
    buyer ethAmount tokenAmount
    (mkBlock blockNumber (Some "0xb10c"))
    (mkReceipt txHash buyer (Some 1) (Some 21000) (Some 5)).
Proof. constructor; reflexivity. Defined.

(** The log query times out with the cursor at 10: the cursor stays at
    10 and the iteration ends on the backoff. *)
Lemma fetch_failure_keeps_cursor_witness :
  fetch_fails Sample.node_times_out Sample.world0 RpcError
  /\ fst (indexLoop_body Sample.node_times_out Sample.world0) = Ok (mkCycle None 10000)
  /\ lastProcessedBlock (snd (indexLoop_body Sample.node_times_out Sample.world0)) = 10.
Proof.
  assert (fetch_fails Sample.node_times_out Sample.world0 RpcError) as Hfail.
  { right. exists 12. repeat split. left. reflexivity. }
  split; [exact Hfail|].
  destruct (fetch_failure_keeps_cursor Sample.node_times_out Sample.world0 RpcError Hfail)
    as (H1 & H2 & _).
  split; [exact H1|exact H2].
Defined.

(** The 2 ETH swap of W1 is processed and completes, then the 5 ETH
    swap of W2, then the swap of W1 again, on an initially empty
    store. *)
Lemma reprocessing_is_idempotent_witness :
  let w1 := snd (processSwapEvent Sample.calm Sample.swap_w1 Sample.world0) in
  let w2 := after_jobs [SwapJob Sample.calm Sample.swap_w2] w1 in
  let w3 := snd (processSwapEvent Sample.calm Sample.swap_w1 w2) in
  fst (processSwapEvent_try Sample.calm Sample.swap_w1 Sample.world0) = Ok tt
  /\ (count_swapEvent "0x01" 0 (swapEvents (db Sample.world0)) <= 1)%nat
  /\ count_swapEvent "0x01" 0 (swapEvents (db w3)) = 1%nat
  /\ transactions (db w3) = transactions (db w2)
  /\ swapEvents (db w3) = swapEvents (db w2).
Proof.
  intros w1 w2 w3.
  assert (fst (processSwapEvent_try Sample.calm Sample.swap_w1 Sample.world0) = Ok tt)
    as Hok by reflexivity.
  split; [exact Hok|]. split; [vm_compute; repeat constructor|].
  apply (reprocessing_is_idempotent Sample.calm Sample.calm Sample.swap_w1 Sample.world0
           [SwapJob Sample.calm Sample.swap_w2]
           _ _ _ _ _ (readable_swap_log _ _ _ _ _ _) Hok).
  - vm_compute. repeat constructor.
  - constructor; [|constructor].
    intros tx' block' Hr Hb Hh. inversion Hr; subst tx'. discriminate Hh.
Defined.

(** A garbled log followed by the swap of W1: the batch completes and
    the swap of W1 has its row. *)
Lemma failing_log_does_not_abort_batch_witness :
  let env := Sample.node [Sample.garbled; Sample.swap_w1] [] Sample.calm in
  fetched env 11 12 [Sample.garbled; Sample.swap_w1] []
  /\ jobs env [Sample.garbled; Sample.swap_w1] []
     = [] ++ SwapJob Sample.calm Sample.garbled :: [SwapJob Sample.calm Sample.swap_w1]
  /\ fst (processBlocks env 11 12 Sample.world0) = Ok tt
  /\ has_swapEvent "0x01" 0 (swapEvents (db (snd (processBlocks env 11 12 Sample.world0)))).
Proof.
  intros env.
  assert (fetched env 11 12 [Sample.garbled; Sample.swap_w1] []) as Hf
    by (split; reflexivity).
  split; [exact Hf|]. split; [reflexivity|].
  destruct (failing_log_does_not_abort_batch env 11 12 Sample.world0
              [Sample.garbled; Sample.swap_w1] []
              [] (SwapJob Sample.calm Sample.garbled)
              [SwapJob Sample.calm Sample.swap_w1] DecodeError
              Hf eq_refl eq_refl)
    as (_ & _ & _ & _ & Hret & _ & _ & Hlater & _).
  split; [exact Hret|].
  apply (Hlater Sample.calm Sample.swap_w1 _ _ _ _ _ (or_introl eq_refl)
           (readable_swap_log _ _ _ _ _ _) store_up_calm).
  discriminate.
Defined.

(** The row created for the 2 ETH / 2000 token swap of W1 carries the
    rate 1000. *)
Lemma created_swapEvent_rate_witness :
  In Sample.row_w1
    (swapEvents (db (snd (processSwapEvent Sample.calm Sample.swap_w1 Sample.world0))))
  /\ ~ In Sample.row_w1 (swapEvents (db Sample.world0))
  /\ s_tokensPerEth Sample.row_w1 = (2000 * Sample.ETH) / (2 * Sample.ETH).
Proof.
  assert (In Sample.row_w1
            (swapEvents (db (snd (processSwapEvent Sample.calm Sample.swap_w1
                                    Sample.world0))))) as Hin
    by (left; reflexivity).
  assert (~ In Sample.row_w1 (swapEvents (db Sample.world0))) as Hnew
    by (intros []).
  split; [exact Hin|]. split; [exact Hnew|].
  apply (created_swapEvent_rate Sample.calm Sample.swap_w1 Sample.world0
           Sample.W1 (2 * Sample.ETH) (2000 * Sample.ETH) Sample.row_w1 eq_refl).
  - split; [discriminate|reflexivity].
  - split; [discriminate|reflexivity].
  - exact Hin.
  - exact Hnew.
Defined.

(** A metrics tick on the empty store. *)
Lemma metrics_tick_without_swaps_is_noop_witness :
  swapEvents (db Sample.world0) = []
  /\ tokenMetrics (db (snd (calculateMetrics Sample.noon Sample.world0))) = []
  /\ memoryCache (snd (calculateMetrics Sample.noon Sample.world0)) = ∅.
Proof.
  split; [reflexivity|].
  destruct (metrics_tick_without_swaps_is_noop Sample.noon Sample.world0 eq_refl)
    as (_ & H1 & _ & H2).
  split; [exact H1|exact H2].
Defined.

(** The swap of W1 arrives for a hash already tracked for user 99: the
    row stays owned by user 99 and no row is added. *)
Lemma transaction_update_path_keeps_owner_witness :
  let w' := snd (processSwapEvent Sample.calm Sample.swap_w1 Sample.world_tracked) in
  transactions (db Sample.world_tracked) !! 0%nat = Some Sample.tracked
  /\ (exists t', transactions (db w') !! 0%nat = Some t'
                 /\ keeps_owner_and_amounts Sample.tracked t')
  /\ length (transactions (db w')) = 1%nat.
Proof.
  intros w'. split; [reflexivity|].
  destruct (transaction_update_path_keeps_owner Sample.calm Sample.swap_w1
              Sample.world_tracked 0%nat Sample.tracked eq_refl) as [H1 H2].
  split; [exact H1|].
  apply (H2 _ eq_refl). reflexivity.
Defined.

(** A swap log with a zero ETH amount on the empty store: user 1 is
    created for W1, the transaction row is created for it, and no swap
    event is stored. *)
Lemma zero_ethAmount_leaves_partial_write_witness :
  let w' := snd (processSwapEvent Sample.calm Sample.swap_zero Sample.world0) in
  parseLog Sample.swap_zero = Ok (Some (TokensPurchased Sample.W1 0 (7 * Sample.ETH)))
  /\ swapEvents (db w') = []
  /\ (exists user,
        users (db w') = [user]
        /\ transactions (db w')
           = [transaction_create_data
                (mkReceipt "0x03" Sample.W1 (Some 1) (Some 21000) (Some 5))
                (mkBlock 12 (Some "0xb10c")) user Sample.W1 0 (7 * Sample.ETH)])
  /\ has_transaction "0x03" (transactions (db w')).
Proof.
  intros w'. split; [reflexivity|].
  destruct (zero_ethAmount_leaves_partial_write Sample.calm Sample.swap_zero Sample.world0
              Sample.W1 (7 * Sample.ETH) eq_refl) as [H1 H2].
  split; [exact H1|].
  destruct (H2 _ _ eq_refl eq_refl store_up_calm)
    as ((user & _ & Husers & _ & Htx) & Hhas & _).
  split; [|exact Hhas].
  exists user. split; [exact Husers|exact Htx].
Defined.

(* ===================================================================== *)
(** * Further properties *)
(* ===================================================================== *)

(** ** The cache *)

Import More.

Lemma expired_mono entry now later :
  now <= later -> Cache.expired entry now = true -> Cache.expired entry later = true.
Proof.
  unfold Cache.expired. destruct (expires entry) as [e|]; [|discriminate].
  intros Hle H. apply andb_true_iff in H as [H0 H1]. rewrite H0. simpl.
  apply Z.ltb_lt in H1. apply Z.ltb_lt. lia.
Qed.

(** What a read returns, apart from the cache it leaves. *)
Lemma cache_get_fst key now m :
  fst (Cache.get key now m)
  = match m !! key with
    | Some entry => if Cache.expired entry now then None else Some (value entry)
    | None => None
    end.
Proof.
  unfold Cache.get. destruct (m !! key) as [entry|]; [|reflexivity].
  destruct (Cache.expired entry now); reflexivity.
Qed.

(** X1. Reading a key at [later] after writing it at [now]: the value
    comes back, and the cache is left as written, as long as the entry
    lives (no or zero time to live, or [later] not past
    [now + ttl * 1000]); past that the read yields nothing and removes
    the key. *)
Theorem cache_set_then_get key val ttl now later m :
  Cache.get key later (Cache.set key val ttl now m)
  = if lives ttl now later
    then (Some val, Cache.set key val ttl now m)
    else (None, Cache.del key m).
Proof.
  unfold Cache.get, Cache.set, Cache.del, lives. rewrite lookup_insert_eq.
  unfold Cache.expired. simpl.
  destruct ttl as [s|]; [|reflexivity].
  destruct (Z.eqb_spec s 0) as [Hs|Hs]; simpl; [reflexivity|].
  destruct (Z.eqb_spec (now + s * 1000) 0) as [H0|H0]; simpl; [reflexivity|].
  destruct (Z.ltb_spec (now + s * 1000) later), (Z.leb_spec later (now + s * 1000));
    try lia; [|reflexivity].
  rewrite delete_insert_eq. reflexivity.
Qed.

(** X2. A read never serves an expired entry: a value returned at
    [now] is the value of an entry of the cache that is not expired at
    [now], every later read of a key the cache does not hold yields
    nothing, and after any read the key holds no entry expired at
    [now]. *)
Theorem cache_get_is_fresh key now m :
  (forall v, fst (Cache.get key now m) = Some v ->
     exists entry, m !! key = Some entry /\ value entry = v
                   /\ Cache.expired entry now = false)
  /\ (m !! key = None -> Cache.get key now m = (None, m))
  /\ (forall entry, snd (Cache.get key now m) !! key = Some entry ->
        Cache.expired entry now = false).
Proof.
  unfold Cache.get. destruct (m !! key) as [entry|] eqn:Hm.
  - destruct (Cache.expired entry now) eqn:He; simpl.
    + split; [discriminate|]. split; [discriminate|].
      intros e. rewrite lookup_delete_eq. discriminate.
    + split; [intros v [= <-]; eauto|]. split; [discriminate|].
      intros e. rewrite Hm. intros [= <-]. exact He.
  - simpl. split; [discriminate|]. split; [reflexivity|].
    intros e. rewrite Hm. discriminate.
Qed.

(** X3. [exists] answers exactly when [get] returns a value, and
    leaves the same cache behind. *)
Theorem cache_exists_agrees_with_get key now m :
  fst (Cache.exists_ key now m) = bool_decide (is_Some (fst (Cache.get key now m)))
  /\ snd (Cache.exists_ key now m) = snd (Cache.get key now m).
Proof.
  unfold Cache.exists_, Cache.get. destruct (m !! key) as [entry|].
  - destruct (Cache.expired entry now); simpl; split; reflexivity.
  - simpl. split; reflexivity.
Qed.

(** X4. Writing, deleting or reading (and thereby expiring) one key
    does not change what a read of another key returns; a deleted key
    reads as absent, and deleting is idempotent. *)
Theorem cache_keys_are_independent key other val ttl now t m :
  key <> other ->
  fst (Cache.get other t (Cache.set key val ttl now m)) = fst (Cache.get other t m)
  /\ fst (Cache.get other t (Cache.del key m)) = fst (Cache.get other t m)
  /\ fst (Cache.get other t (snd (Cache.get key now m))) = fst (Cache.get other t m)
  /\ Cache.get key t (Cache.del key m) = (None, Cache.del key m)
  /\ Cache.del key (Cache.del key m) = Cache.del key m.
Proof.
  intros Hne. rewrite !cache_get_fst. unfold Cache.set, Cache.del.
  rewrite lookup_insert_ne, lookup_delete_ne by exact Hne.
  repeat split.
  - unfold Cache.get. destruct (m !! key) as [entry|]; [|reflexivity].
    destruct (Cache.expired entry now); simpl; [|reflexivity].
    rewrite lookup_delete_ne by exact Hne. reflexivity.
  - unfold Cache.get. rewrite lookup_delete_eq. reflexivity.
  - apply delete_delete_eq.
Qed.

(** X5. The periodic sweep is invisible to readers: at the time of the
    sweep or later, every key reads the same with or without it; what
    the sweep leaves holds no expired entry, and what it removes was
    expired. *)
Theorem cache_sweep_is_transparent now later key m :
  now <= later ->
  fst (Cache.get key later (snd (Cache.sweep now m))) = fst (Cache.get key later m)
  /\ (forall k entry, snd (Cache.sweep now m) !! k = Some entry ->
        m !! k = Some entry /\ Cache.expired entry now = false)
  /\ (forall k entry, m !! k = Some entry -> snd (Cache.sweep now m) !! k = None ->
        Cache.expired entry now = true).
Proof.
  intros Hle. unfold Cache.sweep. simpl.
  assert (forall k entry,
            filter (fun kv : string * CacheEntry => Cache.expired (snd kv) now = false) m
              !! k = Some entry
            <-> m !! k = Some entry /\ Cache.expired entry now = false) as Hf.
  { intros k entry. rewrite map_lookup_filter_Some. simpl. reflexivity. }
  split; [|split].
  - rewrite !cache_get_fst.
    destruct (filter _ m !! key) as [entry|] eqn:Hk.
    + apply Hf in Hk as [Hm He]. rewrite Hm. reflexivity.
    + destruct (m !! key) as [entry|] eqn:Hm; [|reflexivity].
      destruct (Cache.expired entry now) eqn:He.
      * rewrite (expired_mono _ _ _ Hle He). reflexivity.
      * assert (filter (fun kv : string * CacheEntry =>
                          Cache.expired (snd kv) now = false) m !! key = Some entry) as Hin
          by (apply Hf; auto).
        congruence.
  - intros k entry. apply Hf.
  - intros k entry Hm Hnone.
    destruct (Cache.expired entry now) eqn:He; [reflexivity|].
    assert (filter (fun kv : string * CacheEntry =>
                      Cache.expired (snd kv) now = false) m !! k = Some entry) as Hin
      by (apply Hf; auto).
    congruence.
Qed.

(** ** The indexer: invariants of the store *)

Section UpsertShape.

Context {A : Type}.
Variable is_key : A -> bool.
Variable update : A -> A.

(** The table after an upsert: the old rows in place, the selected one
  updated, and at most the created row appended. *)
Lemma upsert_shape create tbl :
exists kept added,
  Prisma.upsert is_key create update tbl = kept ++ added
  /\ Forall2 (fun r r' => r' = r \/ r' = update r) tbl kept
  /\ (added = [] \/ (added = [create] /\ existsb is_key tbl = false)).
Proof.
induction tbl as [|r tbl IH]; simpl.
- exists [], [create]. repeat split; [constructor|right; auto].
- destruct (is_key r) eqn:Hr.
  + exists (update r :: tbl), []. rewrite app_nil_r. repeat split; [|left; reflexivity].
    constructor; [right; reflexivity|].
    clear. induction tbl; constructor; auto.
  + destruct IH as (kept & added & Heq & Hk & Ha).
    exists (r :: kept), added. rewrite Heq. repeat split; [constructor; auto|].
    destruct Ha as [Ha|[Ha Hex]]; [left; exact Ha|right]. split; [exact Ha|].
    simpl. exact Hex.
Qed.

(** An upsert keeps a key function free of duplicates. *)
Lemma upsert_NoDup {K : Type} (kf : A -> K) (k : K) create tbl :
(forall r, is_key r = true <-> kf r = k) ->
(forall r, kf (update r) = kf r) ->
kf create = k ->
NoDup (map kf tbl) ->
NoDup (map kf (Prisma.upsert is_key create update tbl)).
Proof.
intros Hkey Hup Hc.
assert (forall l x, In x (map kf (Prisma.upsert is_key create update l)) ->
                    In x (map kf l) \/ x = k) as Hin.
{ induction l as [|r l IH]; simpl; intros x.
  - intros [<-|[]]. right. exact Hc.
  - destruct (is_key r); simpl.
    + rewrite Hup. intros [H|H]; auto.
    + intros [H|H]; [auto|]. destruct (IH _ H); auto. }
induction tbl as [|r tbl IH]; simpl; intros Hnd.
- apply NoDup_singleton.
- apply NoDup_cons in Hnd as [Hnin Hnd]. rewrite list_elem_of_In in Hnin.
  destruct (is_key r) eqn:Hr; simpl.
  + rewrite Hup. apply NoDup_cons. rewrite list_elem_of_In. auto.
  + apply NoDup_cons. rewrite list_elem_of_In. split; [|auto].
    intros H. destruct (Hin _ _ H) as [H'|H']; [contradiction|].
    apply Hkey in H'. congruence.
Qed.

End UpsertShape.

Lemma swapEvent_key_spec h i s :
  swapEvent_key h i s = true <-> (s_txHash s, s_logIndex s) = (h, i).
Proof.
  unfold swapEvent_key. rewrite andb_true_iff, String.eqb_eq, Z.eqb_eq.
  split; [intros [-> ->]; reflexivity|intros [= -> ->]; auto].
Qed.

Lemma transaction_key_spec h t : transaction_key h t = true <-> t_txHash t = h.
Proof. unfold transaction_key. apply String.eqb_eq. Qed.

Lemma findUnique_None_notin addr tbl :
  findUnique (user_key addr) tbl = None -> ~ In addr (map u_walletAddress tbl).
Proof.
  unfold findUnique. induction tbl as [|u tbl IH]; simpl; [tauto|].
  unfold user_key at 1. destruct (String.eqb_spec (u_walletAddress u) addr); [discriminate|].
  intros H [Heq|Hin]; [contradiction|]. exact (IH H Hin).
Qed.

Lemma fresh_id_above tbl : forall u, In u tbl -> (u_id u < fresh_id tbl)%nat.
Proof.
  unfold fresh_id. induction tbl as [|u0 tbl IH]; simpl; [tauto|].
  intros u [->|Hin]; [lia|]. specialize (IH _ Hin). lia.
Qed.

Lemma lower_ascii_idem c : lower_ascii (lower_ascii c) = lower_ascii c.
Proof. destruct c as [[] [] [] [] [] [] [] []]; reflexivity. Qed.

Lemma toLowerCase_idem s : toLowerCase (toLowerCase s) = toLowerCase s.
Proof. induction s as [|c s IH]; simpl; [reflexivity|]. rewrite lower_ascii_idem, IH. reflexivity. Qed.

(** The one write a swap handler makes to [User]. *)
Lemma processSwapEvent_users amb e w :
  let w' := snd (processSwapEvent amb e w) in
  users (db w') = users (db w)
  \/ exists buyer ethAmount tokenAmount,
       parseLog e = Ok (Some (TokensPurchased buyer ethAmount tokenAmount))
       /\ findUnique (user_key (toLowerCase buyer)) (users (db w)) = None
       /\ users (db w')
          = users (db w) ++ [mkUser (fresh_id (users (db w))) (toLowerCase buyer)].
Proof.
  unfold processSwapEvent, processSwapEvent_try. handler_cases.
  all: try (left; reflexivity).
  all: right; unfold user_create in *; case_match; simplify_eq/=;
    eexists _, _, _; repeat split; eassumption.
Qed.

Lemma keeps_trans t1 t2 t3 :
  keeps_owner_and_amounts t1 t2 -> keeps_owner_and_amounts t2 t3 ->
  keeps_owner_and_amounts t1 t3.
Proof. intros [] []. constructor; congruence. Qed.

Lemma grows_refl d : grows d d.
Proof.
  constructor; try reflexivity; try (exists []; rewrite app_nil_r; reflexivity).
  exists (transactions d), []. rewrite app_nil_r. split; [reflexivity|].
  induction (transactions d); constructor; auto using keeps_refl.
Qed.

Lemma grows_trans d1 d2 d3 : grows d1 d2 -> grows d2 d3 -> grows d1 d3.
Proof.
  intros [[u1 Hu1] [s1 Hs1] [r1 Hr1] (k1 & a1 & Ht1 & Hk1) Hm1 Hl1]
         [[u2 Hu2] [s2 Hs2] [r2 Hr2] (k2 & a2 & Ht2 & Hk2) Hm2 Hl2].
  constructor.
  - exists (u1 ++ u2). rewrite Hu2, Hu1, app_assoc. reflexivity.
  - exists (s1 ++ s2). rewrite Hs2, Hs1, app_assoc. reflexivity.
  - exists (r1 ++ r2). rewrite Hr2, Hr1, app_assoc. reflexivity.
  - rewrite Ht1 in Hk2. apply Forall2_app_inv_l in Hk2 as (k2a & k2b & Hka & Hkb & ->).
    exists k2a, (k2b ++ a2). rewrite Ht2, app_assoc. split; [reflexivity|].
    clear -Hk1 Hka. revert k2a Hka.
    induction Hk1 as [|x y l l' Hxy Hl IH]; intros k2a Hka.
    + inversion Hka. constructor.
    + inversion Hka; subst. constructor; [eapply keeps_trans; eassumption|auto].
  - congruence.
  - congruence.
Qed.

Lemma processSwapEvent_grows amb e w : grows (db w) (db (snd (processSwapEvent amb e w))).
Proof.
  destruct (processSwapEvent_effect amb e w)
    as (_ & (_ & _ & Hr & Hm & Hl & _) & Ht & Hs & Hu & _).
  constructor.
  - exact Hu.
  - destruct Hs as [->|(b & eth & tok & tx & blk & _ & _ & _ & _ & ->)].
    + exists []. rewrite app_nil_r. reflexivity.
    + destruct (existsb (swapEvent_key (rc_hash tx) (index e)) (swapEvents (db w))) eqn:Hex.
      * rewrite upsert_noop by auto. exists []. rewrite app_nil_r. reflexivity.
      * rewrite upsert_fresh by exact Hex. eauto.
  - exists []. rewrite app_nil_r. exact Hr.
  - destruct Ht as [->|(tx & blk & user & b & eth & tok & _ & _ & ->)].
    + apply grows_refl.
    + destruct (upsert_shape (transaction_key (rc_hash tx))
                  (transaction_update (transaction_update_data tx blk))
                  (transaction_create_data tx blk user b eth tok) (transactions (db w)))
        as (kept & added & -> & Hk & _).
      exists kept, added. split; [reflexivity|].
      eapply Forall2_impl; [exact Hk|]. simpl.
      intros r r' [->| ->]; [apply keeps_refl|apply transaction_update_keeps].
  - exact Hm.
  - exact Hl.
Qed.

Lemma processRateUpdateEvent_grows amb e w :
  grows (db w) (db (snd (processRateUpdateEvent amb e w))).
Proof.
  destruct (processRateUpdateEvent_effect amb e w)
    as (_ & (_ & _ & Hu & Ht & Hs & Hm & Hl & _) & Hr & _).
  constructor; try assumption.
  - exists []. rewrite app_nil_r. exact Hu.
  - exists []. rewrite app_nil_r. exact Hs.
  - rewrite Ht. apply grows_refl.
Qed.

Lemma processSwapEvent_store_wf amb e w :
  store_wf (db w) -> store_wf (db (snd (processSwapEvent amb e w))).
Proof.
  intros [Hw Hi Hh Hs].
  destruct (processSwapEvent_effect amb e w) as (_ & _ & Ht & Hsw & _).
  constructor.
  - destruct (processSwapEvent_users amb e w) as [->|(b & eth & tok & _ & Hf & ->)];
      [exact Hw|].
    rewrite map_app. apply NoDup_app. repeat split; [exact Hw| |apply NoDup_singleton].
    intros x Hx Hx'. apply list_elem_of_In in Hx, Hx'. destruct Hx' as [<-|[]].
    exact (findUnique_None_notin _ _ Hf Hx).
  - destruct (processSwapEvent_users amb e w) as [->|(b & eth & tok & _ & Hf & ->)];
      [exact Hi|].
    rewrite map_app. apply NoDup_app. repeat split; [exact Hi| |apply NoDup_singleton].
    intros x Hx Hx'. apply list_elem_of_In in Hx, Hx'. destruct Hx' as [<-|[]].
    apply in_map_iff in Hx as (u & Hu & Hin).
    pose proof (fresh_id_above _ _ Hin). simpl in Hu. lia.
  - destruct Ht as [->|(tx & blk & user & b & eth & tok & _ & _ & ->)]; [exact Hh|].
    apply (upsert_NoDup _ _ t_txHash (rc_hash tx)); auto using transaction_key_spec.
  - destruct Hsw as [->|(b & eth & tok & tx & blk & _ & _ & _ & _ & ->)]; [exact Hs|].
    apply (upsert_NoDup _ _ (fun s => (s_txHash s, s_logIndex s)) (rc_hash tx, index e));
      auto using swapEvent_key_spec.
Qed.

Lemma processRateUpdateEvent_store_wf amb e w :
  store_wf (db w) -> store_wf (db (snd (processRateUpdateEvent amb e w))).
Proof.
  intros [Hw Hi Hh Hs].
  destruct (processRateUpdateEvent_effect amb e w)
    as (_ & (_ & _ & Hu & Ht & Hsw & _) & _).
  constructor; rewrite ?Hu, ?Ht, ?Hsw; assumption.
Qed.

Lemma processSwapEvent_normalized amb e w :
  normalized (db w) -> normalized (db (snd (processSwapEvent amb e w))).
Proof.
  intros [Hu Hb]. constructor.
  - destruct (processSwapEvent_users amb e w) as [->|(b & eth & tok & _ & _ & ->)];
      [exact Hu|].
    apply Forall_app. split; [exact Hu|]. repeat constructor. apply toLowerCase_idem.
  - destruct (processSwapEvent_swapEvents amb e w)
      as [->|(b & eth & tok & tx & blk & _ & _ & _ & _ & ->)]; [exact Hb|].
    apply upsert_Forall; auto. apply toLowerCase_idem.
Qed.

Lemma processRateUpdateEvent_normalized amb e w :
  normalized (db w) -> normalized (db (snd (processRateUpdateEvent amb e w))).
Proof.
  intros [Hu Hb].
  destruct (processRateUpdateEvent_effect amb e w)
    as (_ & (_ & _ & Hu' & _ & Hs' & _) & _).
  constructor; rewrite ?Hu', ?Hs'; assumption.
Qed.

(** A property of the store that both handlers preserve is preserved
    by an iteration, and by the loop. *)
Lemma indexLoop_body_db_ind (P : DB -> Prop) env w :
  (forall amb e w, P (db w) -> P (db (snd (processSwapEvent amb e w)))) ->
  (forall amb e w, P (db w) -> P (db (snd (processRateUpdateEvent amb e w)))) ->
  P (db w) -> P (db (snd (indexLoop_body env w))).
Proof.
  intros Hswap Hrate Hw.
  destruct (getBlockNumber env) as [height|error] eqn:Hh.
  2: { rewrite (indexLoop_body_height_failed _ _ _ Hh). exact Hw. }
  destruct (Z.lt_ge_cases (lastProcessedBlock w) height) as [Hlt|Hge].
  2: { rewrite (indexLoop_body_no_new_block _ _ _ Hh Hge). exact Hw. }
  destruct (queryFilter_TokensPurchased env (lastProcessedBlock w + 1) height)
    as [swaps|error] eqn:Hs.
  2: { rewrite (indexLoop_body_fetch_failed _ _ _ error Hh Hlt) by auto. exact Hw. }
  destruct (queryFilter_TokensPerEthUpdated env (lastProcessedBlock w + 1) height)
    as [rates|error] eqn:Hr.
  2: { rewrite (indexLoop_body_fetch_failed _ _ _ error Hh Hlt) by eauto. exact Hw. }
  rewrite (indexLoop_body_processed _ _ _ swaps rates Hh Hlt) by (split; assumption).
  simpl.
  apply (after_rates_ind env (fun w' => P (db w'))); [intros; apply Hrate; assumption|].
  apply (after_swaps_ind env (fun w' => P (db w'))); [intros; apply Hswap; assumption|].
  exact Hw.
Qed.

Lemma indexLoop_db_ind (P : DB -> Prop) envs w :
  (forall amb e w, P (db w) -> P (db (snd (processSwapEvent amb e w)))) ->
  (forall amb e w, P (db w) -> P (db (snd (processRateUpdateEvent amb e w)))) ->
  P (db w) -> P (db (snd (indexLoop envs w))).
Proof.
  intros Hswap Hrate. revert w. induction envs as [|env envs IH]; intros w Hw; [exact Hw|].
  destruct (isRunning w) eqn:Hrun.
  2: { rewrite (indexLoop_stopped _ _ Hrun). exact Hw. }
  destruct (indexLoop_cons env envs w Hrun) as (c & _ & cs & _ & ->). simpl.
  apply IH.
  pose proof (indexLoop_body_db_ind P env w Hswap Hrate Hw) as H1.
  destruct (stop_called env); exact H1.
Qed.

(** X6. The uniqueness constraints of the store are kept by the index
    loop, whatever logs the node returns and whatever fails: one user
    per wallet address and per id, one transaction per hash, one swap
    event per (hash, log index). *)
Theorem indexLoop_keeps_store_wf envs w :
  store_wf (db w) -> store_wf (db (snd (indexLoop envs w))).
Proof.
  apply (indexLoop_db_ind store_wf).
  - apply processSwapEvent_store_wf.
  - apply processRateUpdateEvent_store_wf.
Qed.

(** X7. Wallet addresses stay normalised: when every stored user
    address and swap buyer is in lower case, they all are after the
    index loop has run. *)
Theorem indexLoop_keeps_addresses_lower_case envs w :
  normalized (db w) -> normalized (db (snd (indexLoop envs w))).
Proof.
  apply (indexLoop_db_ind normalized).
  - apply processSwapEvent_normalized.
  - apply processRateUpdateEvent_normalized.
Qed.

(** X8. The index loop only adds: users, swap events and rate updates
    are appended to and never changed or deleted; every transaction
    keeps its place, hash, owner, addresses and amounts, new ones being
    appended; token metrics and leaderboard rows are never written. *)
Theorem indexLoop_only_grows_the_store envs w :
  grows (db w) (db (snd (indexLoop envs w))).
Proof.
  apply (indexLoop_db_ind (grows (db w))).
  - intros amb e w0 H. eapply grows_trans; [exact H|apply processSwapEvent_grows].
  - intros amb e w0 H. eapply grows_trans; [exact H|apply processRateUpdateEvent_grows].
  - apply grows_refl.
Qed.

(** ** The indexer: cursor, start and stop *)

Lemma synced_after_body env w c :
  fst (indexLoop_body env w) = Ok c ->
  synced w \/ processed c <> None ->
  synced (snd (indexLoop_body env w)).
Proof.
  destruct (getBlockNumber env) as [height|error] eqn:Hh.
  2: { rewrite (indexLoop_body_height_failed _ _ _ Hh). simpl.
       intros [= <-] [H|H]; [exact H|contradiction]. }
  destruct (Z.lt_ge_cases (lastProcessedBlock w) height) as [Hlt|Hge].
  2: { rewrite (indexLoop_body_no_new_block _ _ _ Hh Hge). simpl.
       intros [= <-] [H|H]; [exact H|contradiction]. }
  destruct (queryFilter_TokensPurchased env (lastProcessedBlock w + 1) height)
    as [swaps|error] eqn:Hs.
  2: { rewrite (indexLoop_body_fetch_failed _ _ _ error Hh Hlt) by auto. simpl.
       intros [= <-] [H|H]; [exact H|contradiction]. }
  destruct (queryFilter_TokensPerEthUpdated env (lastProcessedBlock w + 1) height)
    as [rates|error] eqn:Hr.
  2: { rewrite (indexLoop_body_fetch_failed _ _ _ error Hh Hlt) by eauto. simpl.
       intros [= <-] [H|H]; [exact H|contradiction]. }
  rewrite (indexLoop_body_processed _ _ _ swaps rates Hh Hlt) by (split; assumption).
  intros _ _. unfold synced, Cache.set. simpl. apply lookup_insert_eq.
Qed.

(** X9. The cached cursor follows the in-process cursor: if the entry
    'indexer:lastBlock' spells [lastProcessedBlock] (with no expiry)
    before the loop runs, or if any iteration processes a range, it
    spells it after the loop has run. *)
Theorem cached_cursor_follows_cursor envs w :
  exists cycles,
    fst (indexLoop envs w) = Ok cycles
    /\ (synced w \/ Exists (fun c => processed c <> None) cycles ->
        synced (snd (indexLoop envs w))).
Proof.
  revert w. induction envs as [|env envs IH]; intros w.
  - exists []. split; [reflexivity|]. simpl. intros [H|H]; [exact H|inversion H].
  - destruct (isRunning w) eqn:Hrun.
    2: { rewrite (indexLoop_stopped _ _ Hrun). exists []. split; [reflexivity|].
         simpl. intros [H|H]; [exact H|inversion H]. }
    destruct (indexLoop_cons env envs w Hrun) as (c & Hc & cs & Hcs & ->).
    exists (c :: cs). split; [reflexivity|]. simpl.
    set (w1 := snd (indexLoop_body env w)) in *.
    set (w2 := if stop_called env then set_isRunning false w1 else w1) in *.
    destruct (IH w2) as (cs' & Hcs' & Hsync).
    rewrite Hcs in Hcs'. inversion Hcs'; subst cs'. clear Hcs'.
    intros H. apply Hsync.
    assert (synced w1 -> synced w2) as H12
      by (subst w2; destruct (stop_called env); auto).
    destruct H as [H|H].
    + left. apply H12. apply (synced_after_body env w c Hc). left. exact H.
    + apply Exists_cons in H as [H|H]; [|right; exact H].
      left. apply H12. apply (synced_after_body env w c Hc). right. exact H.
Qed.

(** *** [parseInt] reads back what [toString] wrote *)

Lemma digit_of_pretty_N_char d :
  (d < 10)%N -> digit_of (pretty_N_char d) = Some (Z.of_N d).
Proof.
  intros H.
  assert (d = 0 \/ d = 1 \/ d = 2 \/ d = 3 \/ d = 4 \/ d = 5 \/ d = 6 \/ d = 7
          \/ d = 8 \/ d = 9)%N as Hd by lia.
  repeat (destruct Hd as [->|Hd]; [reflexivity|]). subst. reflexivity.
Qed.

Lemma parse_digits_pretty_N_go x s :
  parse_digits None (pretty_N_go x s)
  = parse_digits (if (x =? 0)%N then None else Some (Z.of_N x)) s.
Proof.
  revert s. induction (N.lt_wf_0 x) as [x _ IH]; intros s.
  destruct (N.eqb_spec x 0) as [->|Hx]; [reflexivity|].
  rewrite pretty_N_go_step by lia.
  rewrite IH by (apply N.div_lt; lia). simpl.
  rewrite digit_of_pretty_N_char by (apply N.mod_lt; lia).
  f_equal. f_equal.
  pose proof (N.div_mod x 10 ltac:(lia)) as Hdm.
  destruct (N.eqb_spec (x / 10) 0) as [H0|H0]; simpl.
  - rewrite H0 in Hdm. lia.
  - lia.
Qed.

Lemma pretty_N_go_starts_with_digit x s :
  (0 < x)%N ->
  exists c r d, pretty_N_go x s = String c r /\ digit_of c = Some d.
Proof.
  revert s. induction (N.lt_wf_0 x) as [x _ IH]; intros s Hx.
  rewrite pretty_N_go_step by exact Hx.
  destruct (N.eqb_spec (x / 10) 0) as [H0|H0].
  - rewrite H0, pretty_N_go_0. eexists _, _, _. split; [reflexivity|].
    apply digit_of_pretty_N_char, N.mod_lt. lia.
  - apply IH; [apply N.div_lt; lia|apply N.neq_0_lt_0; exact H0].
Qed.

Lemma parseInt10_digit_start c r d :
  digit_of c = Some d -> parseInt10 (String c r) = parse_digits None (String c r).
Proof.
  destruct c as [[] [] [] [] [] [] [] []]; try discriminate; reflexivity.
Qed.

Lemma parse_digits_pretty_pos p : parse_digits None (pretty (N.pos p)) = Some (Z.pos p).
Proof.
  unfold pretty, pretty_N. rewrite decide_False by discriminate.
  rewrite parse_digits_pretty_N_go. reflexivity.
Qed.

Lemma parseInt10_pretty_pos p : parseInt10 (pretty (N.pos p)) = Some (Z.pos p).
Proof.
  rewrite <- parse_digits_pretty_pos.
  unfold pretty, pretty_N. rewrite decide_False by discriminate.
  destruct (pretty_N_go_starts_with_digit (N.pos p) EmptyString ltac:(lia))
    as (c & r & d & Heq & Hd).
  rewrite Heq. apply (parseInt10_digit_start _ _ _ Hd).
Qed.

Lemma parseInt10_minus r : parseInt10 (String "-" r) = Z.opp <$> parse_digits None r.
Proof. reflexivity. Qed.

(** [parseInt(n.toString(), 10)] is [n]. *)
Lemma parseInt10_pretty (z : Z) : parseInt10 (pretty z) = Some z.
Proof.
  destruct z as [|p|p].
  - reflexivity.
  - apply parseInt10_pretty_pos.
  - change (pretty (Z.neg p)) with (String "-" (pretty (N.pos p))).
    rewrite parseInt10_minus, parse_digits_pretty_pos. reflexivity.
Qed.

Lemma pretty_Z_nonempty (z : Z) : exists c r, pretty z = String c r.
Proof.
  destruct z as [|p|p].
  - eexists _, _. reflexivity.
  - unfold pretty, pretty_Z, pretty, pretty_positive, pretty, pretty_N.
    rewrite decide_False by discriminate.
    destruct (pretty_N_go_starts_with_digit (N.pos p) EmptyString ltac:(lia)) as (c & r & d & Heq & _).
    eauto.
  - eexists _, _. reflexivity.
Qed.

(** X10. [start()] on a stopped indexer picks the cursor up from the
    cache: when 'indexer:lastBlock' holds, unexpired, the decimal
    spelling of a height of at most 2^53 in absolute value (the
    integers [parseInt] returns exactly, its result being a binary64),
    [lastProcessedBlock] becomes that height whatever it was; when the
    key is absent the cursor is left as it is.  Either way the indexer
    is marked running, the start line is logged, the store is untouched
    and the loop is launched. *)
Theorem start_resumes_from_cached_cursor clock w :
  isRunning w = false ->
  (forall height entry,
      - 2 ^ 53 <= height <= 2 ^ 53 ->
      memoryCache w !! "indexer:lastBlock" = Some entry ->
      value entry = pretty height ->
      Cache.expired entry clock = false ->
      start clock w
      = Some (Ok true,
              set_lastProcessedBlock height
                (log_line LInfo "Starting blockchain indexer..." None
                   (set_isRunning true w))))
  /\ (memoryCache w !! "indexer:lastBlock" = None ->
      start clock w
      = Some (Ok true,
              log_line LInfo "Starting blockchain indexer..." None
                (set_isRunning true w))).
Proof.
  intros Hrun. split.
  - intros height entry _ Hm Hv He.
    unfold start. rewrite Hrun. unfold_M. unfold cache_get, Cache.get. simpl.
    rewrite Hm, He, Hv.
    destruct (pretty_Z_nonempty height) as (c & r & Heq). rewrite Heq.
    rewrite <- Heq, parseInt10_pretty.
    destruct w; reflexivity.
  - intros Hm. unfold start. rewrite Hrun. unfold_M. unfold cache_get, Cache.get. simpl.
    rewrite Hm. destruct w; reflexivity.
Qed.

(** X11. A second [start()] does nothing but warn: once [start()] has
    launched the loop, another call returns without launching it again
    and changes nothing except for the warning line. *)
Theorem second_start_only_warns clock1 clock2 w w1 :
  start clock1 w = Some (Ok true, w1) ->
  start clock2 w1
  = Some (Ok false, log_line LWarn "Indexer is already running" None w1).
Proof.
  intros H.
  assert (isRunning w1 = true) as Hrun.
  { unfold start in H. destruct (isRunning w) eqn:Hw; [discriminate H|].
    revert H. unfold_M. unfold cache_get.
    destruct (Cache.get _ _ _) as [[[|c r]|] m'] eqn:Hg; simpl.
    - intros [= <-]. reflexivity.
    - destruct (parseInt10 (String c r)); [|discriminate]. intros [= <-]. reflexivity.
    - intros [= <-]. reflexivity. }
  unfold start. rewrite Hrun. reflexivity.
Qed.


(** ** The rate-update handler *)

(** X13. A rate log whose handling throws leaves no trace but the
    error line: the store and the cache are exactly what they were
    (the handler's one write is its last fallible step). *)
Theorem failed_rate_update_writes_nothing amb e w error :
  fst (processRateUpdateEvent_try amb e w) = Throw error ->
  processRateUpdateEvent amb e w
  = (Ok tt, log_line LError "Error processing rate update event:" (Some error) w).
Proof.
  intros H. rewrite (processRateUpdateEvent_caught _ _ _ _ H). f_equal. f_equal.
  revert H. unfold processRateUpdateEvent_try. handler_cases; intros; simplify_eq/=;
    reflexivity.
Qed.

(** X14. Rate updates are recorded with [create], not [upsert]:
    handling the same readable rate log twice stores the same row
    twice. *)
Theorem reprocessing_rate_update_duplicates amb1 amb2 e w newRate block tx oldRate :
  readable_rate e newRate block tx ->
  store_up amb1 -> store_up amb2 ->
  tokensPerEth_call amb1 = Ok oldRate ->
  tokensPerEth_call amb2 = Ok oldRate ->
  let row := mkRateUpdate oldRate newRate (toLowerCase (rc_from tx)) (number block)
               (rc_hash tx) in
  let w1 := snd (processRateUpdateEvent amb1 e w) in
  let w2 := snd (processRateUpdateEvent amb2 e w1) in
  rateUpdates (db w2) = rateUpdates (db w) ++ [row; row].
Proof.
  intros Hrd Hup1 Hup2 Hc1 Hc2 row w1 w2. subst w2 w1.
  rewrite (processRateUpdateEvent_committed _ _ _ _ _ _ _ Hrd Hup2 Hc2).
  rewrite (processRateUpdateEvent_committed _ _ _ _ _ _ _ Hrd Hup1 Hc1).
  rewrite <- app_assoc. reflexivity.
Qed.

(** ** The swap handler: the create path *)

(** X15. A readable swap log whose hash has no [Transaction] row yet,
    handled while the store answers, appends exactly one row: it is
    owned by the user registered under the buyer's lower-cased address
    (created by the same call if need be), goes from that address to the
    contract, and carries the decoded amounts, the swap type and the
    receipt's status. *)
Theorem new_transaction_is_owned_by_buyer amb e w buyer ethAmount tokenAmount block tx :
  readable e buyer ethAmount tokenAmount block tx ->
  store_up amb ->
  ~ has_transaction (rc_hash tx) (transactions (db w)) ->
  let w' := snd (processSwapEvent amb e w) in
  exists user row,
    findUnique (user_key (toLowerCase buyer)) (users (db w')) = Some user
    /\ transactions (db w') = transactions (db w) ++ [row]
    /\ t_txHash row = rc_hash tx
    /\ t_userId row = Some (u_id user)
    /\ t_fromAddress row = toLowerCase buyer
    /\ t_toAddress row = toLowerCase CONTRACT_ADDRESS
    /\ t_amountInEth row = ethAmount
    /\ t_tokenAmount row = tokenAmount
    /\ t_type row = SWAP_ETH_TO_TOKEN
    /\ t_status row = (if bool_decide (rc_status tx = Some 1) then CONFIRMED else FAILED)
    /\ t_blockNumber row = Some (number block).
Proof.
  intros Hrd Hup Hnew w'.
  assert (exists user,
             findUnique (user_key (toLowerCase buyer)) (users (db w')) = Some user
             /\ transactions (db w')
                = upsert (transaction_key (rc_hash tx))
                    (transaction_create_data tx block user buyer ethAmount tokenAmount)
                    (transaction_update (transaction_update_data tx block))
                    (transactions (db w))) as (user & Hu & Ht).
  { destruct (Z.eq_dec ethAmount 0) as [->|Hne].
    - apply (processSwapEvent_zero_division amb e w _ _ _ _ Hrd Hup).
    - apply (processSwapEvent_committed amb e w _ _ _ _ _ Hrd Hup Hne). }
  exists user, (transaction_create_data tx block user buyer ethAmount tokenAmount).
  split; [exact Hu|]. split.
  - rewrite Ht. apply upsert_fresh. unfold has_transaction in Hnew.
    destruct (existsb _ _); [contradiction|reflexivity].
  - simpl. repeat split. unfold status_of.
    destruct (rc_status tx) as [[|[]|]|]; reflexivity.
Qed.

(** X16. Stopping and starting again resumes where the loop left off:
    if the cached cursor spelled the cursor before the loop ran, then
    after the loop has run over any sequence of iterations and [stop()]
    was called, [start()] at any later time launches the loop with the
    cursor the loop had reached, and with the store it left. *)
Theorem restart_resumes_at_cursor envs clock w :
  synced w ->
  let w1 := snd (indexLoop envs w) in
  let w2 := snd (stop w1) in
  exists w3,
    start clock w2 = Some (Ok true, w3)
    /\ lastProcessedBlock w3 = lastProcessedBlock w1
    /\ db w3 = db w1
    /\ isRunning w3 = true.
Proof.
  intros Hs w1 w2.
  assert (synced w1) as Hs1.
  { subst w1. induction envs as [|env envs IH] in w, Hs |- *; [exact Hs|].
    destruct (isRunning w) eqn:Hrun; [|rewrite (indexLoop_stopped _ _ Hrun); exact Hs].
    destruct (indexLoop_cons env envs w Hrun) as (c & Hc & cs & Hcs & ->). simpl.
    apply IH.
    assert (synced (snd (indexLoop_body env w))) as H1
      by (apply (synced_after_body env w c Hc); left; exact Hs).
    destruct (stop_called env); exact H1. }
  unfold synced in Hs1.
  exists (log_line LInfo "Starting blockchain indexer..." None
            (set_isRunning true w2)).
  split.
  - unfold start. subst w2. simpl. unfold_M. unfold cache_get, Cache.get. simpl.
    rewrite Hs1. simpl.
    destruct (pretty_Z_nonempty (lastProcessedBlock w1)) as (c & r & Heq). rewrite Heq.
    rewrite <- Heq, parseInt10_pretty.
    destruct w1; reflexivity.
  - repeat split.
Qed.

(** X17. A log the interface does not know ([parseLog] returns [null])
    is skipped without a trace: either handler returns at once, with no
    read of the node or the store, no write and no log line. *)
Theorem unknown_log_is_skipped_silently amb e w :
  parseLog e = Ok None ->
  processSwapEvent amb e w = (Ok tt, w)
  /\ processRateUpdateEvent amb e w = (Ok tt, w).
Proof.
  intros H.
  unfold processSwapEvent, processSwapEvent_try, processRateUpdateEvent,
    processRateUpdateEvent_try.
  unfold_M. rewrite H. split; reflexivity.
Qed.

(** X18. A handled swap drops the three cache entries that depend on
    it, 'token:metrics', 'tx:stats:summary' and 'tx:<hash>', and leaves
    every other entry alone. *)
Theorem handled_swap_invalidates_caches amb e w buyer ethAmount tokenAmount block tx :
  readable e buyer ethAmount tokenAmount block tx ->
  store_up amb ->
  ethAmount <> 0 ->
  memoryCache (snd (processSwapEvent amb e w))
  = Cache.del ("tx:" +:+ rc_hash tx)
      (Cache.del "tx:stats:summary" (Cache.del "token:metrics" (memoryCache w))).
Proof.
  intros [Hp Hb Hr] Hup Hne. unfold store_up in Hup.
  unfold processSwapEvent, processSwapEvent_try. unfold_M.
  rewrite Hp, Hb, Hr, ?Hup. simpl.
  assert (BigInt_div tokenAmount ethAmount = Ok (Z.quot tokenAmount ethAmount)) as Hdiv.
  { unfold BigInt_div. destruct (Z.eqb_spec ethAmount 0); [contradiction|reflexivity]. }
  destruct (findUnique (user_key (toLowerCase buyer)) (users (db w))) as [u|] eqn:Hfind.
  - repeat (first [rewrite Hup | rewrite Hdiv | progress simpl]). reflexivity.
  - rewrite ?Hup. cbn [db set_db]. rewrite (user_create_after_miss _ _ Hfind).
    repeat (first [rewrite Hup | rewrite Hdiv | progress simpl]). reflexivity.
Qed.

(** X19. A swap log whose handling throws invalidates nothing: the
    cache is exactly what it was, also when the throw comes after the
    [Transaction] upsert has been written. *)
Theorem failed_swap_leaves_caches_stale amb e w error :
  fst (processSwapEvent_try amb e w) = Throw error ->
  memoryCache (snd (processSwapEvent amb e w)) = memoryCache w.
Proof.
  unfold processSwapEvent, processSwapEvent_try. handler_cases; intros; simplify_eq/=;
    reflexivity.
Qed.

(** ** The analytics worker: the period windows *)

Lemma year_of_era_range doe :
  0 <= doe < 146097 ->
  let yoe := (doe - doe / 1460 + doe / 36524 - doe / 146096) / 365 in
  let doy := doe - (365 * yoe + yoe / 4 - yoe / 100) in
  0 <= yoe < 400 /\ 0 <= doy <= 365.
Proof. intros H yoe doy. subst doy yoe. Z.div_mod_to_equations. lia. Qed.

Lemma month_of_year_range doy :
  0 <= doy <= 365 ->
  let mp := (5 * doy + 2) / 153 in
  let d := doy - (153 * mp + 2) / 5 + 1 in
  0 <= mp <= 11 /\ 1 <= d <= 31.
Proof. intros H mp d. subst d mp. Z.div_mod_to_equations. lia. Qed.

(** The two calendar functions are inverse on every day number, with a
    month in 1..12 and a day of the month in 1..31. *)
Lemma calendar_round_trip z :
  let '(y, m, d) := civil_from_days z in
  days_from_civil y m d = z /\ 1 <= m <= 12 /\ 1 <= d <= 31.
Proof.
  unfold civil_from_days. cbv zeta.
  set (X := z + 719468). set (E := X / 146097). set (doe := X - E * 146097).
  assert (0 <= doe < 146097) as Hdoe by (subst doe E; Z.div_mod_to_equations; lia).
  destruct (year_of_era_range doe Hdoe) as [Hyoe Hdoy]. cbv zeta in Hyoe, Hdoy.
  set (yoe := (doe - doe / 1460 + doe / 36524 - doe / 146096) / 365) in *.
  set (doy := doe - (365 * yoe + yoe / 4 - yoe / 100)) in *.
  destruct (month_of_year_range doy Hdoy) as [Hmp Hd]. cbv zeta in Hmp, Hd.
  set (mp := (5 * doy + 2) / 153) in *.
  set (d := doy - (153 * mp + 2) / 5 + 1) in *.
  unfold days_from_civil. cbv zeta.
  assert ((yoe + E * 400) / 400 = E) as Hera
    by (rewrite Z.div_add by discriminate; rewrite Z.div_small by lia; ring).
  destruct (Z.ltb_spec mp 10) as [Hlt|Hge].
  - destruct (Z.leb_spec (mp + 3) 2) as [?|_]; [lia|].
    destruct (Z.ltb_spec 2 (mp + 3)) as [_|?]; [|lia].
    replace (mp + 3 - 3) with mp by ring.
    rewrite Hera. replace (yoe + E * 400 - E * 400) with yoe by ring.
    split; [|lia]. subst d doy doe X. ring.
  - destruct (Z.leb_spec (mp - 9) 2) as [_|?]; [|lia].
    destruct (Z.ltb_spec 2 (mp - 9)) as [?|_]; [lia|].
    replace (mp - 9 + 9) with mp by ring.
    replace (yoe + E * 400 + 1 - 1) with (yoe + E * 400) by ring.
    rewrite Hera. replace (yoe + E * 400 - E * 400) with yoe by ring.
    split; [|lia]. subst d doy doe X. ring.
Qed.

Lemma days_from_civil_day y m d k :
  days_from_civil y m (d - k) = days_from_civil y m d - k.
Proof. unfold days_from_civil. cbv zeta. ring. Qed.

Lemma Day_of_civil t :
  days_from_civil (YearFromTime t) (MonthFromTime t + 1) (DateFromTime t) = Day t.
Proof.
  unfold YearFromTime, MonthFromTime, DateFromTime.
  pose proof (calendar_round_trip (Day t)) as H.
  destruct (civil_from_days (Day t)) as [[y m] d]. simpl.
  replace (m - 1 + 1) with m by ring. apply H.
Qed.

Lemma time_decomposition t : t = Day t * msPerDay + TimeWithinDay t.
Proof.
  unfold Day, TimeWithinDay.
  pose proof (Z.div_mod t msPerDay ltac:(discriminate)). lia.
Qed.

(** [d.setDate(d.getDate() - k)] moves [d] back by [k] days. *)
Lemma setDate_back t k :
  MakeDate (YearFromTime t) (MonthFromTime t) (DateFromTime t - k) + TimeWithinDay t
  = t - k * msPerDay.
Proof.
  unfold MakeDate. rewrite days_from_civil_day, Day_of_civil.
  pose proof (time_decomposition t). lia.
Qed.

Lemma TimeWithinDay_back t k : TimeWithinDay (t - k * msPerDay) = TimeWithinDay t.
Proof.
  unfold TimeWithinDay.
  replace (t - k * msPerDay) with (t + (- k) * msPerDay) by ring.
  apply Z.mod_add. discriminate.
Qed.

Lemma Day_back t k : Day (t - k * msPerDay) = Day t - k.
Proof.
  unfold Day.
  replace (t - k * msPerDay) with (t + (- k) * msPerDay) by ring.
  rewrite Z.div_add by discriminate. ring.
Qed.

Lemma periodBounds_WEEKLY clock :
  let sunday := clock - WeekDay clock * msPerDay in
  periodBounds WEEKLY clock = (sunday - TimeWithinDay clock, sunday, sunday).
Proof.
  intros sunday.
  assert (periodBounds WEEKLY clock
          = (let v := MakeDate (YearFromTime clock) (MonthFromTime clock)
                        (DateFromTime clock - WeekDay clock) + TimeWithinDay clock in
             (v - TimeWithinDay v, v, v))) as -> by reflexivity.
  cbv zeta. rewrite setDate_back, TimeWithinDay_back. reflexivity.
Qed.

Lemma window_spec period clock tbl s :
  In s (window period clock tbl)
  <-> In s tbl
      /\ fst (fst (periodBounds period clock)) <= s_createdAt s
         <= snd (fst (periodBounds period clock)).
Proof.
  unfold window. destruct (periodBounds period clock) as [[ps pe] nw]. simpl.
  unfold findMany_createdAt. rewrite filter_In, andb_true_iff, !Z.leb_le. tauto.
Qed.

(** X20. On a host whose time zone is UTC, the weekly window is a
    stretch of the Sunday that began the week, from its midnight to the
    time of day of the calculation: [now.setDate(...)] moves [now] back
    to that Sunday, and [periodEnd] is the same object.  So the swaps
    selected are those recorded on that Sunday up to that time of day,
    and none recorded later in the week. *)
Theorem weekly_window_is_within_sunday clock tbl s :
  let sunday := clock - WeekDay clock * msPerDay in
  WeekDay sunday = 0
  /\ sunday <= clock
  /\ TimeWithinDay sunday = TimeWithinDay clock
  /\ (In s (window WEEKLY clock tbl)
      <-> In s tbl /\ sunday - TimeWithinDay clock <= s_createdAt s <= sunday).
Proof.
  intros sunday. subst sunday. split; [|split; [|split]].
  - unfold WeekDay at 1. rewrite Day_back. unfold WeekDay.
    Z.div_mod_to_equations. lia.
  - unfold WeekDay, msPerDay. Z.div_mod_to_equations. lia.
  - apply TimeWithinDay_back.
  - rewrite window_spec, periodBounds_WEEKLY. reflexivity.
Qed.

(** X21. On a host whose time zone is UTC and from the year 100 on
    (the [Date] constructor reads a year from 0 to 99 as 1900 + year),
    the monthly window runs from midnight of the first day of the month
    of the calculation to the instant of the calculation, and the
    all-time window from the epoch to that instant. *)
Theorem monthly_window_starts_on_the_first clock tbl s :
  100 <= YearFromTime clock ->
  let first := clock - (DateFromTime clock - 1) * msPerDay - TimeWithinDay clock in
  1 <= DateFromTime clock <= 31
  /\ first <= clock
  /\ (In s (window MONTHLY clock tbl)
      <-> In s tbl /\ first <= s_createdAt s <= clock)
  /\ (In s (window ALL_TIME clock tbl)
      <-> In s tbl /\ 0 <= s_createdAt s <= clock).
Proof.
  intros Hyear first.
  assert (1 <= DateFromTime clock <= 31) as Hd.
  { unfold DateFromTime. pose proof (calendar_round_trip (Day clock)) as H.
    destruct (civil_from_days (Day clock)) as [[y m] d]. simpl. tauto. }
  assert (0 <= TimeWithinDay clock) as Ht
    by (unfold TimeWithinDay, msPerDay; Z.div_mod_to_equations; lia).
  split; [exact Hd|]. split; [subst first; unfold msPerDay; lia|]. split.
  - assert (Date_of_fields (YearFromTime clock) (MonthFromTime clock) 1 = first) as Hfirst.
    { unfold Date_of_fields.
      destruct (Z.leb_spec (YearFromTime clock) 99) as [?|_]; [lia|].
      rewrite andb_false_r. unfold MakeDate.
      pose proof (days_from_civil_day (YearFromTime clock) (MonthFromTime clock + 1)
                    (DateFromTime clock) (DateFromTime clock - 1)) as H.
      replace (DateFromTime clock - (DateFromTime clock - 1)) with 1 in H by ring.
      rewrite H, Day_of_civil. subst first.
      pose proof (time_decomposition clock). lia. }
    rewrite window_spec, periodBounds_MONTHLY. cbn [fst snd]. rewrite Hfirst.
    reflexivity.
  - rewrite window_spec, periodBounds_ALL_TIME. reflexivity.
Qed.

(** ** The analytics worker: aggregation and ranking *)

Lemma Map_get_set k v m a :
  Map_get a (Map_set k v m) = if String.eqb k a then Some v else Map_get a m.
Proof.
  induction m as [|[k' v'] m IH]; simpl.
  - destruct (String.eqb k a); reflexivity.
  - destruct (String.eqb_spec k' k) as [->|Hk]; simpl.
    + destruct (String.eqb k a); reflexivity.
    + destruct (String.eqb_spec k' a) as [->|Ha].
      * destruct (String.eqb_spec k a) as [->|_]; [contradiction|reflexivity].
      * exact IH.
Qed.

Lemma sum_app f (l l' : list SwapEvent) : sum f (l ++ l') = sum f l + sum f l'.
Proof.
  unfold sum. induction l as [|x l IH]; simpl; [reflexivity|]. rewrite IH. ring.
Qed.

Lemma aggregate_snoc swaps s :
  aggregate (swaps ++ [s]) = aggregate_step (aggregate swaps) s.
Proof. unfold aggregate. rewrite foldl_app. reflexivity. Qed.

(** What the aggregation holds for a wallet: nothing when it has no
    swap among the selected ones, else its number of swaps and the sums
    of its amounts. *)
Lemma aggregate_get swaps a :
  Map_get a (aggregate swaps)
  = match swaps_of a swaps with
    | [] => None
    | _ :: _ => Some (stats_of a swaps)
    end.
Proof.
  induction swaps as [|s swaps IH] using rev_ind; [reflexivity|].
  rewrite aggregate_snoc. unfold aggregate_step. rewrite Map_get_set.
  unfold stats_of, swaps_of in *. rewrite List.filter_app. simpl.
  destruct (String.eqb_spec (toLowerCase (s_buyer s)) a) as [Heq|Hne].
  - rewrite Heq, IH.
    set (mine := List.filter (fun s0 => String.eqb (toLowerCase (s_buyer s0)) a) swaps).
    rewrite length_app, !sum_app. unfold sum at 2 4. simpl.
    destruct mine as [|x mine]; simpl; f_equal; f_equal; unfold sum; simpl; lia.
  - rewrite app_nil_r. exact IH.
Qed.

Lemma Map_get_In m a st :
  NoDup (map fst m) -> In (a, st) m -> Map_get a m = Some st.
Proof.
  induction m as [|[k v] m IH]; simpl; intros Hnd Hin; [destruct Hin|].
  apply NoDup_cons in Hnd as [Hnin Hnd]. rewrite list_elem_of_In in Hnin.
  destruct Hin as [Heq|Hin].
  - inversion Heq; subst. rewrite String.eqb_refl. reflexivity.
  - destruct (String.eqb_spec k a) as [->|_]; [|auto].
    exfalso. apply Hnin. apply in_map_iff. exists (a, st). auto.
Qed.

Lemma Map_get_Some_In m a st : Map_get a m = Some st -> In (a, st) m.
Proof.
  induction m as [|[k v] m IH]; simpl; [discriminate|].
  destruct (String.eqb_spec k a) as [->|_].
  - intros [= ->]. left. reflexivity.
  - intros H. right. auto.
Qed.

(** The comparator orders by decreasing ETH volume. *)
Lemma compareVolume_le x y :
  (compareVolume x y <=? 0) = (totalVolumeEth (snd y) <=? totalVolumeEth (snd x)).
Proof.
  unfold compareVolume.
  destruct (Z.ltb_spec (totalVolumeEth (snd y)) (totalVolumeEth (snd x)));
    destruct (Z.ltb_spec (totalVolumeEth (snd x)) (totalVolumeEth (snd y)));
    destruct (Z.leb_spec (totalVolumeEth (snd y)) (totalVolumeEth (snd x)));
    simpl; try reflexivity; lia.
Qed.

Lemma sort_insert_sorted x l :
  StronglySorted (fun a b => totalVolumeEth (snd b) <= totalVolumeEth (snd a)) l ->
  StronglySorted (fun a b => totalVolumeEth (snd b) <= totalVolumeEth (snd a))
    (sort_insert x l).
Proof.
  induction l as [|y l IH]; simpl; intros Hs.
  - constructor; constructor.
  - rewrite compareVolume_le.
    apply StronglySorted_inv in Hs as [Hs Hall].
    destruct (Z.leb_spec (totalVolumeEth (snd y)) (totalVolumeEth (snd x))) as [Hle|Hlt].
    + constructor; [constructor; assumption|].
      constructor; [exact Hle|].
      eapply Forall_impl; [exact Hall|]. simpl. intros z Hz. lia.
    + constructor; [apply IH; exact Hs|].
      apply List.Forall_forall. intros z Hz.
      apply (Permutation_in _ (sort_insert_perm x l)) in Hz.
      destruct Hz as [<-|Hz]; [lia|].
      rewrite List.Forall_forall in Hall. apply Hall. exact Hz.
Qed.

Lemma sort_sorted l :
  StronglySorted (fun a b => totalVolumeEth (snd b) <= totalVolumeEth (snd a)) (sort l).
Proof.
  unfold sort. induction l as [|x l IH]; simpl; [constructor|].
  apply sort_insert_sorted. exact IH.
Qed.

Lemma StronglySorted_lookup {A} (R : A -> A -> Prop) (l : list A) i j x y :
  StronglySorted R l -> (i < j)%nat -> l !! i = Some x -> l !! j = Some y -> R x y.
Proof.
  intros Hs. revert i j. induction Hs as [|a l Hs IH Hall]; intros i j Hij Hi Hj.
  - discriminate.
  - destruct j as [|j]; [lia|]. simpl in Hj.
    destruct i as [|i]; simpl in Hi.
    + inversion Hi; subst. rewrite List.Forall_forall in Hall. apply Hall.
      apply list_elem_of_In. eapply list_elem_of_lookup_2. exact Hj.
    + apply (IH i j); [lia|assumption|assumption].
Qed.

(** Every row handed to the saving loop is found afterwards under its
    key with the rank and the totals it was handed over with. *)
Lemma saved_row period periodStart now es w e :
  NoDup (map l_walletAddress es) ->
  Forall (same_period period periodStart) es ->
  In e es ->
  exists row,
    findUnique (leaderboard_key period (l_walletAddress e) periodStart)
      (leaderboard (db (saved now es w))) = Some row
    /\ l_rank row = l_rank e
    /\ l_totalSwaps row = l_totalSwaps e
    /\ l_totalVolumeEth row = l_totalVolumeEth e
    /\ l_totalVolumeTokens row = l_totalVolumeTokens e.
Proof.
  revert w. induction es as [|e0 es IH]; intros w Hnd Hall Hin; [destruct Hin|].
  simpl in Hnd. apply NoDup_cons in Hnd as [Hnin Hnd'].
  apply Forall_cons in Hall as [[Hp Hs] Hall'].
  destruct Hin as [->|Hin].
  - change (saved now (e :: es) w) with (saved now es (snd (leaderboard_upsert now e w))).
    rewrite list_elem_of_In in Hnin.
    rewrite (saved_other_wallet period periodStart now es _ _ Hnin). simpl.
    unfold findUnique. rewrite <- Hp, <- Hs.
    destruct (find_upsert_same
                (leaderboard_key (l_period e) (l_walletAddress e) (l_periodStart e))
                (leaderboard_update e now) (fun r => eq_refl) e (leaderboard (db w))
                (leaderboard_key_refl e)) as [H|[r H]];
      rewrite H; eexists; (split; [reflexivity|]); repeat split.
  - apply (IH (snd (leaderboard_upsert now e0 w)) Hnd' Hall' Hin).
Qed.

(** A wallet with a swap in the window has a place on the board, and
    the row stored for it carries that place and its totals. *)
Lemma board_row period clock w a :
  let periodStart := fst (fst (periodBounds period clock)) in
  let swaps := window period clock (swapEvents (db w)) in
  let w' := snd (calculateLeaderboardForPeriod period clock w) in
  swaps_of a swaps <> [] ->
  exists i row,
    sort (aggregate swaps) !! i = Some (a, stats_of a swaps)
    /\ findUnique (leaderboard_key period a periodStart) (leaderboard (db w')) = Some row
    /\ l_rank row = Z.of_nat i + 1
    /\ l_totalSwaps row = totalSwaps (stats_of a swaps)
    /\ l_totalVolumeEth row = totalVolumeEth (stats_of a swaps)
    /\ l_totalVolumeTokens row = totalVolumeTokens (stats_of a swaps).
Proof.
  intros periodStart swaps w' Hmine.
  subst w'. rewrite calculateLeaderboardForPeriod_db.
  subst swaps periodStart. unfold window in *.
  destruct (periodBounds period clock) as [[ps pe] nw]. simpl in *.
  set (swaps := findMany_createdAt ps pe (swapEvents (db w))) in *.
  pose proof (aggregate_get swaps a) as Hget.
  destruct (swaps_of a swaps) as [|s0 mine] eqn:Hm; [contradiction|].
  rewrite <- Hm in *. clear Hm.
  apply Map_get_Some_In in Hget.
  apply (Permutation_in _ (Permutation_sym (sort_perm _))) in Hget.
  apply list_elem_of_In, list_elem_of_lookup_1 in Hget as [i Hi].
  set (es := imap (entry_of period ps pe) (sort (aggregate swaps))).
  assert (In (entry_of period ps pe i (a, stats_of a swaps)) es) as Hin.
  { apply list_elem_of_In. apply list_elem_of_lookup_2 with i.
    subst es. rewrite list_lookup_imap, Hi. reflexivity. }
  assert (NoDup (map l_walletAddress es)) as Hnd.
  { subst es. rewrite entries_wallets. apply (sorted_wallets swaps). }
  destruct (saved_row period ps nw es w _ Hnd (entries_same_period _ _ _ _) Hin)
    as (row & Hrow & Hr & H1 & H2 & H3).
  exists i, row. split; [exact Hi|]. split; [exact Hrow|]. auto.
Qed.

(** X22. After a calculation during which the store answers, the row
    stored for a wallet that has a swap in the window carries the
    wallet's number of swaps in the window and the sums of the ETH paid
    and of the tokens bought in them, the buyer addresses being
    compared in lower case. *)
Theorem leaderboard_totals_are_the_wallet_sums period clock w a :
  let periodStart := fst (fst (periodBounds period clock)) in
  let mine := swaps_of a (window period clock (swapEvents (db w))) in
  let w' := snd (calculateLeaderboardForPeriod period clock w) in
  mine <> [] ->
  exists row,
    findUnique (leaderboard_key period a periodStart) (leaderboard (db w')) = Some row
    /\ l_totalSwaps row = Z.of_nat (length mine)
    /\ l_totalVolumeEth row = sum s_ethAmount mine
    /\ l_totalVolumeTokens row = sum s_tokenAmount mine.
Proof.
  intros periodStart mine w' Hmine.
  destruct (board_row period clock w a Hmine) as (i & row & _ & Hrow & _ & H1 & H2 & H3).
  exists row. split; [exact Hrow|]. auto.
Qed.

(** X23. Ranks follow the ETH volume: after a calculation during which
    the store answers, of two wallets with swaps in the window, the one
    stored with the smaller rank has at least the ETH volume of the
    other. *)
Theorem leaderboard_rank_follows_volume period clock w a b ra rb :
  let periodStart := fst (fst (periodBounds period clock)) in
  let swaps := window period clock (swapEvents (db w)) in
  let board := leaderboard (db (snd (calculateLeaderboardForPeriod period clock w))) in
  swaps_of a swaps <> [] ->
  swaps_of b swaps <> [] ->
  findUnique (leaderboard_key period a periodStart) board = Some ra ->
  findUnique (leaderboard_key period b periodStart) board = Some rb ->
  l_rank ra < l_rank rb ->
  l_totalVolumeEth rb <= l_totalVolumeEth ra.
Proof.
  intros periodStart swaps board Ha Hb Hra Hrb Hlt.
  destruct (board_row period clock w a Ha) as (i & ra' & Hi & Hra' & Hri & _ & Hva & _).
  destruct (board_row period clock w b Hb) as (j & rb' & Hj & Hrb' & Hrj & _ & Hvb & _).
  fold periodStart swaps in Hi, Hj, Hra', Hrb', Hva, Hvb.
  subst board. rewrite Hra in Hra'. rewrite Hrb in Hrb'.
  inversion Hra'; subst ra'. inversion Hrb'; subst rb'.
  rewrite Hva, Hvb.
  assert (i < j)%nat as Hij by lia.
  exact (StronglySorted_lookup _ _ i j _ _ (sort_sorted (aggregate swaps)) Hij Hi Hj).
Qed.

(** ** The analytics worker: what a tick leaves behind *)

Lemma sort_nil_iff swaps : sort (aggregate swaps) = [] <-> swaps = [].
Proof.
  split; [|intros ->; reflexivity].
  intros Hnil. destruct swaps as [|s swaps]; [reflexivity|]. exfalso.
  destruct (sorted_wallets (s :: swaps)) as (_ & Hin & _). cbv zeta in Hin.
  rewrite Hnil in Hin.
  apply (Hin (toLowerCase (s_buyer s))). exists s. split; [left|]; reflexivity.
Qed.

(** With no swap in the window nothing is stored and the empty board
    is cached. *)
Lemma calculateLeaderboardForPeriod_empty period clock w :
  window period clock (swapEvents (db w)) = [] ->
  calculateLeaderboardForPeriod period clock w
  = (Ok tt,
     set_memoryCache
       (Cache.set ("leaderboard:" +:+ period_name period) "[]" (Some 300) clock) w).
Proof.
  unfold window, calculateLeaderboardForPeriod.
  destruct (periodBounds period clock) as [[ps pe] nw].
  intros H. unfold bind at 1, gets at 1. rewrite H. reflexivity.
Qed.

(** With a swap in the window the rows are stored, and serialising the
    board for the cache throws. *)
Lemma calculateLeaderboardForPeriod_nonempty period clock w :
  window period clock (swapEvents (db w)) <> [] ->
  calculateLeaderboardForPeriod period clock w
  = (Throw TypeError,
     let '(periodStart, periodEnd, now) := periodBounds period clock in
     saved now
       (imap (entry_of period periodStart periodEnd)
          (sort (aggregate (findMany_createdAt periodStart periodEnd (swapEvents (db w))))))
       w).
Proof.
  unfold window, calculateLeaderboardForPeriod.
  destruct (periodBounds period clock) as [[ps pe] nw].
  intros H. unfold bind at 1, gets at 1. unfold bind at 1.
  rewrite for_of_handlers by reflexivity.
  rewrite <- sort_nil_iff in H.
  destruct (sort (aggregate (findMany_createdAt ps pe (swapEvents (db w))))) as [|x l];
    [contradiction|].
  reflexivity.
Qed.

Lemma saved_ind (P : World -> Prop) now es w :
  (forall e w, P w -> P (snd (leaderboard_upsert now e w))) ->
  P w -> P (saved now es w).
Proof.
  intros Hstep. unfold saved. revert w.
  induction es as [|e es IH]; intros w Hw; simpl; [exact Hw|].
  apply IH, Hstep, Hw.
Qed.

Lemma saved_keeps_world now es w :
  memoryCache (saved now es w) = memoryCache w
  /\ logged (saved now es w) = logged w
  /\ lastProcessedBlock (saved now es w) = lastProcessedBlock w
  /\ isRunning (saved now es w) = isRunning w
  /\ users (db (saved now es w)) = users (db w)
  /\ transactions (db (saved now es w)) = transactions (db w)
  /\ swapEvents (db (saved now es w)) = swapEvents (db w)
  /\ rateUpdates (db (saved now es w)) = rateUpdates (db w)
  /\ tokenMetrics (db (saved now es w)) = tokenMetrics (db w).
Proof.
  apply (saved_ind
           (fun w' =>
              memoryCache w' = memoryCache w
              /\ logged w' = logged w
              /\ lastProcessedBlock w' = lastProcessedBlock w
              /\ isRunning w' = isRunning w
              /\ users (db w') = users (db w)
              /\ transactions (db w') = transactions (db w)
              /\ swapEvents (db w') = swapEvents (db w)
              /\ rateUpdates (db w') = rateUpdates (db w)
              /\ tokenMetrics (db w') = tokenMetrics (db w))).
  - intros e w1 H. exact H.
  - repeat split.
Qed.

Lemma saved_db_congr now es w0 w :
  db w0 = db w -> db (saved now es w0) = db (saved now es w).
Proof.
  unfold saved. revert w0 w.
  induction es as [|e es IH]; intros w0 w Hdb; simpl; [exact Hdb|].
  apply IH. simpl. rewrite Hdb. reflexivity.
Qed.

(** X24. The leaderboard cache only ever receives the empty board.
    While the store answers, a calculation over an empty window stores
    nothing and caches '[]' for 300 seconds; a calculation over a
    non-empty window stores its rows and then throws a TypeError (the
    board carries BigInt totals, which JSON.stringify refuses), leaving
    the cache and the log as they were. *)
Theorem leaderboard_cache_only_receives_the_empty_board period clock w :
  let swaps := window period clock (swapEvents (db w)) in
  let w' := snd (calculateLeaderboardForPeriod period clock w) in
  (swaps = [] ->
   calculateLeaderboardForPeriod period clock w
   = (Ok tt,
      set_memoryCache
        (Cache.set ("leaderboard:" +:+ period_name period) "[]" (Some 300) clock) w))
  /\ (swaps <> [] ->
      fst (calculateLeaderboardForPeriod period clock w) = Throw TypeError
      /\ memoryCache w' = memoryCache w
      /\ logged w' = logged w).
Proof.
  intros swaps w'. split.
  - apply calculateLeaderboardForPeriod_empty.
  - intros H. subst w'. rewrite (calculateLeaderboardForPeriod_nonempty _ _ _ H).
    destruct (periodBounds period clock) as [[ps pe] nw]. simpl.
    split; [reflexivity|]. split; apply saved_keeps_world.
Qed.

Section UpsertFilter.

Context {A : Type}.
Variable is_key : A -> bool.
Variable update : A -> A.

(** An upsert leaves alone the rows a predicate selects, when the
  predicate rejects the rows under the key and the created row. *)
Lemma filter_upsert_other (p : A -> bool) create tbl :
(forall r, is_key r = true -> p r = false) ->
(forall r, p (update r) = p r) ->
p create = false ->
List.filter p (Prisma.upsert is_key create update tbl) = List.filter p tbl.
Proof.
intros Hkey Hup Hc. induction tbl as [|r tbl IH]; simpl.
- rewrite Hc. reflexivity.
- destruct (is_key r) eqn:Hr; simpl.
  + rewrite Hup, (Hkey _ Hr). reflexivity.
  + rewrite IH. reflexivity.
Qed.

End UpsertFilter.

Lemma period_eqb_eq p q : period_eqb p q = true <-> p = q.
Proof. destruct p, q; simpl; split; intros; congruence. Qed.

Lemma saved_keeps_other_periods period periodStart now es w q :
  Forall (same_period period periodStart) es ->
  q <> period ->
  List.filter (of_period q) (leaderboard (db (saved now es w)))
  = List.filter (of_period q) (leaderboard (db w)).
Proof.
  intros Hall Hq. unfold saved. revert w.
  induction Hall as [|e es [Hp Hs] Hall IH]; intros w; simpl; [reflexivity|].
  rewrite IH. simpl. apply filter_upsert_other.
  - intros r Hr. unfold leaderboard_key in Hr.
    apply andb_true_iff in Hr as [Hr _]. apply andb_true_iff in Hr as [Hr _].
    apply period_eqb_eq in Hr. unfold of_period.
    destruct (period_eqb (l_period r) q) eqn:Hrq; [|reflexivity].
    apply period_eqb_eq in Hrq. congruence.
  - reflexivity.
  - unfold of_period. destruct (period_eqb (l_period e) q) eqn:Heq; [|reflexivity].
    apply period_eqb_eq in Heq. congruence.
Qed.

Lemma calculateLeaderboardForPeriod_other_periods period clock w q :
  q <> period ->
  List.filter (of_period q)
    (leaderboard (db (snd (calculateLeaderboardForPeriod period clock w))))
  = List.filter (of_period q) (leaderboard (db w)).
Proof.
  intros Hq. rewrite calculateLeaderboardForPeriod_db.
  destruct (periodBounds period clock) as [[ps pe] nw].
  apply (saved_keeps_other_periods period ps); [apply entries_same_period|exact Hq].
Qed.

Lemma calculateLeaderboards_unfold clock w :
  calculateLeaderboards clock w
  = match for_of [DAILY; WEEKLY; MONTHLY; ALL_TIME]
            (fun period => calculateLeaderboardForPeriod period (clock period))
            (log_line LInfo "Calculating leaderboards..." None w) with
    | (Ok _, w1) =>
        (Ok tt, log_line LInfo "Leaderboards calculated successfully" None w1)
    | (Throw e, w1) =>
        (Ok tt, log_line LError "Error calculating leaderboards:" (Some e) w1)
    end.
Proof.
  unfold calculateLeaderboards, try_catch, bind, logger_info, logger_error, modify,
    log_line.
  destruct (for_of _ _ _) as [[[]|e] w1]; reflexivity.
Qed.

Lemma for_of_stops {A} (body : A -> M unit) done x rest w w1 w2 e :
  for_of done body w = (Ok tt, w1) ->
  body x w1 = (Throw e, w2) ->
  for_of (done ++ x :: rest) body w = (Throw e, w2).
Proof.
  revert w. induction done as [|y done IH]; intros w Hdone Hx; simpl in *.
  - inversion Hdone; subst. unfold bind. rewrite Hx. reflexivity.
  - unfold bind in *. destruct (body y w) as [[[]|e'] w'].
    + apply IH; assumption.
    + discriminate.
Qed.

Lemma leaderboard_key_name_inj p q :
  "leaderboard:" +:+ period_name p = "leaderboard:" +:+ period_name q -> p = q.
Proof. destruct p, q; simpl; intros H; try reflexivity; discriminate H. Qed.

(** The periods whose window is empty leave the store and the log as
    they are and cache an empty board each. *)
Lemma empty_periods clock w w0 done :
  db w0 = db w ->
  (forall q, In q done -> window q (clock q) (swapEvents (db w)) = []) ->
  exists w1,
    for_of done (fun period => calculateLeaderboardForPeriod period (clock period)) w0
    = (Ok tt, w1)
    /\ db w1 = db w
    /\ logged w1 = logged w0
    /\ lastProcessedBlock w1 = lastProcessedBlock w0
    /\ isRunning w1 = isRunning w0
    /\ (forall q, ~ In q done ->
          memoryCache w1 !! ("leaderboard:" +:+ period_name q)
          = memoryCache w0 !! ("leaderboard:" +:+ period_name q)).
Proof.
  revert w0. induction done as [|q done IH]; intros w0 Hdb Hdone.
  - exists w0. simpl. split; [reflexivity|]. split; [exact Hdb|]. repeat split.
  - simpl. unfold bind.
    rewrite (calculateLeaderboardForPeriod_empty q (clock q) w0)
      by (rewrite Hdb; apply Hdone; left; reflexivity).
    set (w1 := set_memoryCache _ w0).
    destruct (IH w1 Hdb (fun q' H => Hdone q' (or_intror H)))
      as (w2 & Hrun & Hdb2 & Hlog & Hcur & Hir & Hother).
    exists w2. split; [exact Hrun|]. split; [exact Hdb2|].
    split; [exact Hlog|]. split; [exact Hcur|]. split; [exact Hir|].
    intros q' Hnin. rewrite Hother by (intros H; apply Hnin; right; exact H).
    subst w1. simpl. unfold Cache.set. apply lookup_insert_ne.
    intros Heq. apply leaderboard_key_name_inj in Heq. apply Hnin. left. exact Heq.
Qed.

(** X25. While the store answers, the hourly tick stops at the first
    period whose window holds a swap: the windows before it being
    empty, it stores the rows of that period, and the TypeError of its
    serialisation ends the tick, so the periods after it are not
    calculated.  Only rows of that one
    period are written, the cache entries of that period and of the
    later ones are not touched, and the tick logs its start and the
    error, never the success line. *)
Theorem leaderboard_tick_stops_at_first_nonempty_window clock w done p rest :
  [DAILY; WEEKLY; MONTHLY; ALL_TIME] = done ++ p :: rest ->
  (forall q, In q done -> window q (clock q) (swapEvents (db w)) = []) ->
  window p (clock p) (swapEvents (db w)) <> [] ->
  let w' := snd (calculateLeaderboards clock w) in
  fst (calculateLeaderboards clock w) = Ok tt
  /\ (forall q, q <> p ->
        List.filter (of_period q) (leaderboard (db w'))
        = List.filter (of_period q) (leaderboard (db w)))
  /\ leaderboard (db w')
     = leaderboard (db (snd (calculateLeaderboardForPeriod p (clock p) w)))
  /\ (forall q, In q (p :: rest) ->
        memoryCache w' !! ("leaderboard:" +:+ period_name q)
        = memoryCache w !! ("leaderboard:" +:+ period_name q))
  /\ logged w'
     = logged w ++ [mkLogLine LInfo "Calculating leaderboards..." None;
                    mkLogLine LError "Error calculating leaderboards:" (Some TypeError)].
Proof.
  intros Hsplit Hdone Hp w'.
  set (w0 := log_line LInfo "Calculating leaderboards..." None w).
  destruct (empty_periods clock w w0 done eq_refl Hdone)
    as (w1 & Hrun & Hdb1 & Hlog1 & _ & _ & Hother).
  assert (window p (clock p) (swapEvents (db w1)) <> []) as Hp1 by (rewrite Hdb1; exact Hp).
  pose proof (calculateLeaderboardForPeriod_nonempty p (clock p) w1 Hp1) as Hthrow.
  pose proof (for_of_stops _ done p rest w0 w1 _ _ Hrun Hthrow) as Hfor.
  subst w'. rewrite calculateLeaderboards_unfold. fold w0. rewrite Hsplit, Hfor.
  destruct (periodBounds p (clock p)) as [[ps pe] nw] eqn:Hpb.
  cbn [fst snd].
  set (es := imap (entry_of p ps pe)
               (sort (aggregate (findMany_createdAt ps pe (swapEvents (db w1)))))).
  assert (db (saved nw es w1) = db (snd (calculateLeaderboardForPeriod p (clock p) w)))
    as Hsame.
  { rewrite calculateLeaderboardForPeriod_db, Hpb. subst es. rewrite Hdb1.
    apply saved_db_congr. exact Hdb1. }
  destruct (saved_keeps_world nw es w1) as (Hc & Hl & _).
  split; [reflexivity|]. split; [|split; [|split]].
  - intros q Hq. simpl. rewrite Hsame.
    apply calculateLeaderboardForPeriod_other_periods. exact Hq.
  - simpl. rewrite Hsame. reflexivity.
  - intros q Hq. simpl. rewrite Hc. rewrite Hother; [reflexivity|].
    intros Hin.
    assert (NoDup (done ++ p :: rest)) as Hnd.
    { rewrite <- Hsplit. repeat constructor; rewrite list_elem_of_In; simpl;
        intuition discriminate. }
    apply NoDup_app in Hnd as (_ & Hdisj & _).
    apply (Hdisj q); apply list_elem_of_In; assumption.
  - simpl. rewrite Hl, Hlog1. subst w0. simpl. rewrite <- app_assoc. reflexivity.
Qed.

(** ** The analytics worker: the metrics snapshot *)

Lemma findFirst_latest_from a tbl :
  exists r,
    foldl (fun acc s =>
             match acc with
             | None => Some s
             | Some a => if s_createdAt a <? s_createdAt s then Some s else Some a
             end) (Some a) tbl = Some r
    /\ In r (a :: tbl)
    /\ forall s, In s (a :: tbl) -> s_createdAt s <= s_createdAt r.
Proof.
  revert a. induction tbl as [|x tbl IH]; intros a.
  - exists a. simpl. split; [reflexivity|]. split; [auto|].
    intros s [<-|[]]. lia.
  - simpl. destruct (Z.ltb_spec (s_createdAt a) (s_createdAt x)) as [Hlt|Hge].
    + destruct (IH x) as (r & Hr & Hin & Hmax). exists r.
      split; [exact Hr|]. split; [right; exact Hin|].
      intros s [<-|Hs]; [|apply Hmax; exact Hs].
      specialize (Hmax x (or_introl eq_refl)). lia.
    + destruct (IH a) as (r & Hr & Hin & Hmax). exists r.
      split; [exact Hr|]. split.
      * destruct Hin as [<-|Hin]; [left; reflexivity|right; right; exact Hin].
      * intros s [<-|[<-|Hs]].
        -- apply Hmax. left. reflexivity.
        -- specialize (Hmax a (or_introl eq_refl)). lia.
        -- apply Hmax. right. exact Hs.
Qed.

(** [findFirst] with [orderBy: {createdAt: 'desc'}] returns a row of
    greatest [createdAt]. *)
Lemma findFirst_latest_spec tbl :
  tbl <> [] ->
  exists latest,
    findFirst_latest tbl = Some latest
    /\ In latest tbl
    /\ forall s, In s tbl -> s_createdAt s <= s_createdAt latest.
Proof.
  destruct tbl as [|a tbl]; [contradiction|]. intros _.
  apply findFirst_latest_from.
Qed.

(** The tick over a non-empty table: the snapshot is appended, its
    serialisation throws, and the [catch] logs the error. *)
Lemma calculateMetrics_with_swaps clock w latest :
  findFirst_latest (swapEvents (db w)) = Some latest ->
  calculateMetrics clock w
  = (Ok tt,
     log_line LError "Error calculating metrics:" (Some TypeError)
       (set_db
          (set_tokenMetrics
             (fun t =>
                t ++ [mkTokenMetrics clock 1000000000000000000000000000 getContractBalance
                        (Z.of_nat (length (swapEvents (db w))))
                        (sum s_ethAmount (swapEvents (db w)))
                        (sum s_tokenAmount (swapEvents (db w)))
                        (Z.of_nat (length (groupBy_buyer (swapEvents (db w)))))
                        (s_tokensPerEth latest)
                        (priceInEth (s_tokensPerEth latest))]))
          (log_line LInfo "Calculating token metrics..." None w))).
Proof.
  intros Hl. unfold calculateMetrics. unfold_M. simpl. rewrite Hl. reflexivity.
Qed.

(** X26. While the store answers, a metrics tick over a non-empty
    [SwapEvent] table appends one snapshot: it is stamped with the
    clock, counts the rows, sums their ETH and token amounts, counts
    the distinct buyer addresses as stored, and takes its rate from a
    row of greatest [createdAt]; the price is 1e18 over that rate in
    binary64, which is Infinity when the rate is 0.  The other tables
    are not touched. *)
Theorem metrics_snapshot_describes_the_table clock w :
  swapEvents (db w) <> [] ->
  let tbl := swapEvents (db w) in
  let w' := snd (calculateMetrics clock w) in
  exists row latest buyers,
    tokenMetrics (db w') = tokenMetrics (db w) ++ [row]
    /\ m_timestamp row = clock
    /\ m_totalSwaps row = Z.of_nat (length tbl)
    /\ m_totalVolumeEth row = sum s_ethAmount tbl
    /\ m_totalVolumeTokens row = sum s_tokenAmount tbl
    /\ (NoDup buyers
        /\ (forall a, In a buyers <-> exists s, In s tbl /\ s_buyer s = a)
        /\ m_uniqueUsers row = Z.of_nat (length buyers))
    /\ (In latest tbl
        /\ (forall s, In s tbl -> s_createdAt s <= s_createdAt latest)
        /\ m_tokensPerEth row = s_tokensPerEth latest
        /\ m_priceInEth row = priceInEth (s_tokensPerEth latest)
        /\ (s_tokensPerEth latest = 0 -> m_priceInEth row = PrimFloat.infinity))
    /\ swapEvents (db w') = tbl
    /\ leaderboard (db w') = leaderboard (db w).
Proof.
  intros Hne tbl w'.
  destruct (findFirst_latest_spec _ Hne) as (latest & Hl & Hin & Hmax).
  subst w'. rewrite (calculateMetrics_with_swaps clock w latest Hl). simpl.
  eexists _, latest, (groupBy_buyer tbl).
  split; [reflexivity|]. simpl. repeat split; try assumption.
  - apply NoDup_remove_dups.
  - unfold groupBy_buyer. rewrite <- list_elem_of_In, elem_of_remove_dups, list_elem_of_In.
    rewrite in_map_iff. intros (s & Hs & Hi). eauto.
  - unfold groupBy_buyer. rewrite <- list_elem_of_In, elem_of_remove_dups, list_elem_of_In.
    rewrite in_map_iff. intros (s & Hs & Hi). eauto.
  - intros ->. reflexivity.
Qed.

(** X27. A metrics tick never fills the cache and never reports
    success: whatever the store holds, it returns normally with the
    cache untouched, and none of the lines it logs is the success line
    (it either skips, or fails on serialising the snapshot it has just
    stored). *)
Theorem metrics_are_never_cached clock w :
  let w' := snd (calculateMetrics clock w) in
  fst (calculateMetrics clock w) = Ok tt
  /\ memoryCache w' = memoryCache w
  /\ exists lines,
       logged w' = logged w ++ lines
       /\ Forall (fun l => msg l <> "Token metrics calculated successfully") lines.
Proof.
  intros w'. subst w'.
  destruct (swapEvents (db w)) as [|s tbl] eqn:Htbl.
  - assert (calculateMetrics clock w
            = (Ok tt,
               log_line LInfo "No swap events found, skipping metrics calculation" None
                 (log_line LInfo "Calculating token metrics..." None w))) as ->.
    { unfold calculateMetrics. unfold_M. simpl. rewrite Htbl. reflexivity. }
    simpl. repeat split. eexists. rewrite <- app_assoc. split; [reflexivity|].
    repeat constructor; discriminate.
  - destruct (findFirst_latest_spec (swapEvents (db w))) as (latest & Hl & _).
    { rewrite Htbl. discriminate. }
    rewrite (calculateMetrics_with_swaps clock w latest Hl). simpl.
    repeat split. eexists. rewrite <- app_assoc. split; [reflexivity|].
    repeat constructor; discriminate.
Qed.

(** ** The analytics worker and the indexer *)

Lemma same_ledger_refl w : same_ledger w w.
Proof. constructor; reflexivity. Qed.

Lemma same_ledger_trans w1 w2 w3 :
  same_ledger w1 w2 -> same_ledger w2 w3 -> same_ledger w1 w3.
Proof.
  intros [] []. constructor; congruence.
Qed.

Lemma for_of_ind {A} (P : World -> Prop) (body : A -> M unit) l w :
  (forall x w, P w -> P (snd (body x w))) ->
  P w -> P (snd (for_of l body w)).
Proof.
  intros Hstep. revert w. induction l as [|x l IH]; intros w Hw; simpl; [exact Hw|].
  unfold bind. specialize (Hstep x w Hw).
  destruct (body x w) as [[[]|e] w1]; simpl in *; [apply IH; exact Hstep|exact Hstep].
Qed.

Lemma calculateLeaderboardForPeriod_ledger period clock w :
  same_ledger w (snd (calculateLeaderboardForPeriod period clock w)).
Proof.
  destruct (window period clock (swapEvents (db w))) as [|s l] eqn:Hw.
  - rewrite (calculateLeaderboardForPeriod_empty _ _ _ Hw). simpl.
    constructor; try reflexivity. simpl. unfold Cache.set.
    apply lookup_insert_ne. destruct period; discriminate.
  - rewrite (calculateLeaderboardForPeriod_nonempty period clock w)
      by (rewrite Hw; discriminate).
    destruct (periodBounds period clock) as [[ps pe] nw]. simpl.
    match goal with |- same_ledger _ (saved ?n ?es _) =>
      destruct (saved_keeps_world n es w) as (H1 & H2 & H3 & H4 & H5 & H6 & H7 & H8 & H9)
    end.
    constructor; try assumption. rewrite H1. reflexivity.
Qed.

(** X28. Neither tick of the analytics worker throws, and neither
    writes what belongs to the indexer: the [User], [Transaction],
    [SwapEvent] and [RateUpdate] tables, the cursor, the running flag
    and the cursor's cache entry are what they were, whatever the store
    holds and whatever the clock reads. *)
Theorem analytics_leave_the_ledger_alone clock clocks w :
  fst (calculateMetrics clock w) = Ok tt
  /\ same_ledger w (snd (calculateMetrics clock w))
  /\ fst (calculateLeaderboards clocks w) = Ok tt
  /\ same_ledger w (snd (calculateLeaderboards clocks w)).
Proof.
  split; [|split; [|split]].
  - unfold calculateMetrics. handler_cases; reflexivity.
  - unfold calculateMetrics. handler_cases; constructor; reflexivity.
  - rewrite calculateLeaderboards_unfold.
    destruct (for_of _ _ _) as [[[]|e] w1]; reflexivity.
  - rewrite calculateLeaderboards_unfold.
    pose proof (for_of_ind (same_ledger w)
                  (fun period => calculateLeaderboardForPeriod period (clocks period))
                  [DAILY; WEEKLY; MONTHLY; ALL_TIME]
                  (log_line LInfo "Calculating leaderboards..." None w)) as H.
    destruct (for_of _ _ _) as [[[]|e] w1]; simpl in *.
    + apply same_ledger_trans with w1; [|constructor; reflexivity].
      apply H; [|constructor; reflexivity].
      intros x w0 H0. apply same_ledger_trans with w0; [exact H0|].
      apply calculateLeaderboardForPeriod_ledger.
    + apply same_ledger_trans with w1; [|constructor; reflexivity].
      apply H; [|constructor; reflexivity].
      intros x w0 H0. apply same_ledger_trans with w0; [exact H0|].
      apply calculateLeaderboardForPeriod_ledger.
Qed.

Lemma periodBounds_end_is_now period clock :
  snd (fst (periodBounds period clock)) = snd (periodBounds period clock).
Proof.
  destruct period.
  - rewrite periodBounds_DAILY. reflexivity.
  - rewrite periodBounds_WEEKLY. reflexivity.
  - rewrite periodBounds_MONTHLY. reflexivity.
  - rewrite periodBounds_ALL_TIME. reflexivity.
Qed.

(** Every row handed to the saving loop with [periodEnd] equal to
    [now] is found afterwards under its key, and writing it again
    would not change it. *)
Lemma saved_row_fixed period periodStart now es w e :
  NoDup (map l_walletAddress es) ->
  Forall (same_period period periodStart) es ->
  Forall (fun e => l_periodEnd e = now) es ->
  In e es ->
  exists row,
    findUnique (leaderboard_key (l_period e) (l_walletAddress e) (l_periodStart e))
      (leaderboard (db (saved now es w))) = Some row
    /\ leaderboard_update e now row = row.
Proof.
  revert w. induction es as [|e0 es IH]; intros w Hnd Hall Hend Hin; [destruct Hin|].
  simpl in Hnd. apply NoDup_cons in Hnd as [Hnin Hnd'].
  apply Forall_cons in Hall as [[Hp Hs] Hall'].
  apply Forall_cons in Hend as [He Hend'].
  destruct Hin as [->|Hin].
  - change (saved now (e :: es) w) with (saved now es (snd (leaderboard_upsert now e w))).
    rewrite list_elem_of_In in Hnin.
    rewrite Hp, Hs.
    rewrite (saved_other_wallet period periodStart now es _ _ Hnin). simpl.
    unfold findUnique. rewrite <- Hp, <- Hs.
    destruct (find_upsert_same
                (leaderboard_key (l_period e) (l_walletAddress e) (l_periodStart e))
                (leaderboard_update e now) (fun r => eq_refl) e (leaderboard (db w))
                (leaderboard_key_refl e)) as [H|[r H]];
      rewrite H; eexists; (split; [reflexivity|]).
    + destruct e. simpl in *. subst. reflexivity.
    + reflexivity.
  - apply (IH (snd (leaderboard_upsert now e0 w)) Hnd' Hall' Hend' Hin).
Qed.

(** Writing again rows that are already stored as they would be
    written leaves the store as it is. *)
Lemma saved_again now es w :
  (forall e, In e es ->
     exists row,
       findUnique (leaderboard_key (l_period e) (l_walletAddress e) (l_periodStart e))
         (leaderboard (db w)) = Some row
       /\ leaderboard_update e now row = row) ->
  db (saved now es w) = db w.
Proof.
  revert w. induction es as [|e es IH]; intros w Hfix; [reflexivity|].
  change (saved now (e :: es) w) with (saved now es (snd (leaderboard_upsert now e w))).
  assert (db (snd (leaderboard_upsert now e w)) = db w) as Hstep.
  { destruct (Hfix e (or_introl eq_refl)) as (row & Hrow & Hupd).
    simpl. unfold set_leaderboard.
    rewrite (upsert_fixed _ _ _ _ _ Hrow Hupd).
    destruct (db w); reflexivity. }
  rewrite IH; [exact Hstep|].
  intros e' He'. rewrite Hstep. apply Hfix. right. exact He'.
Qed.

(** X29. Calculating a period again at the same clock reading, the swap
    events being the same and the store answering both times, changes
    nothing in the store: every row is rewritten with the values it
    already has ([periodEnd] included, since create and update both
    write the time value of [now]). *)
Theorem recalculation_is_idempotent period clock w :
  let w1 := snd (calculateLeaderboardForPeriod period clock w) in
  db (snd (calculateLeaderboardForPeriod period clock w1)) = db w1.
Proof.
  intros w1.
  assert (swapEvents (db w1) = swapEvents (db w)) as Hsw.
  { subst w1. rewrite calculateLeaderboardForPeriod_db.
    destruct (periodBounds period clock) as [[ps pe] nw].
    apply saved_keeps_world. }
  rewrite calculateLeaderboardForPeriod_db, Hsw.
  assert (db w1
          = let '(periodStart, periodEnd, now) := periodBounds period clock in
            db (saved now
                  (imap (entry_of period periodStart periodEnd)
                     (sort (aggregate (findMany_createdAt periodStart periodEnd
                                         (swapEvents (db w))))))
                  w)) as Hw1
    by (subst w1; apply calculateLeaderboardForPeriod_db).
  pose proof (periodBounds_end_is_now period clock) as Hend.
  destruct (periodBounds period clock) as [[ps pe] nw]. simpl in Hend. subst pe.
  set (es := imap (entry_of period ps nw)
               (sort (aggregate (findMany_createdAt ps nw (swapEvents (db w)))))) in *.
  apply saved_again. intros e He. rewrite Hw1.
  apply (saved_row_fixed period ps nw es w e).
  - subst es. rewrite entries_wallets. apply (sorted_wallets _).
  - apply entries_same_period.
  - subst es. apply List.Forall_forall. intros x Hx.
    apply list_elem_of_In, list_elem_of_lookup_1 in Hx as [i Hi].
    rewrite list_lookup_imap in Hi.
    destruct (sort _ !! i); inversion Hi; reflexivity.
  - exact He.
Qed.

Lemma remove_dups_length_app {A} `{EqDecision A} (l k : list A) :
  (length (remove_dups l) <= length (remove_dups (l ++ k)))%nat.
Proof.
  apply submseteq_length, NoDup_submseteq; [apply NoDup_remove_dups|].
  intros x. rewrite !elem_of_remove_dups, elem_of_app. auto.
Qed.

(** X30. Snapshots follow the store: the store answering both ticks,
    a snapshot taken after the index loop has run in between counts at
    least as many swaps and at least as many distinct buyers as the
    one taken before, and is appended right after it. *)
Theorem snapshots_grow_with_the_store envs clock1 clock2 w :
  swapEvents (db w) <> [] ->
  let w1 := snd (calculateMetrics clock1 w) in
  let w2 := snd (indexLoop envs w1) in
  let w3 := snd (calculateMetrics clock2 w2) in
  exists m1 m2,
    tokenMetrics (db w1) = tokenMetrics (db w) ++ [m1]
    /\ tokenMetrics (db w3) = tokenMetrics (db w) ++ [m1; m2]
    /\ m_totalSwaps m1 <= m_totalSwaps m2
    /\ m_uniqueUsers m1 <= m_uniqueUsers m2.
Proof.
  intros Hne w1 w2 w3.
  destruct (findFirst_latest_spec _ Hne) as (l1 & Hl1 & _).
  assert (grows (db w1) (db w2)) as Hg.
  { subst w2. apply (indexLoop_db_ind (grows (db w1))).
    - intros amb e w0 H0. apply grows_trans with (db w0); [exact H0|].
      apply processSwapEvent_grows.
    - intros amb e w0 H0. apply grows_trans with (db w0); [exact H0|].
      apply processRateUpdateEvent_grows.
    - apply grows_refl. }
  destruct Hg as [_ [added Hsw] _ _ Htm _].
  assert (swapEvents (db w1) = swapEvents (db w)) as Hsw1
    by (subst w1; rewrite (calculateMetrics_with_swaps clock1 w l1 Hl1); reflexivity).
  rewrite Hsw1 in Hsw.
  assert (swapEvents (db w2) <> []) as Hne2.
  { rewrite Hsw. destruct (swapEvents (db w)); [contradiction|discriminate]. }
  destruct (findFirst_latest_spec _ Hne2) as (l2 & Hl2 & _).
  subst w3. rewrite (calculateMetrics_with_swaps clock2 w2 l2 Hl2).
  cbn [snd db set_db log_line set_logged tokenMetrics set_tokenMetrics].
  rewrite Htm. subst w1. rewrite (calculateMetrics_with_swaps clock1 w l1 Hl1).
  cbn [snd db set_db log_line set_logged tokenMetrics set_tokenMetrics].
  eexists _, _. split; [reflexivity|]. split; [rewrite <- app_assoc; reflexivity|].
  cbn [m_totalSwaps m_uniqueUsers]. rewrite Hsw. split.
  - rewrite length_app. lia.
  - unfold groupBy_buyer. rewrite map_app.
    pose proof (remove_dups_length_app (map s_buyer (swapEvents (db w)))
                  (map s_buyer added)). lia.
Qed.

(* ===================================================================== *)
(** ** Instances of the further properties *)
(* ===================================================================== *)

(** Writing 'a' does not change what 'b', which holds a value,
    reads. *)
Lemma cache_keys_are_independent_witness :
  "a" <> "b"
  /\ fst (Cache.get "b" 5 Scenario.holds_b) = Some "old"
  /\ fst (Cache.get "b" 5 (Cache.set "a" "v" (Some 300) 0 Scenario.holds_b))
     = fst (Cache.get "b" 5 Scenario.holds_b).
Proof.
  assert ("a" <> "b") as Hne by discriminate.
  split; [exact Hne|]. split; [reflexivity|].
  destruct (cache_keys_are_independent "a" "b" "v" (Some 300) 0 5 Scenario.holds_b Hne)
    as (H & _).
  exact H.
Defined.

(** 'a' was written at 0 to live one second; a sweep at 2000 removes
    it, and a read at 3000 finds nothing with or without the sweep. *)
Lemma cache_sweep_is_transparent_witness :
  2000 <= 3000
  /\ fst (Cache.sweep 2000 (Cache.set "a" "v" (Some 1) 0 Scenario.holds_b)) = 1%nat
  /\ fst (Cache.get "a" 3000
            (snd (Cache.sweep 2000 (Cache.set "a" "v" (Some 1) 0 Scenario.holds_b))))
     = fst (Cache.get "a" 3000 (Cache.set "a" "v" (Some 1) 0 Scenario.holds_b)).
Proof.
  assert (2000 <= 3000) as Hle by lia.
  split; [exact Hle|]. split; [vm_compute; reflexivity|].
  destruct (cache_sweep_is_transparent 2000 3000 "a"
              (Cache.set "a" "v" (Some 1) 0 Scenario.holds_b) Hle) as (H & _).
  exact H.
Defined.

Lemma store_wf_emptyDB : store_wf emptyDB.
Proof. constructor; simpl; constructor. Defined.

Lemma normalized_emptyDB : normalized emptyDB.
Proof. constructor; simpl; constructor. Defined.

(** One cycle over the swaps of W1 and W2 on an empty store. *)
Lemma indexLoop_keeps_store_wf_witness :
  store_wf (db Sample.world0)
  /\ store_wf (db (snd (indexLoop [Sample.node [Sample.swap_w1; Sample.swap_w2] []
                                     Sample.calm] Sample.world0))).
Proof.
  split; [exact store_wf_emptyDB|].
  apply (indexLoop_keeps_store_wf _ Sample.world0 store_wf_emptyDB).
Defined.

Lemma indexLoop_keeps_addresses_lower_case_witness :
  normalized (db Sample.world0)
  /\ normalized (db (snd (indexLoop [Sample.node [Sample.swap_w1; Sample.swap_w2] []
                                       Sample.calm] Sample.world0))).
Proof.
  split; [exact normalized_emptyDB|].
  apply (indexLoop_keeps_addresses_lower_case _ Sample.world0 normalized_emptyDB).
Defined.

(** The cache remembers block 12: [start()] sets the cursor to 12. *)
Lemma start_resumes_from_cached_cursor_witness :
  isRunning Scenario.stopped_at_12 = false
  /\ start 5 Scenario.stopped_at_12
     = Some (Ok true,
             set_lastProcessedBlock 12
               (log_line LInfo "Starting blockchain indexer..." None
                  (set_isRunning true Scenario.stopped_at_12))).
Proof.
  split; [reflexivity|].
  destruct (start_resumes_from_cached_cursor 5 Scenario.stopped_at_12 eq_refl) as (H & _).
  apply (H 12 (mkCacheEntry "12" None)); [lia|reflexivity..].
Defined.

Lemma second_start_only_warns_witness :
  let w1 := set_lastProcessedBlock 12
              (log_line LInfo "Starting blockchain indexer..." None
                 (set_isRunning true Scenario.stopped_at_12)) in
  start 5 Scenario.stopped_at_12 = Some (Ok true, w1)
  /\ start 6 w1 = Some (Ok false, log_line LWarn "Indexer is already running" None w1).
Proof.
  intros w1.
  assert (start 5 Scenario.stopped_at_12 = Some (Ok true, w1)) as H by reflexivity.
  split; [exact H|].
  apply (second_start_only_warns 5 6 Scenario.stopped_at_12 w1 H).
Defined.


(** A garbled rate log: one error line, nothing else. *)
Lemma failed_rate_update_writes_nothing_witness :
  fst (processRateUpdateEvent_try Sample.calm Sample.garbled Sample.world0)
  = Throw DecodeError
  /\ processRateUpdateEvent Sample.calm Sample.garbled Sample.world0
     = (Ok tt, log_line LError "Error processing rate update event:" (Some DecodeError)
                 Sample.world0).
Proof.
  assert (fst (processRateUpdateEvent_try Sample.calm Sample.garbled Sample.world0)
          = Throw DecodeError) as H by reflexivity.
  split; [exact H|].
  apply (failed_rate_update_writes_nothing _ _ _ _ H).
Defined.

Lemma readable_rate_log :
  readable_rate Scenario.rate_log 1200 (mkBlock 12 (Some "0xb10c"))
    (mkReceipt "0x0a" "0xC0ffee" (Some 1) (Some 30000) (Some 5)).
Proof. constructor; reflexivity. Defined.

(** The rate update to 1200 handled twice: two equal rows. *)
Lemma reprocessing_rate_update_duplicates_witness :
  let row := mkRateUpdate 1000 1200 "0xc0ffee" 12 "0x0a" in
  let w1 := snd (processRateUpdateEvent Sample.calm Scenario.rate_log Sample.world0) in
  let w2 := snd (processRateUpdateEvent Sample.calm Scenario.rate_log w1) in
  tokensPerEth_call Sample.calm = Ok 1000
  /\ rateUpdates (db w2) = rateUpdates (db Sample.world0) ++ [row; row].
Proof.
  intros row w1 w2. split; [reflexivity|].
  apply (reprocessing_rate_update_duplicates Sample.calm Sample.calm Scenario.rate_log
           Sample.world0 _ _ _ _ readable_rate_log store_up_calm store_up_calm
           eq_refl eq_refl).
Defined.

(** The swap of W1 on an empty store: the new row is owned by the
    user created for W1. *)
Lemma new_transaction_is_owned_by_buyer_witness :
  let w' := snd (processSwapEvent Sample.calm Sample.swap_w1 Sample.world0) in
  ~ has_transaction "0x01" (transactions (db Sample.world0))
  /\ exists user row,
       findUnique (user_key (toLowerCase Sample.W1)) (users (db w')) = Some user
       /\ transactions (db w') = transactions (db Sample.world0) ++ [row]
       /\ t_userId row = Some (u_id user)
       /\ t_fromAddress row = toLowerCase Sample.W1.
Proof.
  intros w'.
  assert (~ has_transaction "0x01" (transactions (db Sample.world0))) as Hnew
    by (intros H; discriminate H).
  split; [exact Hnew|].
  destruct (new_transaction_is_owned_by_buyer Sample.calm Sample.swap_w1 Sample.world0
              _ _ _ _ _ (readable_swap_log _ _ _ _ _ _) store_up_calm Hnew)
    as (user & row & H1 & H2 & _ & H3 & H4 & _).
  exists user, row. auto.
Defined.

Lemma synced_in_step : synced Scenario.in_step.
Proof. reflexivity. Defined.

(** One cycle up to block 12, [stop()], [start()]: the cursor is 12. *)
Lemma restart_resumes_at_cursor_witness :
  let w1 := snd (indexLoop [Sample.node [Sample.swap_w1] [] Sample.calm] Scenario.in_step) in
  synced Scenario.in_step
  /\ exists w3,
       start 99 (snd (stop w1)) = Some (Ok true, w3)
       /\ lastProcessedBlock w3 = lastProcessedBlock w1.
Proof.
  intros w1. split; [exact synced_in_step|].
  destruct (restart_resumes_at_cursor [Sample.node [Sample.swap_w1] [] Sample.calm] 99
              Scenario.in_step synced_in_step) as (w3 & H1 & H2 & _).
  exists w3. split; [exact H1|exact H2].
Defined.

Lemma unknown_log_is_skipped_silently_witness :
  parseLog Scenario.unknown_log = Ok None
  /\ processSwapEvent Sample.calm Scenario.unknown_log Sample.world0 = (Ok tt, Sample.world0).
Proof.
  split; [reflexivity|].
  destruct (unknown_log_is_skipped_silently Sample.calm Scenario.unknown_log Sample.world0
              eq_refl) as (H & _).
  exact H.
Defined.

Lemma handled_swap_invalidates_caches_witness :
  2 * Sample.ETH <> 0
  /\ memoryCache (snd (processSwapEvent Sample.calm Sample.swap_w1 Sample.world0))
     = Cache.del "tx:0x01"
         (Cache.del "tx:stats:summary"
            (Cache.del "token:metrics" (memoryCache Sample.world0))).
Proof.
  assert (2 * Sample.ETH <> 0) as Hne by discriminate.
  split; [exact Hne|].
  apply (handled_swap_invalidates_caches Sample.calm Sample.swap_w1 Sample.world0
           _ _ _ _ _ (readable_swap_log _ _ _ _ _ _) store_up_calm Hne).
Defined.

(** The swap with a zero ETH amount throws after its [Transaction]
    upsert; the cache is untouched. *)
Lemma failed_swap_leaves_caches_stale_witness :
  fst (processSwapEvent_try Sample.calm Sample.swap_zero Sample.world0) = Throw RangeError
  /\ memoryCache (snd (processSwapEvent Sample.calm Sample.swap_zero Sample.world0))
     = memoryCache Sample.world0.
Proof.
  assert (fst (processSwapEvent_try Sample.calm Sample.swap_zero Sample.world0)
          = Throw RangeError) as H by reflexivity.
  split; [exact H|].
  apply (failed_swap_leaves_caches_stale _ _ _ _ H).
Defined.

(** The monthly board at noon of the day W1 swapped 2 ETH. *)
Lemma leaderboard_totals_are_the_wallet_sums_witness :
  let a := toLowerCase Sample.W1 in
  let mine := swaps_of a (window MONTHLY Sample.noon (swapEvents (db Sample.indexed_today))) in
  mine <> []
  /\ exists row,
       findUnique (leaderboard_key MONTHLY a (fst (fst (periodBounds MONTHLY Sample.noon))))
         (leaderboard (db (snd (calculateLeaderboardForPeriod MONTHLY Sample.noon
                                  Sample.indexed_today)))) = Some row
       /\ l_totalVolumeEth row = sum s_ethAmount mine.
Proof.
  intros a mine.
  assert (mine <> []) as Hne by (vm_compute; discriminate).
  split; [exact Hne|].
  destruct (leaderboard_totals_are_the_wallet_sums MONTHLY Sample.noon Sample.indexed_today
              a Hne) as (row & H1 & _ & H2 & _).
  exists row. split; [exact H1|exact H2].
Defined.

(** W2 (5 ETH) is ranked before W1 (2 ETH). *)
Lemma leaderboard_rank_follows_volume_witness :
  let board := leaderboard (db (snd (calculateLeaderboardForPeriod MONTHLY Sample.noon
                                       Sample.indexed_today))) in
  let periodStart := fst (fst (periodBounds MONTHLY Sample.noon)) in
  exists ra rb,
    findUnique (leaderboard_key MONTHLY (toLowerCase Sample.W2) periodStart) board = Some ra
    /\ findUnique (leaderboard_key MONTHLY (toLowerCase Sample.W1) periodStart) board = Some rb
    /\ l_rank ra < l_rank rb
    /\ l_totalVolumeEth rb <= l_totalVolumeEth ra.
Proof.
  intros board periodStart.
  destruct (findUnique (leaderboard_key MONTHLY (toLowerCase Sample.W2) periodStart) board)
    as [ra|] eqn:Hra; [|vm_compute in Hra; discriminate Hra].
  destruct (findUnique (leaderboard_key MONTHLY (toLowerCase Sample.W1) periodStart) board)
    as [rb|] eqn:Hrb; [|vm_compute in Hrb; discriminate Hrb].
  assert (l_rank ra < l_rank rb) as Hlt.
  { pose proof Hra as Hra'. pose proof Hrb as Hrb'.
    vm_compute in Hra', Hrb'. injection Hra' as <-. injection Hrb' as <-.
    vm_compute. reflexivity. }
  exists ra, rb. split; [reflexivity|]. split; [reflexivity|]. split; [exact Hlt|].
  apply (leaderboard_rank_follows_volume MONTHLY Sample.noon Sample.indexed_today
           (toLowerCase Sample.W2) (toLowerCase Sample.W1) ra rb);
    [vm_compute; discriminate|vm_compute; discriminate|exact Hra|exact Hrb|exact Hlt].
Defined.

(** At noon of Monday 2024-01-01 the daily and weekly windows are
    empty and the monthly one is not: the tick ends there. *)
Lemma leaderboard_tick_stops_at_first_nonempty_window_witness :
  let w' := snd (calculateLeaderboards (fun _ => Sample.noon) Sample.indexed_today) in
  window DAILY Sample.noon (swapEvents (db Sample.indexed_today)) = []
  /\ window WEEKLY Sample.noon (swapEvents (db Sample.indexed_today)) = []
  /\ window MONTHLY Sample.noon (swapEvents (db Sample.indexed_today)) <> []
  /\ List.filter (of_period ALL_TIME) (leaderboard (db w'))
     = List.filter (of_period ALL_TIME) (leaderboard (db Sample.indexed_today)).
Proof.
  intros w'.
  assert (window DAILY Sample.noon (swapEvents (db Sample.indexed_today)) = []) as Hd
    by (vm_compute; reflexivity).
  assert (window WEEKLY Sample.noon (swapEvents (db Sample.indexed_today)) = []) as Hw
    by (vm_compute; reflexivity).
  assert (window MONTHLY Sample.noon (swapEvents (db Sample.indexed_today)) <> []) as Hm
    by (vm_compute; discriminate).
  split; [exact Hd|]. split; [exact Hw|]. split; [exact Hm|].
  destruct (leaderboard_tick_stops_at_first_nonempty_window (fun _ => Sample.noon)
              Sample.indexed_today [DAILY; WEEKLY] MONTHLY [ALL_TIME] eq_refl) as (_ & H & _).
  - intros q [<-|[<-|[]]]; assumption.
  - exact Hm.
  - apply H. discriminate.
Defined.

(** At noon of 2024-01-01 the monthly window starts that day at
    midnight. *)
Lemma monthly_window_starts_on_the_first_witness :
  100 <= YearFromTime Sample.noon
  /\ forall s,
       In s (window MONTHLY Sample.noon (swapEvents (db Sample.indexed_today)))
       <-> In s (swapEvents (db Sample.indexed_today))
           /\ Sample.noon - (DateFromTime Sample.noon - 1) * msPerDay
              - TimeWithinDay Sample.noon <= s_createdAt s <= Sample.noon.
Proof.
  assert (100 <= YearFromTime Sample.noon) as Hy by (vm_compute; discriminate).
  split; [exact Hy|]. intros s.
  destruct (monthly_window_starts_on_the_first Sample.noon
              (swapEvents (db Sample.indexed_today)) s Hy) as (_ & _ & H & _).
  exact H.
Defined.

(** The snapshot taken at noon over the two swaps of the day. *)
Lemma metrics_snapshot_describes_the_table_witness :
  swapEvents (db Sample.indexed_today) <> []
  /\ exists row,
       tokenMetrics (db (snd (calculateMetrics Sample.noon Sample.indexed_today)))
       = tokenMetrics (db Sample.indexed_today) ++ [row]
       /\ m_totalSwaps row = Z.of_nat (length (swapEvents (db Sample.indexed_today))).
Proof.
  assert (swapEvents (db Sample.indexed_today) <> []) as Hne by (vm_compute; discriminate).
  split; [exact Hne|].
  destruct (metrics_snapshot_describes_the_table Sample.noon Sample.indexed_today Hne)
    as (row & latest & buyers & H1 & _ & H2 & _).
  exists row. split; [exact H1|exact H2].
Defined.

(** A snapshot at noon, a cycle that indexes a swap of a third wallet
    in block 13, a snapshot five minutes later. *)
Lemma snapshots_grow_with_the_store_witness :
  let w1 := snd (calculateMetrics Sample.noon Sample.indexed_today) in
  let w2 := snd (indexLoop [Scenario.node_13] w1) in
  let w3 := snd (calculateMetrics (Sample.noon + 300000) w2) in
  swapEvents (db Sample.indexed_today) <> []
  /\ length (swapEvents (db w2)) = 3%nat
  /\ exists m1 m2,
       tokenMetrics (db w3) = tokenMetrics (db Sample.indexed_today) ++ [m1; m2]
       /\ m_totalSwaps m1 <= m_totalSwaps m2.
Proof.
  intros w1 w2 w3.
  assert (swapEvents (db Sample.indexed_today) <> []) as Hne by (vm_compute; discriminate).
  split; [exact Hne|]. split; [vm_compute; reflexivity|].
  destruct (snapshots_grow_with_the_store [Scenario.node_13] Sample.noon
              (Sample.noon + 300000) Sample.indexed_today Hne)
    as (m1 & m2 & _ & H1 & H2 & _).
  exists m1, m2. split; [exact H1|exact H2].
Defined.
